(** * Point-cloud converter: downsampler, reader, exporter and command line

    A shallow embedding of the Python modules [downsampler.py], [reader.py],
    [exporter.py] and [cli.py] of the converter, the properties of the
    repository's specification that concern them, and further properties
    of the code.

    - NumPy [float32] arrays are lists of IEEE-754 binary32 values, computed
      with the executable operations of [SpecFloat] at precision 24; Python
      [float] scalars are binary64 values (precision 53).
    - NumPy [int64] is [Z] with the two's-complement wrap-around written out.
    - Python exceptions are the [Raise] results of an error monad.
    - The file system touched by the exporter is an explicit state.
    - Python strings are [string]s of ASCII characters. *)

From Stdlib Require Import String ZArith List Bool Lia SpecFloat.
From Stdlib Require Import Permutation Sorted.
From Stdlib Require Import Ascii NArith DecimalString.
Import ListNotations.
Open Scope Z_scope.

Set Implicit Arguments.

(** ** Exceptions *)

(** The exceptions the modelled code can raise.  [InvalidTarget] is the
    [ValueError] raised by [downsample_to_target] itself; [EmptyReduction] is
    NumPy's [ValueError] for [min]/[max]/[argmin] of a zero-size array. *)
Inductive exn : Type :=
| InvalidTarget
| EmptyReduction
| ZeroDivisionError
| TypeError
| IndexError
| KeyError
| UnboundLocalError
| FileNotFoundError
| CalledProcessError (returncode : Z).

Inductive result (A : Type) : Type :=
| Ok (a : A)
| Raise (e : exn).

Arguments Ok {A} a.
Arguments Raise {A} e.

Definition bind {A B : Type} (r : result A) (k : A -> result B) : result B :=
  match r with
  | Ok a => k a
  | Raise e => Raise e
  end.

Notation "'let*' x ':=' r 'in' k" := (bind r (fun x => k))
  (at level 10, x pattern, r at level 100, k at level 200).

Definition of_option {A : Type} (e : exn) (o : option A) : result A :=
  match o with
  | Some a => Ok a
  | None => Raise e
  end.

Fixpoint mapM {A B : Type} (f : A -> result B) (l : list A) : result (list B) :=
  match l with
  | [] => Ok []
  | a :: l' =>
      let* b := f a in
      let* bs := mapM f l' in
      Ok (b :: bs)
  end.

(** ** Floating point *)

(** Truncation toward zero and floor of a float, as integers; [None] for
    NaN and the infinities. *)
Definition SFtrunc (x : spec_float) : option Z :=
  match x with
  | S754_zero _ => Some 0
  | S754_finite s m e => Some (cond_Zopp s (Z.shiftl (Zpos m) e))
  | _ => None
  end.

Definition SFfloor (x : spec_float) : option Z :=
  match x with
  | S754_zero _ => Some 0
  | S754_finite s m e => Some (Z.shiftl (cond_Zopp s (Zpos m)) e)
  | _ => None
  end.

Definition SFis_nan (x : spec_float) : bool :=
  match x with
  | S754_nan => true
  | _ => false
  end.

(** IEEE [>=] and [>]: false as soon as one side is NaN. *)
Definition SFgeb (x y : spec_float) : bool := SFleb y x.
Definition SFgtb (x y : spec_float) : bool := SFltb y x.

(** Python [float]: binary64. *)
Module F64.
Definition prec : Z := 53.
Definition emax : Z := 1024.
Definition t : Type := spec_float.
Definition of_Z (z : Z) : t := binary_normalize prec emax z 0 false.
Definition mul : t -> t -> t := SFmul prec emax.
Definition div : t -> t -> t := SFdiv prec emax.
(** A decimal literal [n / 10^k], correctly rounded. *)
Definition of_decimal (n : positive) (k : positive) : t :=
  div (S754_finite false n 0) (S754_finite false (Pos.pow 10 k) 0).
End F64.

(** NumPy [float32]: binary32. *)
Module F32.
Definition prec : Z := 24.
Definition emax : Z := 128.
Definition t : Type := spec_float.
Definition of_Z (z : Z) : t := binary_normalize prec emax z 0 false.
Definition add : t -> t -> t := SFadd prec emax.
Definition sub : t -> t -> t := SFsub prec emax.
Definition mul : t -> t -> t := SFmul prec emax.
Definition div : t -> t -> t := SFdiv prec emax.
Definition sqrt : t -> t := SFsqrt prec emax.
Definition valid : t -> bool := valid_binary prec emax.
(** A Python [float] operand of a [float32] array operation is first
    rounded to [float32]. *)
Definition of_f64 (x : F64.t) : t :=
  match x with
  | S754_finite s m e => binary_round prec emax s m e
  | _ => x
  end.
(** [np.maximum] and [np.minimum]: a NaN operand wins. *)
Definition maximum (a b : t) : t := if SFgeb a b || SFis_nan a then a else b.
Definition minimum (a b : t) : t := if SFleb a b || SFis_nan a then a else b.
(** [np.floor]. *)
Definition floor (x : t) : t :=
  match x with
  | S754_finite s _ _ =>
      match SFfloor x with
      | Some 0 => S754_zero s
      | Some z => of_Z z
      | None => x
      end
  | _ => x
  end.
End F32.

(** ** 64-bit integers *)

Definition INT64_MIN : Z := - 2 ^ 63.
Definition INT64_MAX : Z := 2 ^ 63 - 1.

(** Two's-complement wrap-around of NumPy's [int64] arithmetic. *)
Definition wrap64 (z : Z) : Z := (z + 2 ^ 63) mod 2 ^ 64 - 2 ^ 63.

Definition add64 (a b : Z) : Z := wrap64 (a + b).
Definition sub64 (a b : Z) : Z := wrap64 (a - b).
Definition mul64 (a b : Z) : Z := wrap64 (a * b).

(** [.astype(np.int64)] of a float: truncation; NaN, the infinities and
    values outside the range give [INT64_MIN], as the x86-64 conversion
    instruction does. *)
Definition astype_int64 (x : spec_float) : Z :=
  match SFtrunc x with
  | Some z => if (INT64_MIN <=? z) && (z <=? INT64_MAX) then z else INT64_MIN
  | None => INT64_MIN
  end.

(** [.astype(np.uint8)] of a float: truncation, modulo 256; NaN and the
    infinities give 0. *)
Definition astype_uint8 (x : spec_float) : Z :=
  match SFtrunc x with
  | Some z => z mod 256
  | None => 0
  end.

(** Python's [a / b] on integers: the exact quotient, rounded once. *)
Definition raw_of_Z (z : Z) : F64.t :=
  match z with
  | Z0 => S754_zero false
  | Zpos p => S754_finite false p 0
  | Zneg p => S754_finite true p 0
  end.

Definition py_truediv (a b : Z) : result F64.t :=
  if b =? 0 then Raise ZeroDivisionError
  else Ok (F64.div (raw_of_Z a) (raw_of_Z b)).

(** Python's [int(x)] on a finite float. *)
Definition py_int (x : F64.t) : Z :=
  match SFtrunc x with
  | Some z => z
  | None => 0
  end.

(** ** Arrays *)

(** A row of a [(N, 3)] array of [float32] positions, of [uint8] colours and
    of [int64] grid indices. *)
Definition point : Type := F32.t * F32.t * F32.t.
Definition color : Type := Z * Z * Z.
Definition cell : Type := Z * Z * Z.

Definition cell_eq_dec (a b : cell) : {a = b} + {a <> b}.
Proof. repeat decide equality. Defined.

Definition map3 {A B : Type} (f : A -> B) (p : A * A * A) : B * B * B :=
  let '(x, y, z) := p in (f x, f y, f z).

Definition zip3 {A B C : Type} (f : A -> B -> C) (p : A * A * A) (q : B * B * B)
  : C * C * C :=
  let '(x, y, z) := p in
  let '(x', y', z') := q in
  (f x x', f y y', f z z').

(** [a[idx]] with an index array: [IndexError] out of range. *)
Definition take {A : Type} (a : list A) (idx : list nat) : result (list A) :=
  mapM (fun i => of_option IndexError (nth_error a i)) idx.

(** [a[start:stop]]. *)
Definition slice {A : Type} (a : list A) (start stop : nat) : list A :=
  firstn (stop - start) (skipn start a).

(** A reduction along axis 0: NumPy raises on a zero-size array and
    otherwise folds from the first row. *)
Definition reduce_axis0 {A : Type} (f : A -> A -> A) (rows : list A) : result A :=
  match rows with
  | [] => Raise EmptyReduction
  | r :: rows' => Ok (fold_left f rows' r)
  end.

(** [np.unique(a, return_index=True)]: the sorted distinct values, each with
    the index of its first occurrence. *)
Fixpoint insert_uniq (k : Z) (l : list Z) : list Z :=
  match l with
  | [] => [k]
  | h :: t =>
      if k <? h then k :: l
      else if k =? h then l
      else h :: insert_uniq k t
  end.

Definition unique_sorted (l : list Z) : list Z := fold_right insert_uniq [] l.

Fixpoint index_of (k : Z) (l : list Z) : nat :=
  match l with
  | [] => O
  | h :: t => if h =? k then O else S (index_of k t)
  end.

Definition np_unique_index (a : list Z) : list Z * list nat :=
  let u := unique_sorted a in
  (u, map (fun k => index_of k a) u).

(** [len(np.unique(rows, axis=0))]. *)
Definition np_unique_rows_count (rows : list cell) : Z :=
  Z.of_nat (length (nodup cell_eq_dec rows)).

(** [np.argmin] of a [float32] vector: the first index of the minimum, the
    first NaN when there is one. *)
Fixpoint argmin_from (mp : F32.t) (best i : nat) (l : list F32.t) : nat :=
  match l with
  | [] => best
  | x :: l' =>
      if negb (SFgeb x mp)
      then (if SFis_nan x then i else argmin_from x i (S i) l')
      else argmin_from mp best (S i) l'
  end.

Definition np_argmin (l : list F32.t) : result nat :=
  match l with
  | [] => Raise EmptyReduction
  | x :: l' => Ok (if SFis_nan x then O else argmin_from x O 1%nat l')
  end.

(** [np.linalg.norm] of a 3-vector. *)
Definition norm3 (p : point) : F32.t :=
  let '(x, y, z) := p in
  F32.sqrt (F32.add (F32.add (F32.mul x x) (F32.mul y y)) (F32.mul z z)).

Definition psub : point -> point -> point := zip3 F32.sub.

(** [pts.mean(axis=0)]: the column sums divided by the row count. *)
Definition mean_axis0 (pts : list point) : point :=
  let s := match pts with
           | [] => (S754_zero false, S754_zero false, S754_zero false)
           | p :: pts' => fold_left (zip3 F32.add) pts' p
           end in
  map3 (fun c => F32.div c (F32.of_Z (Z.of_nat (length pts)))) s.

(** ** downsampler.py *)

(** One coordinate of [np.floor(points / voxel_size).astype(np.int64)]. *)
Definition grid_coord (voxel_size x : F32.t) : Z :=
  astype_int64 (F32.floor (F32.div x voxel_size)).

Definition grid_cell (voxel_size : F32.t) (p : point) : cell :=
  map3 (grid_coord voxel_size) p.

(** The row-major linearised key of a shifted grid index. *)
Definition voxel_key (max_idx g : cell) : Z :=
  let '(_, m1, m2) := max_idx in
  let '(g0, g1, g2) := g in
  add64 (add64 (mul64 g0 (mul64 m1 m2)) (mul64 g1 m2)) g2.

Definition voxel_keys (voxel_size : F32.t) (points : list point) : result (list Z) :=
  let grid_indices := map (grid_cell voxel_size) points in
  let* offset := reduce_axis0 (zip3 Z.min) grid_indices in
  let grid_indices := map (fun g => zip3 sub64 g offset) grid_indices in
  let* mx := reduce_axis0 (zip3 Z.max) grid_indices in
  let max_idx := map3 (fun m => add64 m 1) mx in
  Ok (map (voxel_key max_idx) grid_indices).

(** The distance of every point of a group to the group's centroid. *)
Definition centroid_distances (group_points : list point) : list F32.t :=
  let centroid := mean_axis0 group_points in
  map (fun p => norm3 (psub p centroid)) group_points.

(** The body of the loop over the groups: the index of the group's point
    nearest to the group's centroid. *)
Definition select_in_group (points : list point) (group_point_indices : list nat)
  : result nat :=
  let* group_points := take points group_point_indices in
  let distances := centroid_distances group_points in
  let* k := np_argmin distances in
  of_option IndexError (nth_error group_point_indices k).

Definition group_bounds (sorted_keys : list Z) : list (nat * nat) :=
  let '(_, group_starts) := np_unique_index sorted_keys in
  let group_ends := tl group_starts ++ [length sorted_keys] in
  combine group_starts group_ends.

Section Downsampler.

(** [np.argsort] with the default [kind='quicksort'], which NumPy does not
    promise to be stable: kept abstract, its contract is [argsort_okb]. *)
Variable argsort : list Z -> list nat.

(** [target ** (1/3)] for a positive integer [target]: the C library's
    [pow]. *)
Variable pow_third : Z -> F64.t.

Definition downsample_voxel_grid_nearest
    (points : list point) (colors : list color) (voxel_size : F32.t)
  : result (list point * list color * list nat) :=
  let* voxel_keys := voxel_keys voxel_size points in
  let sorted_indices := argsort voxel_keys in
  let* sorted_keys := take voxel_keys sorted_indices in
  let* selected_indices :=
    mapM (fun '(start, stop) =>
            select_in_group points (slice sorted_indices start stop))
         (group_bounds sorted_keys) in
  let* pts := take points selected_indices in
  let* cols := take colors selected_indices in
  Ok (pts, cols, selected_indices).

(** [len(np.unique(np.floor(points / vmid).astype(np.int64), axis=0))] *)
Definition occupied_voxels (points : list point) (vmid : F32.t) : Z :=
  np_unique_rows_count (map (grid_cell vmid) points).

Definition bbox_diag (points : list point) : result F32.t :=
  let* mx := reduce_axis0 (zip3 F32.maximum) points in
  let* mn := reduce_axis0 (zip3 F32.minimum) points in
  Ok (norm3 (psub mx mn)).

(** [tol = 0.05] *)
Definition default_tol : F64.t := Eval vm_compute in F64.of_decimal 5 2.

(** [abs(count - target) / target <= tol] *)
Definition within_tol (count target : Z) (tol : F64.t) : result bool :=
  let* q := py_truediv (Z.abs (count - target)) target in
  Ok (SFleb q tol).

(** The [for _ in range(n)] loop of the binary search; [vmid] is the
    loop's variable, unbound before the first iteration. *)
Fixpoint bisect (n : nat) (points : list point) (target : Z) (tol : F64.t)
    (vmin vmax : F32.t) (vmid : option F32.t) : result F32.t :=
  match n with
  | O => of_option UnboundLocalError vmid
  | S n' =>
      let vmid := F32.div (F32.add vmin vmax) (F32.of_Z 2) in
      let count := occupied_voxels points vmid in
      let* close := within_tol count target tol in
      if close then Ok vmid
      else if count >? target
           then bisect n' points target tol vmid vmax (Some vmid)
           else bisect n' points target tol vmin vmid (Some vmid)
  end.

(** Python's [target ** (1/3)] is [0.0] at [0] and a complex number for a
    negative [target]; with a complex voxel size the first [np.floor] of
    the loop raises [TypeError].  The scalars [vmin], [vmax] and [vmid]
    are [float32] like [bbox_diag] (the Python floats they meet are weak
    operands). *)
Definition find_voxel_size_for_target (points : list point) (target : Z)
    (tol : F64.t) : result F32.t :=
  let* bbox_diag := bbox_diag points in
  if target <? 0 then Raise TypeError
  else
    let root := if target =? 0 then S754_zero false else pow_third target in
    let vmin := F32.div bbox_diag (F32.of_f64 (F64.mul root (F64.of_Z 10))) in
    let vmax := F32.div bbox_diag (F32.of_Z 2) in
    bisect 50 points target tol vmin vmax None.

(** [int(target_size_bytes / 14)] when only a byte size is given. *)
Definition resolve_target (target_count target_size_bytes : option Z) : option Z :=
  match target_count, target_size_bytes with
  | Some t, _ => Some t
  | None, Some sz =>
      if sz =? 0 then None
      else Some (py_int (F64.div (raw_of_Z sz) (raw_of_Z 14)))
  | None, None => None
  end.

Definition downsample_to_target
    (points : list point) (colors : list color)
    (target_count target_size_bytes : option Z)
  : result (list point * list color) :=
  match resolve_target target_count target_size_bytes with
  | None => Raise InvalidTarget
  | Some target_count =>
      if target_count >=? Z.of_nat (length points) then Ok (points, colors)
      else
        let* voxel_size := find_voxel_size_for_target points target_count default_tol in
        let* (pts, cols, _) := downsample_voxel_grid_nearest points colors voxel_size in
        Ok (pts, cols)
  end.

End Downsampler.

(** ** reader.py *)

(** The vertex element of a parsed PLY file: the names of its properties
    and one row of values per vertex. *)
Record ply_element : Type := {
  properties : list string;
  data : list (list F32.t)
}.

Fixpoint property_index (name : string) (props : list string) : option nat :=
  match props with
  | [] => None
  | p :: props' =>
      if String.eqb name p then Some O
      else option_map S (property_index name props')
  end.

(** [name in v] and [v[name]]. *)
Definition has_property (v : ply_element) (name : string) : bool :=
  match property_index name (properties v) with
  | Some _ => true
  | None => false
  end.

Definition column (v : ply_element) (name : string) : result (list F32.t) :=
  match property_index name (properties v) with
  | Some j => Ok (map (fun row => nth j row (S754_zero false)) (data v))
  | None => Raise KeyError
  end.

Fixpoint column_stack {A : Type} (a b c : list A) : list (A * A * A) :=
  match a, b, c with
  | x :: a', y :: b', z :: c' => (x, y, z) :: column_stack a' b' c'
  | _, _, _ => []
  end.

(** [SH_C0 = 0.28209479177387814] *)
Definition SH_C0 : F64.t := Eval vm_compute in F64.of_decimal 28209479177387814 17.

(** The Python literal [0.5] as a [float32] operand. *)
Definition f32_half : F32.t := Eval vm_compute in F32.div (F32.of_Z 1) (F32.of_Z 2).

(** [np.clip(x, lo, hi)] *)
Definition np_clip (x lo hi : F32.t) : F32.t := F32.minimum (F32.maximum x lo) hi.

(** [(0.5 + SH_C0 * f_dc) * 255] on a [float32] column. *)
Definition sh_scaled (f_dc : F32.t) : F32.t :=
  F32.mul (F32.add f32_half (F32.mul (F32.of_f64 SH_C0) f_dc)) (F32.of_Z 255).

(** One channel of the decoded colour:
    [np.clip((0.5 + SH_C0 * f_dc) * 255, 0, 255)] cast by [.astype(np.uint8)]. *)
Definition sh_channel (f_dc : F32.t) : Z :=
  astype_uint8 (np_clip (sh_scaled f_dc) (F32.of_Z 0) (F32.of_Z 255)).

Definition read_sog (v : ply_element) : result (list point * list color) :=
  let* xs := column v "x" in
  let* ys := column v "y" in
  let* zs := column v "z" in
  let points := column_stack xs ys zs in
  if has_property v "f_dc_0" then
    let* f_dc_0 := column v "f_dc_0" in
    let* f_dc_1 := column v "f_dc_1" in
    let* f_dc_2 := column v "f_dc_2" in
    Ok (points,
        column_stack (map sh_channel f_dc_0) (map sh_channel f_dc_1)
                     (map sh_channel f_dc_2))
  else Ok (points, repeat (255, 255, 255) (length points)).

(** ** exporter.py *)

(** The parts of a [pygltflib] document that the exporter fills in. *)
Record Accessor : Type := {
  acc_bufferView : Z;
  acc_componentType : Z;
  acc_count : Z;
  acc_type : string;
  acc_max : option point;
  acc_min : option point
}.

Record BufferView : Type := {
  bv_buffer : Z;
  bv_byteOffset : Z;
  bv_byteLength : Z
}.

Record Primitive : Type := {
  prim_attributes : list (string * Z);
  prim_mode : Z
}.

Record GLTF2 : Type := {
  scene : Z;
  scenes : list (list Z);
  nodes : list Z;
  meshes : list (list Primitive);
  accessors : list Accessor;
  bufferViews : list BufferView;
  buffers : list Z;
  binary_blob : list Z
}.


(** The 32 bits of a [float32]. *)
Definition f32_bits (x : F32.t) : Z :=
  match x with
  | S754_zero s => if s then 2 ^ 31 else 0
  | S754_infinity s => (if s then 2 ^ 31 else 0) + 255 * 2 ^ 23
  | S754_nan => 255 * 2 ^ 23 + 2 ^ 22
  | S754_finite s m e =>
      (if s then 2 ^ 31 else 0)
      + (if Zpos m <? 2 ^ 23 then Zpos m
         else (e + 150) * 2 ^ 23 + (Zpos m - 2 ^ 23))
  end.

(** The four bytes of a 32-bit word, least significant first. *)
Definition le_bytes4 (w : Z) : list Z :=
  [w mod 256; (w / 2 ^ 8) mod 256; (w / 2 ^ 16) mod 256; (w / 2 ^ 24) mod 256].

(** [a.tobytes()] of a [(N, 3)] array of [float32], row by row. *)
Definition row_bytes (p : point) : list Z :=
  let '(x, y, z) := p in
  le_bytes4 (f32_bits x) ++ le_bytes4 (f32_bits y) ++ le_bytes4 (f32_bits z).

Definition tobytes (a : list point) : list Z := flat_map row_bytes a.

(** [colors.astype(np.float32) / 255.0] *)
Definition colors_f (colors : list color) : list point :=
  map (map3 (fun c => F32.div (F32.of_Z c) (F32.of_Z 255))) colors.

(** The document and binary blob that [_create_glb] builds before it saves
    them. *)
Definition glb_document (points : list point) (colors : list color) : result GLTF2 :=
  let n := Z.of_nat (length points) in
  let pos_bytes := tobytes points in
  let col_bytes := tobytes (colors_f colors) in
  let* mx := reduce_axis0 (zip3 F32.maximum) points in
  let* mn := reduce_axis0 (zip3 F32.minimum) points in
  Ok {| scene := 0;
        scenes := [[0]];
        nodes := [0];
        meshes := [[ {| prim_attributes := [("POSITION"%string, 0); ("COLOR_0"%string, 1)];
                        prim_mode := 0 |} ]];
        accessors :=
          [ {| acc_bufferView := 0; acc_componentType := 5126; acc_count := n;
               acc_type := "VEC3"; acc_max := Some mx; acc_min := Some mn |};
            {| acc_bufferView := 1; acc_componentType := 5126; acc_count := n;
               acc_type := "VEC3"; acc_max := None; acc_min := None |} ];
        bufferViews :=
          [ {| bv_buffer := 0; bv_byteOffset := 0;
               bv_byteLength := Z.of_nat (length pos_bytes) |};
            {| bv_buffer := 0; bv_byteOffset := Z.of_nat (length pos_bytes);
               bv_byteLength := Z.of_nat (length col_bytes) |} ];
        buffers := [Z.of_nat (length pos_bytes) + Z.of_nat (length col_bytes)];
        binary_blob := pos_bytes ++ col_bytes |}.

(** *** The file system and the external transcoder *)

(** A file is a saved glTF document or the output of the external tool, of
    which only the size matters. *)
Inductive file : Type :=
| EmptyFile
| GlbFile (gltf : GLTF2)
| ToolOutput (st_size : Z).

Definition filesystem : Type := list (string * file).

Fixpoint lookup (path : string) (fs : filesystem) : option file :=
  match fs with
  | [] => None
  | (p, f) :: fs' => if String.eqb path p then Some f else lookup path fs'
  end.

Definition unlink (path : string) (fs : filesystem) : filesystem :=
  filter (fun pf => negb (String.eqb path (fst pf))) fs.

Definition write (path : string) (f : file) (fs : filesystem) : filesystem :=
  (path, f) :: unlink path fs.

Definition exists_file (path : string) (fs : filesystem) : bool :=
  match lookup path fs with
  | Some _ => true
  | None => false
  end.

(** A computation that may raise and that changes the file system: the
    changes made before an exception stay. *)
Definition io (A : Type) : Type := filesystem -> result A * filesystem.

Definition io_ret {A : Type} (a : A) : io A := fun fs => (Ok a, fs).

Definition io_bind {A B : Type} (m : io A) (k : A -> io B) : io B :=
  fun fs =>
    match m fs with
    | (Ok a, fs') => k a fs'
    | (Raise e, fs') => (Raise e, fs')
    end.

Definition io_lift {A : Type} (r : result A) : io A := fun fs => (r, fs).

Definition io_modify (f : filesystem -> filesystem) : io unit :=
  fun fs => (Ok tt, f fs).

Notation "'do' x '<-' m ';' k" := (io_bind m (fun x => k))
  (at level 10, x name, m at level 100, k at level 200).
Notation "'do_' m ';' k" := (io_bind m (fun _ => k))
  (at level 10, m at level 100, k at level 200).

(** What running [draco_transcoder] does: [None] when the executable is not
    found, otherwise its exit status and the file it leaves at the output
    path, if any. *)
Definition transcoder : Type := option (Z * option file).

Section Exporter.

(** The name that [tempfile.NamedTemporaryFile] picks, the behaviour of
    the external transcoder and the size of a saved document. *)
Variable tmp_name : string.
Variable draco_transcoder : transcoder.
Variable glb_size : GLTF2 -> Z.

Definition _create_glb (points : list point) (colors : list color) (path : string)
  : io unit :=
  do gltf <- io_lift (glb_document points colors);
  io_modify (write path (GlbFile gltf)).

(** [subprocess.run([...], check=True)] *)
Definition subprocess_run_check (output : string) : io unit :=
  match draco_transcoder with
  | None => io_lift (Raise FileNotFoundError)
  | Some (returncode, out) =>
      do_ io_modify (fun fs => match out with
                               | Some f => write output f fs
                               | None => fs
                               end);
      if returncode =? 0 then io_ret tt
      else io_lift (Raise (CalledProcessError returncode))
  end.

(** [Path(output).stat().st_size] *)
Definition stat_st_size (path : string) : io Z :=
  fun fs =>
    match lookup path fs with
    | Some EmptyFile => (Ok 0, fs)
    | Some (GlbFile g) => (Ok (glb_size g), fs)
    | Some (ToolOutput n) => (Ok n, fs)
    | None => (Raise FileNotFoundError, fs)
    end.

Definition export_glb_with_draco (points : list point) (colors : list color)
    (output : string) : io Z :=
  do tmp_path <- (fun fs => (Ok tmp_name, write tmp_name EmptyFile fs));
  do_ _create_glb points colors tmp_path;
  do_ subprocess_run_check output;
  do_ io_modify (unlink tmp_path);
  stat_st_size output.

End Exporter.

(** ** NumPy's default [argsort] *)

(** [np.argsort(keys)] for [int64] keys with the default [kind='quicksort']:
    NumPy's generic introsort over the index array [tosort] (median-of-three
    quicksort, insertion sort on ranges of at most 17 entries, heap sort when
    the depth budget is used up).  Positions [pl], [pr], [pi], [pj] are
    offsets into [tosort].  Equal keys keep their order only on the
    insertion-sort path; builds of NumPy that dispatch this call to a
    vectorised sort order equal keys in yet another way. *)
Module NpySort.
Section Keys.
Variable v : list Z.

Definition key (i : nat) : Z := nth i v 0.
Definition get (a : list nat) (p : nat) : nat := nth p a O.

Fixpoint set (a : list nat) (p x : nat) : list nat :=
  match a, p with
  | [], _ => []
  | _ :: t, O => x :: t
  | h :: t, S p' => h :: set t p' x
  end.

Definition swap (a : list nat) (p q : nat) : list nat :=
  set (set a p (get a q)) q (get a p).

Definition less (a : list nat) (p q : nat) : bool :=
  key (get a p) <? key (get a q).

Definition swap_if_less (a : list nat) (p q : nat) : list nat :=
  if less a p q then swap a p q else a.

(** [while (pj > pl && vp < v[*pk]) *pj-- = *pk--;  *pj = vi;] *)
Fixpoint insert_at (a : list nat) (pl pj vi : nat) {struct pj} : list nat :=
  match pj with
  | O => set a O vi
  | S pk =>
      if (pl <? pj)%nat && (key vi <? key (get a pk))
      then insert_at (set a pj (get a pk)) pl pk vi
      else set a pj vi
  end.

Definition insertion_sort (a : list nat) (pl pr : nat) : list nat :=
  fold_left (fun a pi => insert_at a pl pi (get a pi)) (seq (S pl) (pr - pl)) a.

(** [do ++pi; while (v[*pi] < vp);] *)
Fixpoint scan_up (fuel : nat) (a : list nat) (vp : Z) (pi : nat) : nat :=
  match fuel with
  | O => pi
  | S fuel' =>
      let pi := S pi in
      if key (get a pi) <? vp then scan_up fuel' a vp pi else pi
  end.

(** [do --pj; while (vp < v[*pj]);] *)
Fixpoint scan_down (fuel : nat) (a : list nat) (vp : Z) (pj : nat) : nat :=
  match fuel with
  | O => pj
  | S fuel' =>
      let pj := pred pj in
      if vp <? key (get a pj) then scan_down fuel' a vp pj else pj
  end.

Fixpoint partition_loop (fuel : nat) (a : list nat) (vp : Z) (pi pj : nat)
  : list nat * nat :=
  match fuel with
  | O => (a, pi)
  | S fuel' =>
      let pi := scan_up (length a) a vp pi in
      let pj := scan_down (length a) a vp pj in
      if (pj <=? pi)%nat then (a, pi)
      else partition_loop fuel' (swap a pi pj) vp pi pj
  end.

Definition partition (a : list nat) (pl pr : nat) : list nat * nat :=
  let pm := (pl + Nat.div2 (pr - pl))%nat in
  let a := swap_if_less a pm pl in
  let a := swap_if_less a pr pm in
  let a := swap_if_less a pm pl in
  let vp := key (get a pm) in
  let a := swap a pm (pr - 1) in
  let '(a, pi) := partition_loop (length a) a vp pl (pr - 1) in
  (swap a pi (pr - 1), pi).

(** The sift-down of the heap sort; the heap is 1-based at [pl]. *)
Definition hget (a : list nat) (pl k : nat) : nat := get a (pl + k - 1).
Definition hset (a : list nat) (pl k x : nat) : list nat := set a (pl + k - 1) x.

Fixpoint sift (fuel : nat) (a : list nat) (pl n tmp i j : nat) : list nat :=
  match fuel with
  | O => hset a pl i tmp
  | S fuel' =>
      if (j <=? n)%nat then
        let j := if (j <? n)%nat && (key (hget a pl j) <? key (hget a pl (S j)))
                 then S j else j in
        if key tmp <? key (hget a pl j)
        then sift fuel' (hset a pl i (hget a pl j)) pl n tmp j (j + j)
        else hset a pl i tmp
      else hset a pl i tmp
  end.

Definition aheapsort (a : list nat) (pl n : nat) : list nat :=
  let a := fold_left (fun a l => sift n a pl n (hget a pl l) l (l + l))
                     (rev (seq 1 (Nat.div2 n))) a in
  fold_left (fun a m =>
               let tmp := hget a pl m in
               let a := hset a pl m (hget a pl 1) in
               sift n a pl (m - 1) tmp 1 2)
            (rev (seq 2 (n - 1))) a.

(** The main loop.  [top] is true at the head of the outer [while (1)],
    where the depth budget is tested, and false inside the partitioning
    [while], where it is not. *)
Fixpoint aquicksort_loop (fuel : nat) (top : bool) (a : list nat)
    (pl pr : nat) (cdepth : Z) (stack : list (nat * nat * Z)) : list nat :=
  match fuel with
  | O => a
  | S fuel' =>
      let pop a :=
        match stack with
        | [] => a
        | (l, r, d) :: stack' => aquicksort_loop fuel' true a l r d stack'
        end in
      if top && (cdepth <? 0) then pop (aheapsort a pl (pr - pl + 1))
      else if (16 <? pr - pl)%nat then
        let '(a, pi) := partition a pl pr in
        let cdepth := cdepth - 1 in
        if (pi - pl <? pr - pi)%nat
        then aquicksort_loop fuel' false a pl (pi - 1) cdepth
                             ((S pi, pr, cdepth) :: stack)
        else aquicksort_loop fuel' false a (S pi) pr cdepth
                             ((pl, (pi - 1)%nat, cdepth) :: stack)
      else pop (insertion_sort a pl pr)
  end.
End Keys.

Definition argsort (v : list Z) : list nat :=
  let n := length v in
  match n with
  | O => []
  | S n' =>
      aquicksort_loop v (2 * n + 2) true (seq 0 n) 0 n'
                      (2 * Z.log2 (Z.of_nat n)) []
  end.
End NpySort.

(** ** The C library's [pow(target, 1/3)] *)

(** The integer cube root, bit by bit from bit [b] down. *)
Fixpoint icbrt_bits (b : nat) (n r : Z) : Z :=
  let r' := r + 2 ^ Z.of_nat b in
  let r := if r' * r' * r' <=? n then r' else r in
  match b with
  | O => r
  | S b' => icbrt_bits b' n r
  end.

(** The binary64 cube root of a positive integer, from its first 60
    fractional bits: within one unit in the last place of what [pow]
    returns for the exponent [1/3]. *)
Definition cbrt_f64 (target : Z) : F64.t :=
  let n := target * 2 ^ 180 in
  binary_normalize F64.prec F64.emax (icbrt_bits (Z.to_nat (Z.log2 n / 3 + 1)) n 0) (-60) false.


(** ** The contract of [np.argsort] *)

Definition key_at (keys : list Z) (i : nat) : Z := nth i keys 0.

Fixpoint sortedb (l : list Z) : bool :=
  match l with
  | [] => true
  | x :: l' =>
      match l' with
      | [] => true
      | y :: _ => (x <=? y) && sortedb l'
      end
  end.

(** [s] is what [np.argsort(keys)] may return: a permutation of
    [0 .. len(keys) - 1] along which the keys do not decrease.  Nothing is
    said about the order of equal keys. *)
Definition argsort_okb (keys : list Z) (s : list nat) : bool :=
  (length s =? length keys)%nat
  && forallb (fun i => existsb (Nat.eqb i) s) (seq 0 (length keys))
  && sortedb (map (key_at keys) s).

(** ** Concrete points *)

Definition f32 (z : Z) : F32.t := F32.of_Z z.

(** The [float32] value of the ratio [a / b]. *)
Definition f32_ratio (a b : Z) : F32.t := F32.div (F32.of_Z a) (F32.of_Z b).

Definition pt (x y z : Z) : point := (f32 x, f32 y, f32 z).

(** ** Output rows and input rows *)

(** Every output row, position and colour together, is the row of one input
    point. *)
Definition rows_from_input (points : list point) (colors : list color)
    (pts : list point) (cols : list color) : Prop :=
  forall k p c,
    nth_error pts k = Some p -> nth_error cols k = Some c ->
    exists i, nth_error points i = Some p /\ nth_error colors i = Some c.

(** ** The nearest member of a group *)

(** [b] is the position [np.argmin] owes for the distances [d]: no entry is
    smaller than the one at [b], and none before [b] is as small. *)
Definition first_minimum (d : list F32.t) (b : nat) : Prop :=
  exists db,
    nth_error d b = Some db
    /\ forall q dq,
        nth_error d q = Some dq ->
        SFltb dq db = false /\ ((q < b)%nat -> SFleb dq db = false).

(** How many of the keys [l] are below [k], and how many are at most [k]:
    on sorted keys, where the group of [k] starts and stops. *)
Definition count_lt (k : Z) (l : list Z) : nat := length (filter (fun x => x <? k) l).
Definition count_le (k : Z) (l : list Z) : nat := length (filter (fun x => x <=? k) l).

(** The members of the voxel with key [k], in the order in which
    [sorted_indices] lists them. *)
Definition members (keys : list Z) (sorted_indices : list nat) (k : Z) : list nat :=
  filter (fun i => key_at keys i =? k) sorted_indices.

(** [r] is the member of the group [g] that the loop body selects: the one
    at the first minimum of the distances to the group's centroid. *)
Definition nearest_in_group (points : list point) (g : list nat) (r : nat) : Prop :=
  exists group_points b,
    take points g = Ok group_points
    /\ nth_error g b = Some r
    /\ first_minimum (centroid_distances group_points) b.

(** ** The trace of the binary search *)


Definition midpoint (b : F32.t * F32.t) : F32.t :=
  F32.div (F32.add (fst b) (snd b)) (F32.of_Z 2).






(** ** The layout of the exported document *)

Definition coord_x (p : point) : F32.t := fst (fst p).
Definition coord_y (p : point) : F32.t := snd (fst p).
Definition coord_z (p : point) : F32.t := snd p.







(** ** The colour decode in the words of the specification *)





(** ** Example point sets *)

(** Four points on two lines of the plane [z = 0]; the bounding box is
    3 by 4, its diagonal 5. *)
Definition four_points : list point :=
  [(f32_ratio 3 2, f32 0, f32 0); (f32_ratio 11 4, f32 0, f32 0);
   pt 0 (-4) 0; pt 3 (-4) 0].

Definition four_colors : list color :=
  [(10, 20, 30); (40, 50, 60); (70, 80, 90); (100, 110, 120)].



(** Three points in three different cells of the unit grid, whose shifted
    indices span [2^32] cells along [y] and along [z]. *)
Definition wide_points : list point :=
  [pt 0 (-255) (-255); pt 1 (-255) (-255); pt 0 4294967040 4294967040].

Definition wide_colors : list color := [(1, 1, 1); (2, 2, 2); (3, 3, 3)].


(** The value of a result that did not raise. *)
Definition value_of {A : Type} (default : A) (r : result A) : A :=
  match r with
  | Ok a => a
  | Raise _ => default
  end.

(** What the downsampler returns on [four_points]: at the voxel size 2, and
    for the target count 2. *)
Definition four_points_at_2 : list point * list color * list nat :=
  Eval vm_compute in
    value_of ([], [], [])
      (downsample_voxel_grid_nearest NpySort.argsort four_points four_colors (f32 2)).

Definition four_points_to_2 : list point * list color :=
  Eval vm_compute in
    value_of ([], [])
      (downsample_to_target NpySort.argsort cbrt_f64 four_points four_colors
                            (Some 2) None).



(** ** The size of the grid *)

(** The number of cells between the least and the greatest index along one
    axis, and the number of cells of the box that the cells span. *)
Definition axis_extent (xs : list Z) : Z :=
  match xs with
  | [] => 0
  | x :: xs' => fold_left Z.max xs' x - fold_left Z.min xs' x + 1
  end.

Definition grid_volume (cells : list cell) : Z :=
  axis_extent (map (fun c => fst (fst c)) cells)
  * axis_extent (map (fun c => snd (fst c)) cells)
  * axis_extent (map (fun c => snd c) cells).


(** ** The binary blob read back *)

(** Whether the three coordinates of a point are [float32] values. *)
Definition valid_point (p : point) : bool :=
  F32.valid (coord_x p) && F32.valid (coord_y p) && F32.valid (coord_z p).

(** The [float32] that has the given 32 bits: sign, eight bits of biased
    exponent, 23 bits of fraction. *)
Definition f32_of_bits (w : Z) : F32.t :=
  let s := 2 ^ 31 <=? w in
  let e := (w / 2 ^ 23) mod 256 in
  let f := w mod 2 ^ 23 in
  if e =? 0 then
    match f with
    | Zpos m => S754_finite s m (-149)
    | _ => S754_zero s
    end
  else if e =? 255 then
    if f =? 0 then S754_infinity s else S754_nan
  else
    match f + 2 ^ 23 with
    | Zpos m => S754_finite s m (e - 150)
    | _ => S754_nan
    end.

(** The 32-bit word of four bytes, least significant first. *)
Definition le_word4 (b0 b1 b2 b3 : Z) : Z :=
  b0 + 2 ^ 8 * b1 + 2 ^ 16 * b2 + 2 ^ 24 * b3.

(** [np.frombuffer(bytes, np.float32).reshape(-1, 3)] *)
Fixpoint frombuffer (bytes : list Z) : list point :=
  match bytes with
  | a0 :: a1 :: a2 :: a3 :: b0 :: b1 :: b2 :: b3 :: c0 :: c1 :: c2 :: c3 :: rest =>
      (f32_of_bits (le_word4 a0 a1 a2 a3), f32_of_bits (le_word4 b0 b1 b2 b3),
       f32_of_bits (le_word4 c0 c1 c2 c3)) :: frombuffer rest
  | _ => []
  end.

(** Whether the three channels of a colour are [uint8] values. *)
Definition is_uint8 (c : Z) : bool := (0 <=? c) && (c <=? 255).

Definition valid_color (c : color) : bool :=
  let '(r, g, b) := c in is_uint8 r && is_uint8 g && is_uint8 b.

(** One channel as the exporter writes it. *)
Definition normalized (c : Z) : F32.t := F32.div (F32.of_Z c) (F32.of_Z 255).

(** ** reader.py: the PLY reader *)

(** [read_ply] on the vertex element of the parsed file.  A property of an
    integer type holds its values as the floats of the same value, so that
    [.astype(np.uint8)] is the cast of a float in every case. *)
Definition read_ply (v : ply_element) : result (list point * list color) :=
  let* xs := column v "x" in
  let* ys := column v "y" in
  let* zs := column v "z" in
  let points := column_stack xs ys zs in
  if has_property v "red" then
    let* red := column v "red" in
    let* green := column v "green" in
    let* blue := column v "blue" in
    Ok (points,
        column_stack (map astype_uint8 red) (map astype_uint8 green)
                     (map astype_uint8 blue))
  else Ok (points, repeat (255, 255, 255) (length points)).

(** Whether a reader that looks for the colour properties [c0], [c1] and
    [c2] finds every column it asks for. *)
Definition readable (v : ply_element) (c0 c1 c2 : string) : bool :=
  has_property v "x" && has_property v "y" && has_property v "z"
  && (negb (has_property v c0) || (has_property v c1 && has_property v c2)).

(** The vertex element of a PLY file with positions and 8-bit colours. *)
Definition colored_vertex (points : list point) (colors : list color) : ply_element :=
  {| properties := ["x"; "y"; "z"; "red"; "green"; "blue"]%string;
     data := map (fun pc : point * color =>
                    let '((x, y, z), (r, g, b)) := pc in
                    [x; y; z; F32.of_Z r; F32.of_Z g; F32.of_Z b])
                 (combine points colors) |}.

(** A [float32] in [[0, 1)]. *)
Definition unit_fraction (x : F32.t) : bool :=
  F32.valid x && SFleb (S754_zero false) x && SFltb x (F32.of_Z 1).

(** ** Strings *)

(** Python strings, restricted to ASCII characters. *)

(** [str.lower] *)
Definition lower_ascii (c : ascii) : ascii :=
  let n := N_of_ascii c in
  if ((65 <=? n) && (n <=? 90))%N then ascii_of_N (n + 32) else c.

Fixpoint lower (s : string) : string :=
  match s with
  | EmptyString => EmptyString
  | String c s' => String (lower_ascii c) (lower s')
  end.

(** [s.endswith(suf)] and [s[:-k]] for a positive [k]. *)
Definition endswith (s suf : string) : bool :=
  (String.length suf <=? String.length s)%nat
  && String.eqb (substring (String.length s - String.length suf)
                           (String.length suf) s) suf.

Definition drop_last (k : nat) (s : string) : string :=
  substring 0 (String.length s - k) s.

(** [s.split('/')] *)
Fixpoint split_slash (s : string) : list string :=
  match s with
  | EmptyString => [EmptyString]
  | String c s' =>
      if Ascii.eqb c "/" then EmptyString :: split_slash s'
      else match split_slash s' with
           | [] => [String c EmptyString]
           | x :: xs => String c x :: xs
           end
  end.

(** [Path(filepath).name] on a POSIX system: the last component of the
    path that is neither empty nor a single dot, the empty string when
    there is none. *)
Definition path_name (filepath : string) : string :=
  last (filter (fun x => negb (String.eqb x "") && negb (String.eqb x "."))
               (split_slash filepath))
       EmptyString.

(** [name.rfind('.')] *)
Fixpoint rfind_dot (s : string) : option nat :=
  match s with
  | EmptyString => None
  | String c s' =>
      match rfind_dot s' with
      | Some i => Some (S i)
      | None => if Ascii.eqb c "." then Some O else None
      end
  end.

(** [Path(filepath).suffix]: the name from its last dot on, when that dot
    is neither the first nor the last character of the name. *)
Definition suffix (filepath : string) : string :=
  let name := path_name filepath in
  match rfind_dot name with
  | Some i =>
      if (0 <? i)%nat && (i <? String.length name - 1)%nat
      then substring i (String.length name - i) name
      else EmptyString
  | None => EmptyString
  end.

(** ** The exceptions of the command line *)

(** What [read_point_cloud] and [cli.py] can raise: the exceptions of the
    modules they call; the [ValueError] for an unsupported extension;
    [click.UsageError]; and the [ValueError] and [OverflowError] of
    [float()] and [int()]. *)
Inductive cli_exn : Type :=
| Module_exn (e : exn)
| UnsupportedFormat (ext : string)
| UsageError
| ValueError
| OverflowError.

Inductive outcome (A : Type) : Type :=
| Return (a : A)
| Throw (e : cli_exn).

Arguments Return {A} a.
Arguments Throw {A} e.

Definition obind {A B : Type} (r : outcome A) (k : A -> outcome B) : outcome B :=
  match r with
  | Return a => k a
  | Throw e => Throw e
  end.

Notation "'let+' x ':=' r 'in' k" := (obind r (fun x => k))
  (at level 10, x pattern, r at level 100, k at level 200).

Definition of_result {A : Type} (r : result A) : outcome A :=
  match r with
  | Ok a => Return a
  | Raise e => Throw (Module_exn e)
  end.

(** ** reader.py: the dispatch on the extension *)

(** The parsed contents of a PLY file: its elements by name. *)
Definition PlyData : Type := list (string * ply_element).

Fixpoint element (name : string) (ply : PlyData) : result ply_element :=
  match ply with
  | [] => Raise KeyError
  | (n, e) :: ply' => if String.eqb name n then Ok e else element name ply'
  end.

Section ReadPointCloud.

(** [PlyData.read]: what parsing the file at a path gives. *)
Variable PlyData_read : string -> result PlyData.

(** The first two lines of [read_ply] and [read_sog]. *)
Definition read_vertex (filepath : string) : result ply_element :=
  let* ply := PlyData_read filepath in
  element "vertex" ply.

Definition read_point_cloud (filepath : string)
  : outcome (list point * list color) :=
  let ext := lower (suffix filepath) in
  if String.eqb ext ".ply" then
    of_result (let* v := read_vertex filepath in read_ply v)
  else if String.eqb ext ".sog" then
    of_result (let* v := read_vertex filepath in read_sog v)
  else Throw (UnsupportedFormat ext).

End ReadPointCloud.

(** ** Numbers from strings *)

Definition is_digit (c : ascii) : bool :=
  let n := N_of_ascii c in ((48 <=? n) && (n <=? 57))%N.

Definition digit_value (c : ascii) : Z := Z.of_N (N_of_ascii c) - 48.

(** The whitespace that [float()] and [int()] strip from an ASCII string:
    the space and the characters 9 to 13. *)
Definition is_space (c : ascii) : bool :=
  let n := N_of_ascii c in ((9 <=? n) && (n <=? 13) || (n =? 32))%N.

Fixpoint lstrip (l : list ascii) : list ascii :=
  match l with
  | c :: l' => if is_space c then lstrip l' else l
  | [] => []
  end.

Definition strip (l : list ascii) : list ascii := rev (lstrip (rev (lstrip l))).

(** The value of a string of decimal digits. *)
Definition decimal (ds : list ascii) : Z :=
  fold_left (fun a c => 10 * a + digit_value c) ds 0.

(** The longest prefix of digits, and the rest. *)
Fixpoint span_digits (l : list ascii) : list ascii * list ascii :=
  match l with
  | c :: l' =>
      if is_digit c then let '(ds, r) := span_digits l' in (c :: ds, r)
      else ([], l)
  | [] => ([], [])
  end.

Definition split_sign (l : list ascii) : bool * list ascii :=
  match l with
  | "+"%char :: l' => (false, l')
  | "-"%char :: l' => (true, l')
  | _ => (false, l)
  end.

(** *** [int(s)] *)

(** [sys.int_max_str_digits], by default. *)
Definition int_max_str_digits : nat := 4300.

(** The digits of an integer literal, which single underscores may
    separate, and what follows them; [None] for a doubled or a trailing
    underscore. *)
Fixpoint scan_int (after_underscore : bool) (l : list ascii)
  : option (list ascii * list ascii) :=
  match l with
  | c :: l' =>
      if is_digit c then
        match scan_int false l' with
        | Some (ds, r) => Some (c :: ds, r)
        | None => None
        end
      else if Ascii.eqb c "_" then
        if after_underscore then None else scan_int true l'
      else if after_underscore then None else Some ([], l)
  | [] => if after_underscore then None else Some ([], [])
  end.

Definition int_of_string (s : string) : outcome Z :=
  let '(neg, l) := split_sign (lstrip (list_ascii_of_string s)) in
  let leading_underscore := match l with
                            | c :: _ => Ascii.eqb c "_"
                            | [] => false
                            end in
  if leading_underscore then Throw ValueError
  else
    match scan_int false l with
    | Some (ds, rest) =>
        match ds, lstrip rest with
        | _ :: _, [] =>
            if (int_max_str_digits <? length ds)%nat then Throw ValueError
            else Return (if neg then - decimal ds else decimal ds)
        | _, _ => Throw ValueError
        end
    | None => Throw ValueError
    end.

(** *** [float(s)] *)

(** An underscore is allowed between two digits only; the literal is
    parsed without its underscores. *)
Fixpoint remove_underscores (prev : ascii) (l : list ascii) : option (list ascii) :=
  match l with
  | c :: l' =>
      if Ascii.eqb c "_" then
        if is_digit prev then remove_underscores c l' else None
      else if Ascii.eqb prev "_" && negb (is_digit c) then None
      else option_map (cons c) (remove_underscores c l')
  | [] => if Ascii.eqb prev "_" then None else Some []
  end.

(** The [float] nearest to [d * 10^e], ties to even, for [0 <= d]. *)
Definition f64_of_decimal (d e : Z) : F64.t :=
  if d =? 0 then S754_zero false
  else if 0 <=? e then F64.of_Z (d * 10 ^ e)
  else F64.div (raw_of_Z d) (raw_of_Z (10 ^ (- e))).

(** The literal after its sign: [inf], [infinity], [nan], or digits with
    an optional point and an optional exponent, and nothing after it. *)
Definition parse_float_abs (l : list ascii) : option F64.t :=
  let low := lower (string_of_list_ascii l) in
  if String.eqb low "inf" || String.eqb low "infinity" then Some (S754_infinity false)
  else if String.eqb low "nan" then Some S754_nan
  else
    let '(ip, r1) := span_digits l in
    let '(fp, r2) := match r1 with
                     | "."%char :: r => span_digits r
                     | _ => ([], r1)
                     end in
    match ip ++ fp with
    | [] => None
    | _ :: _ =>
        let d := decimal (ip ++ fp) in
        let shift := Z.of_nat (length fp) in
        match r2 with
        | [] => Some (f64_of_decimal d (- shift))
        | c :: r3 =>
            if Ascii.eqb (lower_ascii c) "e" then
              let '(eneg, r4) := split_sign r3 in
              match span_digits r4 with
              | ((_ :: _) as ed, []) =>
                  let e := if eneg then - decimal ed else decimal ed in
                  Some (f64_of_decimal d (e - shift))
              | _ => None
              end
            else None
        end
    end.

Definition float_of_string (s : string) : outcome F64.t :=
  match strip (list_ascii_of_string s) with
  | [] => Throw ValueError
  | l =>
      match remove_underscores "000"%char l with
      | Some l' =>
          let '(neg, l'') := split_sign l' in
          match parse_float_abs l'' with
          | Some x => Return (if neg then SFopp x else x)
          | None => Throw ValueError
          end
      | None => Throw ValueError
      end
  end.

(** [int(x)] of a float. *)
Definition int_of_float (x : F64.t) : outcome Z :=
  match x with
  | S754_nan => Throw ValueError
  | S754_infinity _ => Throw OverflowError
  | _ => Return (py_int x)
  end.

(** ** cli.py *)

(** The unit suffixes in the order in which the dictionary lists them. *)
Definition units : list (string * Z) :=
  [("kb", 1024); ("mb", 1024 ^ 2); ("gb", 1024 ^ 3); ("b", 1)]%string.

Fixpoint parse_size_from (s : string) (us : list (string * Z)) : outcome Z :=
  match us with
  | [] => int_of_string s
  | (suf, m) :: us' =>
      if endswith s suf then
        let+ x := float_of_string (drop_last (String.length suf) s) in
        int_of_float (F64.mul x (F64.of_Z m))
      else parse_size_from s us'
  end.

Definition parse_size (s : string) : outcome Z := parse_size_from (lower s) units.

(** [f"{n:,}"]: the decimal digits of [n] in groups of three, a minus sign
    before them when [n] is negative. *)
Fixpoint group3 (k : nat) (reversed_digits : list ascii) : list ascii :=
  match reversed_digits with
  | [] => []
  | c :: l =>
      match k with
      | O => ","%char :: c :: group3 2 l
      | S k' => c :: group3 k' l
      end
  end.

Definition grouped (n : Z) : string :=
  let digits :=
    list_ascii_of_string (NilZero.string_of_uint (N.to_uint (Z.to_N (Z.abs n)))) in
  let body := string_of_list_ascii (rev (group3 3 (rev digits))) in
  if n <? 0 then String "-" body else body.

(** The state that the command changes: the files, and the lines printed
    by [click.echo]. *)
Record world : Type := {
  files : filesystem;
  stdout : list string
}.

Definition cli (A : Type) : Type := world -> outcome A * world.

Definition cli_ret {A : Type} (a : A) : cli A := fun w => (Return a, w).

Definition cli_bind {A B : Type} (m : cli A) (k : A -> cli B) : cli B :=
  fun w =>
    match m w with
    | (Return a, w') => k a w'
    | (Throw e, w') => (Throw e, w')
    end.

Definition cli_lift {A : Type} (r : outcome A) : cli A := fun w => (r, w).

Definition cli_io {A : Type} (m : io A) : cli A :=
  fun w =>
    let '(r, fs) := m (files w) in
    (of_result r, {| files := fs; stdout := stdout w |}).

Definition echo (line : string) : cli unit :=
  fun w => (Return tt, {| files := files w; stdout := stdout w ++ [line] |}).

Notation "'run' x '<-' m ';' k" := (cli_bind m (fun x => k))
  (at level 10, x pattern, m at level 100, k at level 200).
Notation "'run_' m ';' k" := (cli_bind m (fun _ => k))
  (at level 10, m at level 100, k at level 200).

(** The truth value of an optional integer and of an optional string. *)
Definition given_points (points : option Z) : bool :=
  match points with
  | Some p => negb (p =? 0)
  | None => false
  end.

Definition given_size (size : option string) : bool :=
  match size with
  | Some s => negb (String.eqb s "")
  | None => false
  end.

Section Cli.

Variable PlyData_read : string -> result PlyData.
Variable argsort : list Z -> list nat.
Variable pow_third : Z -> F64.t.
Variable tmp_name : string.
Variable draco_transcoder : transcoder.
Variable glb_size : GLTF2 -> Z.

(** [parse_size(size) if size else None] *)
Definition size_argument (size : option string) : outcome (option Z) :=
  match size with
  | Some s =>
      if String.eqb s "" then Return None
      else let+ n := parse_size s in Return (Some n)
  | None => Return None
  end.

(** The body of [main]; that [input_file] exists is checked by [click]
    before it runs. *)
Definition main (input_file output : string) (points : option Z)
    (size : option string) (verbose : bool) : cli unit :=
  if negb (given_points points) && negb (given_size size)
  then cli_lift (Throw UsageError)
  else
    run (pts, cols) <- cli_lift (read_point_cloud PlyData_read input_file);
    run_ (if verbose
          then echo ("Исходных: " ++ grouped (Z.of_nat (length pts)))
          else cli_ret tt);
    run target_size_bytes <- cli_lift (size_argument size);
    run (pts, cols) <-
      cli_lift (of_result (downsample_to_target argsort pow_third pts cols
                                                points target_size_bytes));
    run_ (if verbose
          then echo ("После: " ++ grouped (Z.of_nat (length pts)))
          else cli_ret tt);
    run sz <- cli_io (export_glb_with_draco tmp_name draco_transcoder glb_size
                                            pts cols output);
    echo (output ++ ": " ++ grouped (Z.of_nat (length pts)) ++ " точек, "
                 ++ grouped sz ++ " байт").

End Cli.

(** ** Digit strings and plain file names *)

(** A string of decimal digits and its value. *)
Definition all_digits (s : string) : bool := forallb is_digit (list_ascii_of_string s).

Definition number (s : string) : Z := decimal (list_ascii_of_string s).

(** Whether the character [c] occurs in [s]. *)
Definition contains (c : ascii) (s : string) : bool :=
  existsb (Ascii.eqb c) (list_ascii_of_string s).

(** ** Example files *)

(** A vertex element without colours, and one whose colours are floats. *)
Definition plain_vertex : ply_element :=
  {| properties := ["x"; "y"; "z"]%string;
     data := [[f32 1; f32 2; f32 3]; [f32 4; f32 5; f32 6]] |}.

Definition float_color_vertex : ply_element :=
  {| properties := ["x"; "y"; "z"; "red"; "green"; "blue"]%string;
     data := [[f32 1; f32 2; f32 3; f32_ratio 1 2; f32_ratio 1 4; f32 0];
              [f32 4; f32 5; f32 6; f32_ratio 3 4; f32_ratio 1 8; f32_ratio 1 2]] |}.

(** A directory with one PLY file, [scans/room.PLY], that holds
    [four_points] with [four_colors]. *)
Definition example_files (filepath : string) : result PlyData :=
  if String.eqb filepath "scans/room.PLY"
  then Ok [("vertex"%string, colored_vertex four_points four_colors)]
  else Raise FileNotFoundError.

Definition empty_world : world := {| files := []; stdout := [] |}.
(** * Properties *)

(** ** The error monad *)

Lemma bind_Ok {A B : Type} (r : result A) (k : A -> result B) (b : B) :
  bind r k = Ok b -> exists a, r = Ok a /\ k a = Ok b.
Proof. destruct r as [a|e]; simpl; [eauto | discriminate]. Qed.

Lemma bind_Raise {A B : Type} (r : result A) (k : A -> result B) (e : exn) :
  bind r k = Raise e -> r = Raise e \/ exists a, r = Ok a /\ k a = Raise e.
Proof. destruct r as [a|e']; simpl; [eauto | intros [= ->]; auto]. Qed.

(** Splits a hypothesis [bind r k = Ok b] into its two steps. *)
Ltac inv_bind H :=
  let a := fresh "a" in
  let Ha := fresh "Hstep" in
  apply bind_Ok in H; destruct H as (a & Ha & H).

(** [r] raises nothing but exceptions satisfying [P]. *)
Definition raises_only {A : Type} (P : exn -> Prop) (r : result A) : Prop :=
  forall e, r = Raise e -> P e.

Lemma raises_only_Ok {A : Type} (P : exn -> Prop) (a : A) : raises_only P (Ok a).
Proof. intros e; discriminate. Qed.

Lemma raises_only_Raise {A : Type} (P : exn -> Prop) (e : exn) :
  P e -> raises_only P (@Raise A e).
Proof. intros HP e' [= <-]; exact HP. Qed.

Lemma raises_only_bind {A B : Type} (P : exn -> Prop) (r : result A)
    (k : A -> result B) :
  raises_only P r -> (forall a, raises_only P (k a)) -> raises_only P (bind r k).
Proof.
  intros Hr Hk e He. apply bind_Raise in He as [He | (a & _ & He)].
  - now apply Hr.
  - now apply (Hk a).
Qed.

Lemma raises_only_of_option {A : Type} (P : exn -> Prop) (e : exn) (o : option A) :
  P e -> raises_only P (of_option e o).
Proof.
  destruct o; simpl; [intros _; apply raises_only_Ok | apply raises_only_Raise].
Qed.

Lemma raises_only_mapM {A B : Type} (P : exn -> Prop) (f : A -> result B)
    (l : list A) :
  (forall a, raises_only P (f a)) -> raises_only P (mapM f l).
Proof.
  intros Hf. induction l as [|a l IH]; simpl.
  - apply raises_only_Ok.
  - apply raises_only_bind; [apply Hf | intros b].
    apply raises_only_bind; [exact IH | intros bs; apply raises_only_Ok].
Qed.

Create HintDb raises.

#[local] Hint Resolve raises_only_Ok raises_only_Raise raises_only_of_option
  : raises.

(** ** Index arrays *)

Lemma mapM_Forall2 {A B : Type} (f : A -> result B) (l : list A) (l' : list B) :
  mapM f l = Ok l' -> Forall2 (fun b a => f a = Ok b) l' l.
Proof.
  revert l'. induction l as [|a l IH]; simpl; intros l' H.
  - injection H as <-. constructor.
  - inv_bind H. inv_bind H. injection H as <-. constructor; auto.
Qed.

Lemma Forall2_mapM {A B : Type} (f : A -> result B) (l : list A) (l' : list B) :
  Forall2 (fun b a => f a = Ok b) l' l -> mapM f l = Ok l'.
Proof.
  induction 1 as [|b a l' l Hba _ IH]; simpl; [reflexivity|].
  now rewrite Hba, IH.
Qed.

Lemma take_Forall2 {A : Type} (a : list A) (idx : list nat) (l : list A) :
  take a idx = Ok l -> Forall2 (fun x i => nth_error a i = Some x) l idx.
Proof.
  intros H. apply mapM_Forall2 in H.
  induction H as [|x i l idx Hx _ IH]; constructor; auto.
  destruct (nth_error a i); simpl in Hx; congruence.
Qed.

Lemma take_length {A : Type} (a : list A) (idx : list nat) (l : list A) :
  take a idx = Ok l -> length l = length idx.
Proof. intros H. apply take_Forall2 in H. eapply Forall2_length; eauto. Qed.

Lemma take_nth_error {A : Type} (a : list A) (idx : list nat) (l : list A)
    (k : nat) (x : A) :
  take a idx = Ok l -> nth_error l k = Some x ->
  exists i, nth_error idx k = Some i /\ nth_error a i = Some x.
Proof.
  intros H. apply take_Forall2 in H. revert k.
  induction H as [|y i l idx Hy _ IH]; intros [|k] Hk; simpl in *; try discriminate.
  - injection Hk as <-. eauto.
  - auto.
Qed.

Lemma take_total {A : Type} (a : list A) (idx : list nat) :
  Forall (fun i => (i < length a)%nat) idx ->
  exists l, take a idx = Ok l.
Proof.
  induction 1 as [|i idx Hi _ (l & IH)].
  - now exists [].
  - destruct (nth_error a i) as [x|] eqn:E.
    + exists (x :: l). unfold take in *. simpl. now rewrite E, IH.
    + apply nth_error_None in E. lia.
Qed.

(** ** [downsample_to_target]: the guard on the target *)

Section TargetGuard.

Variable argsort : list Z -> list nat.
Variable pow_third : Z -> F64.t.

Let not_invalid (e : exn) : Prop := e <> InvalidTarget.

Lemma within_tol_raises count target tol :
  raises_only not_invalid (within_tol count target tol).
Proof.
  unfold within_tol, py_truediv.
  destruct (target =? 0); simpl; auto with raises.
  apply raises_only_Raise. discriminate.
Qed.

Lemma bisect_raises n points target tol vmin vmax vmid :
  raises_only not_invalid (bisect n points target tol vmin vmax vmid).
Proof.
  revert vmin vmax vmid. induction n as [|n IH]; intros vmin vmax vmid; simpl.
  - apply raises_only_of_option. discriminate.
  - apply raises_only_bind; [apply within_tol_raises | intros close].
    destruct close; [apply raises_only_Ok|].
    destruct (_ >? _); apply IH.
Qed.

Lemma reduce_axis0_raises {A : Type} (f : A -> A -> A) rows :
  raises_only not_invalid (reduce_axis0 f rows).
Proof.
  destruct rows; simpl; [apply raises_only_Raise; discriminate | apply raises_only_Ok].
Qed.

Lemma take_raises {A : Type} (a : list A) idx :
  raises_only not_invalid (take a idx).
Proof.
  apply raises_only_mapM. intros i. apply raises_only_of_option. discriminate.
Qed.

Lemma find_voxel_size_raises points target tol :
  raises_only not_invalid (find_voxel_size_for_target pow_third points target tol).
Proof.
  unfold find_voxel_size_for_target, bbox_diag.
  apply raises_only_bind.
  - apply raises_only_bind; [apply reduce_axis0_raises | intros mx].
    apply raises_only_bind; [apply reduce_axis0_raises | intros mn].
    apply raises_only_Ok.
  - intros d. destruct (target <? 0).
    + apply raises_only_Raise. discriminate.
    + apply bisect_raises.
Qed.

Lemma select_in_group_raises points g :
  raises_only not_invalid (select_in_group points g).
Proof.
  unfold select_in_group.
  apply raises_only_bind; [apply take_raises | intros gp].
  apply raises_only_bind.
  - unfold np_argmin. destruct (centroid_distances gp).
    + apply raises_only_Raise. discriminate.
    + apply raises_only_Ok.
  - intros k. apply raises_only_of_option. discriminate.
Qed.

Lemma downsample_voxel_raises points colors v :
  raises_only not_invalid (downsample_voxel_grid_nearest argsort points colors v).
Proof.
  unfold downsample_voxel_grid_nearest, voxel_keys.
  apply raises_only_bind.
  { apply raises_only_bind; [apply reduce_axis0_raises | intros off].
    apply raises_only_bind; [apply reduce_axis0_raises | intros mx].
    apply raises_only_Ok. }
  intros keys.
  apply raises_only_bind; [apply take_raises | intros sk].
  apply raises_only_bind.
  { apply raises_only_mapM. intros [a b]. apply select_in_group_raises. }
  intros sel.
  apply raises_only_bind; [apply take_raises | intros pts].
  apply raises_only_bind; [apply take_raises | intros cols].
  apply raises_only_Ok.
Qed.

Lemma downsample_tail_raises points colors t :
  raises_only not_invalid
    (let* voxel_size := find_voxel_size_for_target pow_third points t default_tol in
     let* (pts, cols, _) :=
       downsample_voxel_grid_nearest argsort points colors voxel_size in
     Ok (pts, cols)).
Proof.
  apply raises_only_bind; [apply find_voxel_size_raises | intros v].
  apply raises_only_bind; [apply downsample_voxel_raises | intros [[pts cols] sel]].
  apply raises_only_Ok.
Qed.

(** C4, as the code has it: [downsample_to_target] raises its
    invalid-target error exactly when no point count is given and the byte
    size is absent or zero.  A point count that was given, or a byte size
    that resolves to one, is not tested for its sign. *)
Theorem downsample_to_target_invalid_iff points colors target_count target_size_bytes :
  downsample_to_target argsort pow_third points colors target_count target_size_bytes
    = Raise InvalidTarget
  <-> target_count = None
      /\ (target_size_bytes = None \/ target_size_bytes = Some 0).
Proof.
  unfold downsample_to_target, resolve_target. split.
  - destruct target_count as [t|].
    + intros H. exfalso.
      destruct (t >=? _); [discriminate|].
      exact (downsample_tail_raises _ _ _ H eq_refl).
    + destruct target_size_bytes as [sz|]; [|auto].
      destruct (sz =? 0) eqn:E.
      * apply Z.eqb_eq in E. subst. auto.
      * intros H. exfalso.
        destruct (_ >=? _); [discriminate|].
        exact (downsample_tail_raises _ _ _ H eq_refl).
  - intros [-> [-> | ->]]; reflexivity.
Qed.


End TargetGuard.

(** ** Point identity *)

Section PointIdentity.

Variable argsort : list Z -> list nat.
Variable pow_third : Z -> F64.t.

Lemma downsample_voxel_selected points colors v pts cols sel :
  downsample_voxel_grid_nearest argsort points colors v = Ok (pts, cols, sel) ->
  take points sel = Ok pts /\ take colors sel = Ok cols.
Proof.
  unfold downsample_voxel_grid_nearest. intros H.
  inv_bind H. inv_bind H. inv_bind H. inv_bind H. inv_bind H.
  injection H as <- <- <-. auto.
Qed.

(** C1: the spatial downsampler copies rows.  The [k]-th output position
    and the [k]-th output colour are those of one and the same input point,
    for [downsample_voxel_grid_nearest] at any voxel size (where it is the
    point numbered by the [k]-th selected index) and for
    [downsample_to_target]. *)
Theorem downsample_point_identity points colors :
  (forall v pts cols sel,
      downsample_voxel_grid_nearest argsort points colors v = Ok (pts, cols, sel) ->
      length pts = length sel /\ length cols = length sel
      /\ (forall k i, nth_error sel k = Some i ->
                      nth_error pts k = nth_error points i
                      /\ nth_error cols k = nth_error colors i
                      /\ (i < length points)%nat)
      /\ rows_from_input points colors pts cols)
  /\ (forall target_count target_size_bytes pts cols,
         downsample_to_target argsort pow_third points colors
                              target_count target_size_bytes = Ok (pts, cols) ->
         rows_from_input points colors pts cols).
Proof.
  assert (Hvox : forall v pts cols sel,
             downsample_voxel_grid_nearest argsort points colors v = Ok (pts, cols, sel) ->
             length pts = length sel /\ length cols = length sel
             /\ (forall k i, nth_error sel k = Some i ->
                             nth_error pts k = nth_error points i
                             /\ nth_error cols k = nth_error colors i
                             /\ (i < length points)%nat)
             /\ rows_from_input points colors pts cols).
  { intros v pts cols sel H.
    apply downsample_voxel_selected in H as [Hp Hc].
    pose proof (take_length _ _ Hp) as Lp.
    pose proof (take_length _ _ Hc) as Lc.
    repeat split; auto.
    - destruct (nth_error pts k) as [p|] eqn:E.
      + destruct (take_nth_error _ _ _ Hp E) as (i' & Hi' & Hpi). congruence.
      + apply nth_error_None in E.
        assert (k < length sel)%nat by (apply nth_error_Some; congruence). lia.
    - destruct (nth_error cols k) as [c|] eqn:E.
      + destruct (take_nth_error _ _ _ Hc E) as (i' & Hi' & Hci). congruence.
      + apply nth_error_None in E.
        assert (k < length sel)%nat by (apply nth_error_Some; congruence). lia.
    - destruct (nth_error pts k) as [p|] eqn:E.
      + destruct (take_nth_error _ _ _ Hp E) as (i' & Hi' & Hpi).
        apply nth_error_Some. congruence.
      + apply nth_error_None in E.
        assert (k < length sel)%nat by (apply nth_error_Some; congruence). lia.
    - intros k p c Ek Ec.
      destruct (take_nth_error _ _ _ Hp Ek) as (i & Hi & Hpi).
      destruct (take_nth_error _ _ _ Hc Ec) as (i' & Hi' & Hci).
      exists i. split; [assumption | congruence]. }
  split; [exact Hvox|].
  intros tc tsb pts cols H. unfold downsample_to_target in H.
  destruct (resolve_target tc tsb) as [t|]; [|discriminate].
  destruct (t >=? _).
  - injection H as <- <-. intros k p c Ek Ec. eauto.
  - inv_bind H. inv_bind H. destruct a0 as [[pts' cols'] sel].
    injection H as <- <-. now apply (Hvox _ _ _ _ Hstep0).
Qed.

End PointIdentity.

(** ** The order of floats *)

(** Case analysis on every integer and mantissa comparison in sight. *)
Ltac sf_cases :=
  unfold SFgeb, SFgtb, SFltb, SFleb, SFcompare in *;
  change (Pos.compare_cont Eq) with Pos.compare in *;
  repeat match goal with
         | s : bool |- _ => destruct s
         end;
  repeat match goal with
         | |- context [Z.compare ?a ?b] => destruct (Z.compare_spec a b); subst
         | H : context [Z.compare ?a ?b] |- _ => destruct (Z.compare_spec a b); subst
         | |- context [Pos.compare ?a ?b] => destruct (Pos.compare_spec a b); subst
         | H : context [Pos.compare ?a ?b] |- _ => destruct (Pos.compare_spec a b); subst
         end;
  simpl in *; try congruence; try lia.

Lemma SFleb_refl x : SFis_nan x = false -> SFleb x x = true.
Proof. destruct x; intros H; try discriminate; sf_cases. Qed.

Lemma SFleb_total x y :
  SFis_nan x = false -> SFis_nan y = false -> SFleb y x = false -> SFltb x y = true.
Proof. destruct x, y; intros Hx Hy H; try discriminate; sf_cases. Qed.

Lemma SFltb_leb x y : SFltb x y = true -> SFleb x y = true.
Proof. destruct x, y; intros H; sf_cases. Qed.

Lemma SFltb_leb_trans x y z :
  SFltb x y = true -> SFleb y z = true -> SFltb x z = true.
Proof. destruct x, y, z; intros H1 H2; sf_cases. Qed.


Lemma SFleb_not_ltb x y : SFleb x y = true -> SFltb y x = false.
Proof. destruct x, y; intros H; sf_cases. Qed.

Lemma SFltb_not_leb x y : SFltb x y = true -> SFleb y x = false.
Proof. destruct x, y; intros H; sf_cases. Qed.

Lemma SFleb_nan_r x : SFleb x S754_nan = false.
Proof. destruct x; reflexivity. Qed.

Lemma SFltb_nan_r x : SFltb x S754_nan = false.
Proof. destruct x; reflexivity. Qed.

Lemma SFleb_not_nan x y :
  SFleb x y = true -> SFis_nan x = false /\ SFis_nan y = false.
Proof. destruct x, y; intros H; try discriminate; auto. Qed.

Lemma SFis_nan_eq x : SFis_nan x = true -> x = S754_nan.
Proof. destruct x; intros H; try discriminate; reflexivity. Qed.

(** ** [np.argmin] *)

Lemma argmin_from_spec l :
  forall pre mp best,
    nth_error pre best = Some mp ->
    SFis_nan mp = false ->
    (forall q dq, nth_error pre q = Some dq ->
                  SFleb mp dq = true /\ ((q < best)%nat -> SFltb mp dq = true)) ->
    first_minimum (pre ++ l) (argmin_from mp best (length pre) l).
Proof.
  induction l as [|x l IH]; intros pre mp best Hbest Hmp Hpre; simpl.
  - rewrite app_nil_r. exists mp. split; [assumption|].
    intros q dq Hq. destruct (Hpre q dq Hq) as [Hle Hlt]. split.
    + now apply SFleb_not_ltb.
    + intros Hqb. now apply SFltb_not_leb, Hlt.
  - assert (Happ : pre ++ x :: l = (pre ++ [x]) ++ l) by now rewrite <- app_assoc.
    assert (Hlen : S (length pre) = length (pre ++ [x]))
      by (rewrite length_app; simpl; lia).
    assert (Hb : (best < length pre)%nat) by (apply nth_error_Some; congruence).
    unfold SFgeb. destruct (SFleb mp x) eqn:Hx; simpl.
    + rewrite Happ, Hlen. apply IH; auto.
      * rewrite nth_error_app1; auto.
      * intros q dq Hq.
        destruct (Nat.lt_ge_cases q (length pre)) as [Hlt | Hge].
        -- rewrite nth_error_app1 in Hq by assumption. auto.
        -- rewrite nth_error_app2 in Hq by assumption.
           destruct (q - length pre)%nat as [|[|n]] eqn:E; simpl in Hq; try discriminate.
           injection Hq as <-. split; [assumption | lia].
    + destruct (SFis_nan x) eqn:Hnan.
      * apply SFis_nan_eq in Hnan. subst x. exists S754_nan. split.
        -- rewrite nth_error_app2 by lia. now rewrite Nat.sub_diag.
        -- intros q dq _. split; [apply SFltb_nan_r | intros _; apply SFleb_nan_r].
      * assert (Hlt : SFltb x mp = true) by now apply SFleb_total.
        rewrite Happ, Hlen. apply IH; auto.
        -- rewrite nth_error_app2 by lia. now rewrite Nat.sub_diag.
        -- intros q dq Hq.
           destruct (Nat.lt_ge_cases q (length pre)) as [Hq' | Hge].
           ++ rewrite nth_error_app1 in Hq by assumption.
              destruct (Hpre q dq Hq) as [Hle _].
              assert (SFltb x dq = true) by (eapply SFltb_leb_trans; eauto).
              split; [now apply SFltb_leb | auto].
           ++ rewrite nth_error_app2 in Hq by assumption.
              destruct (q - length pre)%nat as [|[|n]] eqn:E; simpl in Hq; try discriminate.
              injection Hq as <-. split; [now apply SFleb_refl | lia].
Qed.

Lemma np_argmin_spec d b : np_argmin d = Ok b -> first_minimum d b.
Proof.
  destruct d as [|x d]; simpl; [discriminate|]. intros [= <-].
  destruct (SFis_nan x) eqn:Hnan.
  - apply SFis_nan_eq in Hnan. subst x. exists S754_nan. split; [reflexivity|].
    intros q dq _. split; [apply SFltb_nan_r | intros _; apply SFleb_nan_r].
  - change (first_minimum ([x] ++ d) (argmin_from x O (length [x]) d)).
    apply argmin_from_spec; auto.
    intros [|[|q]] dq Hq; simpl in Hq; try discriminate.
    injection Hq as <-. split; [now apply SFleb_refl | lia].
Qed.

Lemma np_argmin_total d : d <> [] -> exists b, np_argmin d = Ok b.
Proof. destruct d; [congruence | simpl; eauto]. Qed.

Lemma first_minimum_lt d b : first_minimum d b -> (b < length d)%nat.
Proof. intros (db & Hb & _). apply nth_error_Some. congruence. Qed.

(** ** Sorted keys and their groups *)

Lemma sortedb_cons h t :
  sortedb (h :: t) = true -> sortedb t = true /\ forall x, In x t -> h <= x.
Proof.
  revert h. induction t as [|y t IH]; intros h H.
  - split; [reflexivity | intros x []].
  - simpl in H. apply andb_prop in H as [Hhy Ht]. apply Z.leb_le in Hhy.
    split; [exact Ht|]. intros x [<- | Hx]; [assumption|].
    destruct (IH y Ht) as [_ Hall]. specialize (Hall x Hx). lia.
Qed.

Lemma filter_none {A : Type} (f : A -> bool) (l : list A) :
  (forall x, In x l -> f x = false) -> filter f l = [].
Proof.
  induction l as [|a l IH]; intros H; simpl; [reflexivity|].
  rewrite (H a) by (left; reflexivity). apply IH. intros x Hx. apply H. now right.
Qed.

Lemma filter_all {A : Type} (f : A -> bool) (l : list A) :
  (forall x, In x l -> f x = true) -> filter f l = l.
Proof.
  induction l as [|a l IH]; intros H; simpl; [reflexivity|].
  rewrite (H a) by (left; reflexivity). f_equal. apply IH. intros x Hx. apply H. now right.
Qed.

Lemma index_of_count_lt k l :
  sortedb l = true -> In k l -> index_of k l = count_lt k l.
Proof.
  unfold count_lt. induction l as [|h t IH]; intros Hs Hin; [destruct Hin|].
  apply sortedb_cons in Hs as [Hs Hall]. simpl.
  destruct (h =? k) eqn:E.
  - apply Z.eqb_eq in E. subst h. rewrite Z.ltb_irrefl.
    rewrite filter_none; [reflexivity|].
    intros x Hx. apply Z.ltb_ge. auto.
  - apply Z.eqb_neq in E. destruct Hin as [-> | Hin]; [congruence|].
    specialize (Hall k Hin).
    assert (Hlt : (h <? k) = true) by (apply Z.ltb_lt; lia).
    rewrite Hlt. simpl. f_equal. auto.
Qed.

Lemma slice_group {A : Type} (f : A -> Z) (k : Z) (s : list A) :
  sortedb (map f s) = true ->
  slice s (count_lt k (map f s)) (count_le k (map f s))
  = filter (fun i => f i =? k) s.
Proof.
  unfold slice, count_lt, count_le. induction s as [|x s IH]; intros Hs; [reflexivity|].
  simpl map in *. apply sortedb_cons in Hs as [Hs Hall]. specialize (IH Hs). simpl.
  destruct (Z.compare_spec (f x) k) as [E | E | E].
  - subst k. rewrite Z.ltb_irrefl, Z.leb_refl, Z.eqb_refl. simpl.
    rewrite (filter_none (fun y => y <? f x)) in *
      by (intros y Hy; apply Z.ltb_ge; auto).
    simpl in *. rewrite Nat.sub_0_r in *. f_equal. exact IH.
  - assert (H1 : (f x <? k) = true) by (apply Z.ltb_lt; lia).
    assert (H2 : (f x <=? k) = true) by (apply Z.leb_le; lia).
    assert (H3 : (f x =? k) = false) by (apply Z.eqb_neq; lia).
    rewrite H1, H2, H3. simpl. exact IH.
  - assert (H1 : (f x <? k) = false) by (apply Z.ltb_ge; lia).
    assert (H2 : (f x <=? k) = false) by (apply Z.leb_gt; lia).
    assert (H3 : (f x =? k) = false) by (apply Z.eqb_neq; lia).
    rewrite H1, H2, H3.
    rewrite (filter_none (fun y => y <? k)),  (filter_none (fun y => y <=? k)).
    + simpl. symmetry. apply filter_none. intros i Hi.
      apply Z.eqb_neq. specialize (Hall (f i) (in_map f s i Hi)). lia.
    + intros y Hy. apply Z.leb_gt. specialize (Hall y Hy). lia.
    + intros y Hy. apply Z.ltb_ge. specialize (Hall y Hy). lia.
Qed.

Lemma filter_length_ext {A : Type} (f g : A -> bool) (l : list A) :
  (forall x, In x l -> f x = g x) -> length (filter f l) = length (filter g l).
Proof.
  intros H. f_equal. apply filter_ext_in. exact H.
Qed.

Lemma group_bounds_counts (l u : list Z) :
  StronglySorted Z.lt u ->
  (forall x h, In x l -> hd_error u = Some h -> h <= x -> In x u) ->
  let starts := map (fun k => count_lt k l) u in
  combine starts (tl starts ++ [length l])
  = map (fun k => (count_lt k l, count_le k l)) u.
Proof.
  intros Hu. induction Hu as [|k u Hu IH Hk]; intros Hcov; [reflexivity|].
  simpl. destruct u as [|k2 u'].
  - simpl. f_equal. f_equal. unfold count_le. symmetry.
    rewrite filter_all; [reflexivity|].
    intros x Hx. apply Z.leb_le.
    destruct (Z.le_gt_cases k x) as [Hle | Hgt]; [|lia].
    destruct (Hcov x k Hx eq_refl Hle) as [<- | []]. lia.
  - assert (Hk2 : k < k2) by (inversion Hk; assumption).
    assert (Hend : count_lt k2 l = count_le k l).
    { apply filter_length_ext. intros x Hx.
      destruct (Z.le_gt_cases k x) as [Hle | Hgt].
      - destruct (Hcov x k Hx eq_refl Hle) as [<- | Hin].
        + rewrite Z.leb_refl. now apply Z.ltb_lt.
        + assert (k2 <= x).
          { destruct Hin as [<- | Hin]; [lia|].
            inversion Hu as [|? ? _ Hall]; subst.
            rewrite Forall_forall in Hall. specialize (Hall x Hin). lia. }
          transitivity false; [apply Z.ltb_ge | symmetry; apply Z.leb_gt]; lia.
      - transitivity true; [apply Z.ltb_lt | symmetry; apply Z.leb_le]; lia. }
    cbn [map tl app combine]. f_equal; [now rewrite Hend|].
    apply IH. intros x h Hx [= <-] Hle.
    destruct (Hcov x k Hx eq_refl ltac:(lia)) as [<- | Hin]; [lia | exact Hin].
Qed.

(** [unique_sorted]: strictly increasing, with the elements of its
    argument. *)
Lemma insert_uniq_In k l x : In x (insert_uniq k l) <-> x = k \/ In x l.
Proof.
  induction l as [|h t IH]; simpl.
  - intuition.
  - destruct (k <? h) eqn:E1; [simpl; intuition|].
    destruct (k =? h) eqn:E2.
    + apply Z.eqb_eq in E2. subst. simpl. intuition.
    + simpl. rewrite IH. intuition.
Qed.

Lemma insert_uniq_sorted k l :
  StronglySorted Z.lt l -> StronglySorted Z.lt (insert_uniq k l).
Proof.
  induction 1 as [|h t Ht IH Hall]; simpl.
  - repeat constructor.
  - destruct (k <? h) eqn:E1.
    + apply Z.ltb_lt in E1. constructor; [now constructor|].
      constructor; [assumption|].
      rewrite Forall_forall in *. intros x Hx. specialize (Hall x Hx). lia.
    + apply Z.ltb_ge in E1. destruct (k =? h) eqn:E2.
      * now constructor.
      * apply Z.eqb_neq in E2. constructor; [assumption|].
        rewrite Forall_forall in *. intros x Hx.
        apply insert_uniq_In in Hx as [-> | Hx]; [lia | auto].
Qed.

Lemma unique_sorted_In l x : In x (unique_sorted l) <-> In x l.
Proof.
  induction l as [|h t IH]; simpl; [reflexivity|].
  rewrite insert_uniq_In, IH. intuition.
Qed.

Lemma unique_sorted_sorted l : StronglySorted Z.lt (unique_sorted l).
Proof.
  induction l as [|h t IH]; simpl; [constructor | now apply insert_uniq_sorted].
Qed.

Lemma strictly_sorted_ext (u v : list Z) :
  StronglySorted Z.lt u -> StronglySorted Z.lt v ->
  (forall x, In x u <-> In x v) -> u = v.
Proof.
  intros Hu. revert v. induction Hu as [|a u Hu IH Ha]; intros v Hv Hext.
  - destruct v as [|b v]; [reflexivity|].
    destruct (proj2 (Hext b) (or_introl eq_refl)).
  - destruct v as [|b v].
    + destruct (proj1 (Hext a) (or_introl eq_refl)).
    + inversion Hv as [|? ? Hv' Hb]; subst.
      rewrite Forall_forall in Ha, Hb.
      assert (a = b).
      { destruct (proj1 (Hext a) (or_introl eq_refl)) as [E | Hin]; [auto|].
        destruct (proj2 (Hext b) (or_introl eq_refl)) as [E | Hin']; [auto|].
        specialize (Ha _ Hin'). specialize (Hb _ Hin). lia. }
      subst b. f_equal. apply IH; [assumption|].
      intros x. split; intros Hx.
      * destruct (proj1 (Hext x) (or_intror Hx)) as [E | Hin]; [|assumption].
        specialize (Ha _ Hx). lia.
      * destruct (proj2 (Hext x) (or_intror Hx)) as [E | Hin]; [|assumption].
        specialize (Hb _ Hx). lia.
Qed.

(** The slices that the loop visits are the groups of equal keys. *)
Lemma group_slices {A : Type} (f : A -> Z) (s : list A) :
  sortedb (map f s) = true ->
  map (fun '(start, stop) => slice s start stop) (group_bounds (map f s))
  = map (fun k => filter (fun i => f i =? k) s) (unique_sorted (map f s)).
Proof.
  intros Hs. unfold group_bounds, np_unique_index.
  set (l := map f s). set (u := unique_sorted l).
  assert (Hst : map (fun k => index_of k l) u = map (fun k => count_lt k l) u).
  { apply map_ext_in. intros k Hk. apply index_of_count_lt; [assumption|].
    now apply unique_sorted_In. }
  rewrite Hst, group_bounds_counts.
  - rewrite map_map. apply map_ext. intros k. now apply slice_group.
  - apply unique_sorted_sorted.
  - intros x h Hx _ _. now apply unique_sorted_In.
Qed.

(** ** What the contract of [np.argsort] gives *)

Lemma argsort_okb_spec keys s :
  argsort_okb keys s = true ->
  length s = length keys
  /\ (forall i, In i s <-> (i < length keys)%nat)
  /\ NoDup s
  /\ sortedb (map (key_at keys) s) = true.
Proof.
  unfold argsort_okb. intros H.
  apply andb_prop in H as [H Hsorted]. apply andb_prop in H as [Hlen Hall].
  apply Nat.eqb_eq in Hlen. rewrite forallb_forall in Hall.
  assert (Hincl : incl (seq 0 (length keys)) s).
  { intros i Hi. specialize (Hall i Hi). apply existsb_exists in Hall as (j & Hj & E).
    apply Nat.eqb_eq in E. now subst. }
  assert (Hperm : Permutation (seq 0 (length keys)) s).
  { apply NoDup_Permutation_bis; [apply seq_NoDup | | assumption].
    rewrite length_seq. lia. }
  repeat split; auto.
  - intros Hi. apply (Permutation_in _ (Permutation_sym Hperm)) in Hi.
    apply in_seq in Hi. lia.
  - intros Hi. apply Hincl, in_seq. lia.
  - apply (Permutation_NoDup Hperm), seq_NoDup.
Qed.

Lemma take_key_at keys s :
  (forall i, In i s -> (i < length keys)%nat) ->
  take keys s = Ok (map (key_at keys) s).
Proof.
  intros H. apply Forall2_mapM. induction s as [|i s IH]; simpl; constructor.
  - unfold key_at. rewrite (nth_error_nth' keys 0) by (apply H; now left). reflexivity.
  - apply IH. intros j Hj. apply H. now right.
Qed.

Lemma sorted_keys_same_values keys s :
  (forall i, In i s <-> (i < length keys)%nat) ->
  unique_sorted (map (key_at keys) s) = unique_sorted keys.
Proof.
  intros Hs. apply strictly_sorted_ext; try apply unique_sorted_sorted.
  intros x. rewrite !unique_sorted_In, in_map_iff. split.
  - intros (i & <- & Hi). apply nth_In. now apply Hs.
  - intros Hx. destruct (In_nth keys x 0 Hx) as (i & Hi & E).
    exists i. split; [exact E | now apply Hs].
Qed.

Lemma mapM_map {A B C : Type} (g : A -> B) (f : B -> result C) (l : list A) :
  mapM f (map g l) = mapM (fun a => f (g a)) l.
Proof. induction l as [|a l IH]; simpl; [reflexivity | now rewrite IH]. Qed.

Lemma mapM_ext {A B : Type} (f g : A -> result B) (l : list A) :
  (forall a, f a = g a) -> mapM f l = mapM g l.
Proof. intros H. induction l as [|a l IH]; simpl; [reflexivity | now rewrite H, IH]. Qed.

Lemma select_in_group_nearest points g r :
  select_in_group points g = Ok r -> nearest_in_group points g r.
Proof.
  unfold select_in_group. intros H. inv_bind H. inv_bind H.
  exists a, a0. repeat split; auto.
  - destruct (nth_error g a0); simpl in H; congruence.
  - now apply np_argmin_spec.
Qed.

Lemma voxel_keys_length v points keys :
  voxel_keys v points = Ok keys -> length keys = length points.
Proof.
  unfold voxel_keys. intros H. inv_bind H. inv_bind H. injection H as <-.
  now rewrite !length_map.
Qed.

Lemma voxel_keys_total v points :
  points <> [] -> exists keys, voxel_keys v points = Ok keys.
Proof.
  destruct points as [|p points]; [congruence|]. intros _.
  unfold voxel_keys. simpl. eauto.
Qed.

Section Representatives.

Variable argsort : list Z -> list nat.

(** The loop over the groups visits the voxels in ascending key order,
    and each group is the list of the voxel's members. *)
Lemma selected_per_group points keys :
  argsort_okb keys (argsort keys) = true ->
  (let sorted_indices := argsort keys in
   let* sorted_keys := take keys sorted_indices in
   mapM (fun '(start, stop) =>
           select_in_group points (slice sorted_indices start stop))
        (group_bounds sorted_keys))
  = mapM (fun k => select_in_group points (members keys (argsort keys) k))
         (unique_sorted keys).
Proof.
  intros Hok. cbv zeta.
  destruct (argsort_okb_spec _ _ Hok) as (Hlen & Hin & Hnd & Hsorted).
  rewrite take_key_at by (intros i Hi; now apply Hin).
  simpl.
  rewrite <- (sorted_keys_same_values keys (argsort keys) Hin).
  unfold members.
  rewrite <- (mapM_map (fun k => filter (fun i => key_at keys i =? k) (argsort keys))
                       (select_in_group points)).
  rewrite <- group_slices by assumption.
  rewrite mapM_map. apply mapM_ext. now intros [a b].
Qed.

Lemma members_spec keys k i :
  argsort_okb keys (argsort keys) = true ->
  In i (members keys (argsort keys) k)
  <-> (i < length keys)%nat /\ key_at keys i = k.
Proof.
  intros Hok. destruct (argsort_okb_spec _ _ Hok) as (_ & Hin & _).
  unfold members. rewrite filter_In, Hin, Z.eqb_eq. reflexivity.
Qed.

(** The selected indices, one per key in ascending order: each is what the
    loop body returns on the members of that key. *)
Lemma downsample_voxel_groups points colors v keys pts cols sel :
  voxel_keys v points = Ok keys ->
  argsort_okb keys (argsort keys) = true ->
  downsample_voxel_grid_nearest argsort points colors v = Ok (pts, cols, sel) ->
  mapM (fun k => select_in_group points (members keys (argsort keys) k))
       (unique_sorted keys) = Ok sel.
Proof.
  intros Hkeys Hok H. unfold downsample_voxel_grid_nearest in H.
  rewrite Hkeys in H. simpl in H.
  apply bind_Ok in H as (sk & Hsk & H). apply bind_Ok in H as (sel' & Hsel & H).
  inv_bind H. inv_bind H. injection H as <- <- <-.
  rewrite <- selected_per_group by assumption. cbv zeta. now rewrite Hsk.
Qed.


Lemma mapM_total {A B : Type} (P : B -> Prop) (f : A -> result B) (l : list A) :
  (forall a, In a l -> exists b, f a = Ok b /\ P b) ->
  exists bs, mapM f l = Ok bs /\ Forall P bs.
Proof.
  induction l as [|a l IH]; intros H; simpl.
  - exists []. split; [reflexivity | constructor].
  - destruct (H a (or_introl eq_refl)) as (b & Hb & HP).
    destruct IH as (bs & Hbs & HPs); [intros x Hx; apply H; now right|].
    exists (b :: bs). rewrite Hb, Hbs. split; [reflexivity | now constructor].
Qed.

Lemma centroid_distances_length gp :
  length (centroid_distances gp) = length gp.
Proof. unfold centroid_distances. apply length_map. Qed.

Lemma select_in_group_total points g :
  g <> [] -> Forall (fun i => (i < length points)%nat) g ->
  exists r, select_in_group points g = Ok r /\ (r < length points)%nat.
Proof.
  intros Hne Hg. unfold select_in_group.
  destruct (take_total points Hg) as (gp & Hgp). rewrite Hgp. simpl.
  pose proof (take_length _ _ Hgp) as Lgp.
  destruct (np_argmin_total (d := centroid_distances gp)) as (b & Hb).
  { intros E. apply (f_equal (@length _)) in E.
    rewrite centroid_distances_length, Lgp in E. destruct g; [congruence | discriminate]. }
  rewrite Hb. simpl.
  apply np_argmin_spec, first_minimum_lt in Hb.
  rewrite centroid_distances_length, Lgp in Hb.
  destruct (nth_error g b) as [r|] eqn:E.
  - exists r. split; [reflexivity|].
    rewrite Forall_forall in Hg. apply Hg. eapply nth_error_In; eauto.
  - apply nth_error_None in E. lia.
Qed.

(** On a non-empty point set with as many colours as points the
    downsampler returns, whatever the voxel size. *)
Lemma downsample_voxel_total points colors v keys :
  voxel_keys v points = Ok keys ->
  argsort_okb keys (argsort keys) = true ->
  length colors = length points ->
  exists pts cols sel,
    downsample_voxel_grid_nearest argsort points colors v = Ok (pts, cols, sel)
    /\ length sel = length (unique_sorted keys).
Proof.
  intros Hkeys Hok Hcol.
  pose proof (voxel_keys_length _ _ Hkeys) as Hlen.
  destruct (mapM_total (fun r => (r < length points)%nat)
              (fun k => select_in_group points (members keys (argsort keys) k))
              (unique_sorted keys)) as (sel & Hsel & Hlt).
  { intros k Hk. apply select_in_group_total.
    - apply (proj1 (unique_sorted_In _ _)) in Hk.
      destruct (In_nth keys k 0 Hk) as (i & Hi & E).
      assert (In i (members keys (argsort keys) k)) by now apply members_spec.
      intros E'. rewrite E' in *. contradiction.
    - apply Forall_forall. intros i Hi. apply members_spec in Hi; [|assumption].
      rewrite <- Hlen. tauto. }
  destruct (take_total points Hlt) as (pts & Hpts).
  rewrite <- Hcol in Hlt. destruct (take_total colors Hlt) as (cols & Hcols).
  exists pts, cols, sel. split.
  - unfold downsample_voxel_grid_nearest. rewrite Hkeys. simpl.
    pose proof (selected_per_group points keys Hok) as E. cbv zeta in E.
    destruct (take keys (argsort keys)) as [sk|e] eqn:Hsk; simpl in E |- *.
    + rewrite E, Hsel. simpl. now rewrite Hpts, Hcols.
    + rewrite Hsel in E. discriminate.
  - apply mapM_Forall2, Forall2_length in Hsel. congruence.
Qed.

End Representatives.

(** ** The binary search for the voxel size *)

Section Calibration.

Variable pow_third : Z -> F64.t.

Lemma within_tol_total count target tol :
  target <> 0 -> exists c, within_tol count target tol = Ok c.
Proof.
  intros H. unfold within_tol, py_truediv.
  apply Z.eqb_neq in H. rewrite H. simpl. eauto.
Qed.

Lemma bisect_S n points target tol vmin vmax vmid :
  bisect (S n) points target tol vmin vmax vmid
  = let* close := within_tol (occupied_voxels points (midpoint (vmin, vmax))) target tol in
    if close then Ok (midpoint (vmin, vmax))
    else if occupied_voxels points (midpoint (vmin, vmax)) >? target
         then bisect n points target tol (midpoint (vmin, vmax)) vmax
                     (Some (midpoint (vmin, vmax)))
         else bisect n points target tol vmin (midpoint (vmin, vmax))
                     (Some (midpoint (vmin, vmax))).
Proof. reflexivity. Qed.

Lemma bisect_total n points target tol vmin vmax vmid :
  target <> 0 -> (n <> O \/ vmid <> None) ->
  exists v, bisect n points target tol vmin vmax vmid = Ok v.
Proof.
  intros Ht. revert vmin vmax vmid.
  induction n as [|n IH]; intros vmin vmax vmid Hn.
  - destruct Hn as [Hn | Hn]; [congruence|].
    destruct vmid; [simpl; eauto | congruence].
  - rewrite bisect_S.
    destruct (within_tol_total (occupied_voxels points (midpoint (vmin, vmax)))
                               tol Ht) as (c & Hc).
    rewrite Hc. simpl bind. destruct c; [eauto|].
    destruct (_ >? _); apply IH; right; discriminate.
Qed.

Lemma bbox_diag_total points : points <> [] -> exists d, bbox_diag points = Ok d.
Proof. destruct points; [congruence|]. intros _. unfold bbox_diag. simpl. eauto. Qed.

Lemma find_voxel_size_total points target tol :
  points <> [] -> 0 < target ->
  exists v, find_voxel_size_for_target pow_third points target tol = Ok v.
Proof.
  intros Hp Ht. unfold find_voxel_size_for_target.
  destruct (bbox_diag_total Hp) as (d & Hd). rewrite Hd.
  unfold bind at 1. cbv beta iota.
  assert (E : (target <? 0) = false) by (apply Z.ltb_ge; lia). rewrite E.
  apply bisect_total; [lia | left; discriminate].
Qed.





End Calibration.

(** ** A degenerate bounding box *)





Section Degenerate.

Variable argsort : list Z -> list nat.
Variable pow_third : Z -> F64.t.


End Degenerate.

(** ** The exporter and its temporary file *)

Lemma lookup_write_same path f fs : lookup path (write path f fs) = Some f.
Proof. unfold write. simpl. now rewrite String.eqb_refl. Qed.

Lemma lookup_unlink_same path fs : lookup path (unlink path fs) = None.
Proof.
  unfold unlink. induction fs as [|[p f] fs IH]; simpl; [reflexivity|].
  destruct (String.eqb path p) eqn:E; simpl; [assumption|].
  now rewrite E.
Qed.

Lemma lookup_unlink_other path path' fs :
  path <> path' -> lookup path (unlink path' fs) = lookup path fs.
Proof.
  intros Hne. unfold unlink. induction fs as [|[p f] fs IH]; simpl; [reflexivity|].
  destruct (String.eqb path' p) eqn:E; simpl.
  - apply String.eqb_eq in E. subst p.
    assert (E' : String.eqb path path' = false) by now apply String.eqb_neq.
    now rewrite E'.
  - now rewrite IH.
Qed.

Lemma lookup_write_other path path' f fs :
  path <> path' -> lookup path (write path' f fs) = lookup path fs.
Proof.
  intros Hne. unfold write. simpl.
  assert (E : String.eqb path path' = false) by now apply String.eqb_neq.
  rewrite E. now apply lookup_unlink_other.
Qed.

Lemma exists_file_write path path' f fs :
  exists_file path fs = true -> exists_file path (write path' f fs) = true.
Proof.
  unfold exists_file. destruct (string_dec path path') as [-> | Hne].
  - now rewrite lookup_write_same.
  - now rewrite lookup_write_other.
Qed.

Lemma glb_document_total points colors :
  points <> [] -> exists gltf, glb_document points colors = Ok gltf.
Proof. destruct points; [congruence|]. intros _. unfold glb_document. simpl. eauto. Qed.

Section TemporaryFile.

Variable tmp_name : string.
Variable glb_size : GLTF2 -> Z.

(** C3 on the code: the temporary file is still there after every
    failure before the [unlink]: when the transcoder exits with a non-zero
    status, when its executable is not found, and when [_create_glb]
    raises (as it does on an empty point set).  [export_glb_with_draco]
    reaches its [unlink] only when nothing raised before it. *)
Theorem draco_failure_keeps_temp_file points colors output fs :
  (forall returncode out,
      points <> [] -> returncode <> 0 ->
      let '(r, fs') := export_glb_with_draco tmp_name (Some (returncode, out))
                                             glb_size points colors output fs in
      r = Raise (CalledProcessError returncode)
      /\ exists_file tmp_name fs' = true)
  /\ (points <> [] ->
      let '(r, fs') := export_glb_with_draco tmp_name None glb_size
                                             points colors output fs in
      r = Raise FileNotFoundError /\ exists_file tmp_name fs' = true)
  /\ (forall tool,
         points = [] ->
         let '(r, fs') := export_glb_with_draco tmp_name tool glb_size
                                                points colors output fs in
         r = Raise EmptyReduction /\ exists_file tmp_name fs' = true).
Proof.
  repeat split.
  - intros rc out Hp Hrc.
    destruct (glb_document_total colors Hp) as (g & Hg).
    unfold export_glb_with_draco, _create_glb, subprocess_run_check,
      io_bind, io_lift, io_modify.
    rewrite Hg. apply Z.eqb_neq in Hrc. rewrite Hrc.
    split; [reflexivity|].
    destruct out as [f|].
    + apply exists_file_write. unfold exists_file. now rewrite lookup_write_same.
    + unfold exists_file. now rewrite lookup_write_same.
  - intros Hp. destruct (glb_document_total colors Hp) as (g & Hg).
    unfold export_glb_with_draco, _create_glb, subprocess_run_check,
      io_bind, io_lift, io_modify.
    rewrite Hg. split; [reflexivity|].
    unfold exists_file. now rewrite lookup_write_same.
  - intros tool ->.
    unfold export_glb_with_draco, _create_glb, io_bind, io_lift. simpl.
    split; [reflexivity|].
    unfold exists_file. now rewrite lookup_write_same.
Qed.

(** The path on which the clean-up does happen: the transcoder ran and
    exited with status 0. *)
Lemma draco_success_removes_temp_file points colors output out fs :
  points <> [] ->
  exists_file tmp_name
    (snd (export_glb_with_draco tmp_name (Some (0, out)) glb_size
                                points colors output fs)) = false.
Proof.
  intros Hp. destruct (glb_document_total colors Hp) as (g & Hg).
  unfold export_glb_with_draco, _create_glb, subprocess_run_check,
    io_bind, io_lift, io_modify, io_ret, stat_st_size.
  rewrite Hg. change (0 =? 0) with true. cbv iota beta.
  match goal with
  | |- context [lookup output ?fs'] =>
      assert (Hgone : lookup tmp_name fs' = None) by apply lookup_unlink_same;
      destruct (lookup output fs') as [[| |]|]; simpl; unfold exists_file;
      now rewrite Hgone
  end.
Qed.

End TemporaryFile.

(** ** The layout of the exported document *)

Lemma tobytes_length a : length (tobytes a) = (12 * length a)%nat.
Proof.
  unfold tobytes. induction a as [|[[x y] z] a IH]; [reflexivity|].
  cbn [flat_map]. rewrite length_app, IH. cbn [row_bytes length le_bytes4 app]. lia.
Qed.






Lemma fold_left_zip3 {A : Type} (f : A -> A -> A) (rows : list (A * A * A)) : forall r,
  fold_left (zip3 f) rows r
  = (fold_left f (map (fun p => fst (fst p)) rows) (fst (fst r)),
     fold_left f (map (fun p => snd (fst p)) rows) (snd (fst r)),
     fold_left f (map (fun p => snd p) rows) (snd r)).
Proof.
  induction rows as [|[[x y] z] rows IH]; intros [[a b] c]; [reflexivity|].
  cbn [fold_left map]. rewrite IH. reflexivity.
Qed.





Section Layout.

Variable path : string.


End Layout.

(** ** The colour decode *)

Lemma digits2_pos_bounds m :
  2 ^ (Zpos (digits2_pos m) - 1) <= Zpos m < 2 ^ Zpos (digits2_pos m).
Proof.
  induction m as [m IH | m IH |]; cbn [digits2_pos].
  - rewrite Pos2Z.inj_succ. change (Zpos m~1) with (2 * Zpos m + 1).
    replace (Z.succ (Zpos (digits2_pos m)) - 1) with (Z.succ (Zpos (digits2_pos m) - 1)) by lia.
    rewrite !Z.pow_succ_r by lia. lia.
  - rewrite Pos2Z.inj_succ. change (Zpos m~0) with (2 * Zpos m).
    replace (Z.succ (Zpos (digits2_pos m)) - 1) with (Z.succ (Zpos (digits2_pos m) - 1)) by lia.
    rewrite !Z.pow_succ_r by lia. lia.
  - vm_compute. split; [discriminate | reflexivity].
Qed.

(** A valid [float32] has a mantissa below [2^24], and at least [2^23]
    above the least exponent. *)
Lemma valid_mantissa s m e :
  F32.valid (S754_finite s m e) = true ->
  Zpos m < 2 ^ 24 /\ (-149 < e -> 2 ^ 23 <= Zpos m).
Proof.
  unfold F32.valid, valid_binary, bounded, canonical_mantissa, fexp, emin,
    F32.prec, F32.emax.
  intros H. apply andb_prop in H as [H _]. apply Z.eqb_eq in H.
  pose proof (digits2_pos_bounds m) as [Hlo Hhi].
  set (d := Zpos (digits2_pos m)) in *.
  assert (Hd : d <= 24) by lia. split.
  - eapply Z.lt_le_trans; [exact Hhi|]. apply Z.pow_le_mono_r; lia.
  - intros He. assert (d = 24) by lia. subst d. rewrite H0 in Hlo. exact Hlo.
Qed.








Lemma SFleb_positive m1 e1 m2 e2 :
  SFleb (S754_finite false m1 e1) (S754_finite false m2 e2)
  = (e1 <? e2) || ((e1 =? e2) && (Zpos m1 <=? Zpos m2)).
Proof.
  unfold SFleb, SFcompare.
  change (Pos.compare_cont Eq m1 m2) with (Pos.compare m1 m2).
  destruct (Z.compare_spec e1 e2), (Pos.compare_spec m1 m2),
    (Z.ltb_spec e1 e2), (Z.eqb_spec e1 e2), (Z.leb_spec (Zpos m1) (Zpos m2));
    try lia; reflexivity.
Qed.





(** ** The linearised key when the grid fits in 64 bits *)

Lemma wrap64_small z : - 2 ^ 63 <= z < 2 ^ 63 -> wrap64 z = z.
Proof. intros H. unfold wrap64. rewrite Z.mod_small by lia. lia. Qed.

Lemma fold_min_le l : forall a,
  fold_left Z.min l a <= a /\ forall x, In x l -> fold_left Z.min l a <= x.
Proof.
  induction l as [|y l IH]; intros a; cbn [fold_left].
  - split; [lia | intros x []].
  - destruct (IH (Z.min a y)) as [H1 H2]. split; [lia|].
    intros x [<- | Hx]; [lia | auto].
Qed.

Lemma fold_max_ge l : forall a,
  a <= fold_left Z.max l a /\ forall x, In x l -> x <= fold_left Z.max l a.
Proof.
  induction l as [|y l IH]; intros a; cbn [fold_left].
  - split; [lia | intros x []].
  - destruct (IH (Z.max a y)) as [H1 H2]. split; [lia|].
    intros x [<- | Hx]; [lia | auto].
Qed.

Lemma fold_max_in l : forall a, In (fold_left Z.max l a) (a :: l).
Proof.
  induction l as [|y l IH]; intros a; cbn [fold_left]; [now left|].
  destruct (IH (Z.max a y)) as [H | H]; [|now right; right].
  rewrite <- H. destruct (Z.max_spec a y) as [[_ ->] | [_ ->]]; [right; now left | now left].
Qed.

(** One axis: subtracting the least index does not wrap, and the greatest
    shifted index plus one is at most the extent. *)
Lemma axis_shift x0 xs :
  let lo := fold_left Z.min xs x0 in
  let shifted := map (fun y => sub64 y lo) (x0 :: xs) in
  let top := fold_left Z.max (tl shifted) (hd 0 shifted) in
  axis_extent (x0 :: xs) < 2 ^ 63 ->
  (forall y, In y (x0 :: xs) -> sub64 y lo = y - lo /\ 0 <= y - lo <= top)
  /\ 0 <= top /\ top + 1 <= axis_extent (x0 :: xs).
Proof.
  intros lo shifted top Hext. cbn [axis_extent] in *. fold lo in Hext |- *.
  destruct (fold_min_le xs x0) as [Hlo0 Hlo]. fold lo in Hlo0, Hlo.
  destruct (fold_max_ge xs x0) as [Hhi0 Hhi].
  set (hi := fold_left Z.max xs x0) in *.
  assert (Hb : forall y, In y (x0 :: xs) -> lo <= y <= hi).
  { intros y [<- | Hy]; [lia|]. specialize (Hlo y Hy). specialize (Hhi y Hy). lia. }
  assert (Hsh : forall y, In y (x0 :: xs) -> sub64 y lo = y - lo).
  { intros y Hy. specialize (Hb y Hy). unfold sub64. apply wrap64_small. lia. }
  subst shifted top. cbn [map hd tl].
  destruct (fold_max_ge (map (fun y => sub64 y lo) xs) (sub64 x0 lo)) as [Ht0 Ht].
  pose proof (fold_max_in (map (fun y => sub64 y lo) xs) (sub64 x0 lo)) as Hin.
  set (top := fold_left Z.max (map (fun y => sub64 y lo) xs) (sub64 x0 lo)) in *.
  assert (Htop : exists y, In y (x0 :: xs) /\ top = y - lo).
  { destruct Hin as [Hin | Hin].
    - exists x0. split; [now left|]. rewrite <- Hin. apply Hsh. now left.
    - apply in_map_iff in Hin as (y & Hy & Hin). exists y. split; [now right|].
      rewrite <- Hy. apply Hsh. now right. }
  destruct Htop as (yt & Hyt & Etop). pose proof (Hb yt Hyt) as Hyt'.
  split; [|lia].
  intros y Hy. split; [now apply Hsh|].
  pose proof (Hb y Hy) as Hy'. split; [lia|].
  rewrite <- (Hsh y Hy). destruct Hy as [<- | Hy]; [exact Ht0|].
  apply Ht. now apply (in_map (fun y => sub64 y lo)).
Qed.

Lemma mixed_radix_inj m1 m2 g0 g1 g2 h0 h1 h2 :
  0 <= g1 < m1 -> 0 <= h1 < m1 -> 0 <= g2 < m2 -> 0 <= h2 < m2 ->
  g0 * (m1 * m2) + g1 * m2 + g2 = h0 * (m1 * m2) + h1 * m2 + h2 ->
  g0 = h0 /\ g1 = h1 /\ g2 = h2.
Proof.
  intros Hg1 Hh1 Hg2 Hh2 E.
  destruct (Zdiv_mod_unique m2 (g0 * m1 + g1) (h0 * m1 + h1) g2 h2) as [E1 E2];
    try (rewrite Z.abs_eq by lia; assumption); [lia|].
  destruct (Zdiv_mod_unique m1 g0 h0 g1 h1) as [E3 E4];
    try (rewrite Z.abs_eq by lia; assumption); [lia|].
  auto.
Qed.

(** The three axes together. *)
Lemma grid_volume_axes (c0 : cell) (cs : list cell) :
  let X := map (fun c : cell => fst (fst c)) (c0 :: cs) in
  let Y := map (fun c : cell => snd (fst c)) (c0 :: cs) in
  let Z' := map (fun c : cell => snd c) (c0 :: cs) in
  grid_volume (c0 :: cs) < 2 ^ 63 ->
  1 <= axis_extent X /\ 1 <= axis_extent Y /\ 1 <= axis_extent Z'
  /\ axis_extent X * axis_extent Y * axis_extent Z' < 2 ^ 63.
Proof.
  intros X Y Z' H. unfold grid_volume in H. fold X Y Z' in H.
  assert (Hpos : forall x0 xs, 1 <= axis_extent (x0 :: xs)).
  { intros x0 xs. cbn [axis_extent].
    pose proof (proj1 (fold_min_le xs x0)). pose proof (proj1 (fold_max_ge xs x0)). lia. }
  subst X Y Z'. cbn [map] in *. repeat split; auto.
Qed.

Lemma product_bounds a b c :
  1 <= a -> 1 <= b -> 1 <= c ->
  a <= a * b * c /\ b <= a * b * c /\ c <= a * b * c /\ b * c <= a * b * c.
Proof.
  intros Ha Hb Hc.
  assert (Hab : 1 <= a * b) by nia.
  assert (Hbc : 1 <= b * c) by nia.
  assert (Hac : 1 <= a * c) by nia.
  repeat split.
  - replace (a * b * c) with (a * (b * c)) by ring. nia.
  - replace (a * b * c) with (b * (a * c)) by ring. nia.
  - replace (a * b * c) with (c * (a * b)) by ring. nia.
  - replace (a * b * c) with (a * (b * c)) by ring. nia.
Qed.

(** The key of a shifted index within the grid, without wrap-around. *)
Lemma voxel_key_no_wrap e0 e1 e2 t0 t1 t2 g0 g1 g2 :
  1 <= e0 -> 1 <= e1 -> 1 <= e2 -> e0 * e1 * e2 < 2 ^ 63 ->
  0 <= t0 -> 0 <= t1 -> 0 <= t2 ->
  t0 + 1 <= e0 -> t1 + 1 <= e1 -> t2 + 1 <= e2 ->
  0 <= g0 <= t0 -> 0 <= g1 <= t1 -> 0 <= g2 <= t2 ->
  voxel_key (add64 t0 1, add64 t1 1, add64 t2 1) (g0, g1, g2)
  = g0 * ((t1 + 1) * (t2 + 1)) + g1 * (t2 + 1) + g2.
Proof.
  intros He0 He1 He2 HP Ht0 Ht1 Ht2 Hm0 Hm1 Hm2 Hg0 Hg1 Hg2.
  set (m0 := t0 + 1) in *. set (m1 := t1 + 1) in *. set (m2 := t2 + 1) in *.
  assert (H12 : 1 <= m1 * m2 <= e1 * e2) by nia.
  assert (HE : e1 * e2 <= e0 * e1 * e2) by nia.
  assert (H012 : m0 * (m1 * m2) <= e0 * e1 * e2).
  { rewrite <- Z.mul_assoc. apply Z.mul_le_mono_nonneg; lia. }
  assert (Hp0 : 0 <= g0 * (m1 * m2) <= (m0 - 1) * (m1 * m2)).
  { split; [apply Z.mul_nonneg_nonneg; lia|]. apply Z.mul_le_mono_nonneg_r; lia. }
  assert (Hp1 : 0 <= g1 * m2 <= (m1 - 1) * m2).
  { split; [apply Z.mul_nonneg_nonneg; lia|]. apply Z.mul_le_mono_nonneg_r; lia. }
  assert (R0 : (m0 - 1) * (m1 * m2) = m0 * (m1 * m2) - m1 * m2) by ring.
  assert (R1 : (m1 - 1) * m2 = m1 * m2 - m2) by ring.
  assert (Ee : forall e, 1 <= e -> e <= e0 * e1 * e2 -> e < 2 ^ 63) by (intros; lia).
  assert (W1 : wrap64 (t1 + 1) = m1) by (apply wrap64_small; split; [lia | apply Ee; nia]).
  assert (W2 : wrap64 (t2 + 1) = m2) by (apply wrap64_small; split; [lia | apply Ee; nia]).
  assert (W12 : wrap64 (m1 * m2) = m1 * m2) by (apply wrap64_small; lia).
  assert (W0 : wrap64 (g0 * (m1 * m2)) = g0 * (m1 * m2)) by (apply wrap64_small; lia).
  assert (W3 : wrap64 (g1 * m2) = g1 * m2) by (apply wrap64_small; lia).
  assert (W4 : wrap64 (g0 * (m1 * m2) + g1 * m2) = g0 * (m1 * m2) + g1 * m2)
    by (apply wrap64_small; lia).
  assert (W5 : wrap64 (g0 * (m1 * m2) + g1 * m2 + g2) = g0 * (m1 * m2) + g1 * m2 + g2)
    by (apply wrap64_small; lia).
  unfold voxel_key, add64, mul64.
  now rewrite W1, W2, W12, W0, W3, W4, W5.
Qed.

(** When the box spanned by the occupied cells has fewer than [2^63]
    cells, the keys are the images of the cells under a map that is
    one-to-one on them. *)
Lemma voxel_keys_injective_map v points keys :
  grid_volume (map (grid_cell v) points) < 2 ^ 63 ->
  voxel_keys v points = Ok keys ->
  exists F : cell -> Z,
    keys = map F (map (grid_cell v) points)
    /\ forall c c',
        In c (map (grid_cell v) points) -> In c' (map (grid_cell v) points) ->
        F c = F c' -> c = c'.
Proof.
  unfold voxel_keys. cbv zeta.
  generalize (map (grid_cell v) points). intros cells Hvol H.
  destruct cells as [|c0 cs]; [discriminate|].
  cbn [reduce_axis0 bind map] in H.
  set (offset := fold_left (zip3 Z.min) cs c0) in *.
  set (sh := fun g : cell => zip3 sub64 g offset) in *.
  set (mx := fold_left (zip3 Z.max) (map sh cs) (sh c0)) in *.
  set (max_idx := map3 (fun m => add64 m 1) mx) in *.
  injection H as <-.
  exists (fun c => voxel_key max_idx (sh c)). split.
  { cbn [map]. now rewrite map_map. }
  destruct (grid_volume_axes c0 cs Hvol) as (He0 & He1 & He2 & HP).
  cbn [map] in He0, He1, He2, HP.
  set (X := map (fun c : cell => fst (fst c)) cs) in *.
  set (Y := map (fun c : cell => snd (fst c)) cs) in *.
  set (Z' := map (fun c : cell => snd c) cs) in *.
  destruct (product_bounds He0 He1 He2) as (Hb0 & Hb1 & Hb2 & _).
  destruct (axis_shift (fst (fst c0)) X ltac:(lia)) as (Hx & Htx0 & Htx).
  destruct (axis_shift (snd (fst c0)) Y ltac:(lia)) as (Hy & Hty0 & Hty).
  destruct (axis_shift (snd c0) Z' ltac:(lia)) as (Hz & Htz0 & Htz).
  cbn [map hd tl] in Hx, Hy, Hz, Htx0, Hty0, Htz0, Htx, Hty, Htz.
  assert (Eoff : offset = (fold_left Z.min X (fst (fst c0)),
                           fold_left Z.min Y (snd (fst c0)),
                           fold_left Z.min Z' (snd c0)))
    by apply fold_left_zip3.
  set (lx := fold_left Z.min X (fst (fst c0))) in *.
  set (ly := fold_left Z.min Y (snd (fst c0))) in *.
  set (lz := fold_left Z.min Z' (snd c0)) in *.
  assert (Esh : forall c : cell,
             sh c = (sub64 (fst (fst c)) lx, sub64 (snd (fst c)) ly, sub64 (snd c) lz)).
  { intros [[a b] c]. unfold sh. rewrite Eoff. reflexivity. }
  assert (Emx : mx = (fold_left Z.max (map (fun y => sub64 y lx) X) (sub64 (fst (fst c0)) lx),
                      fold_left Z.max (map (fun y => sub64 y ly) Y) (sub64 (snd (fst c0)) ly),
                      fold_left Z.max (map (fun y => sub64 y lz) Z') (sub64 (snd c0) lz))).
  { unfold mx. rewrite fold_left_zip3, Esh. cbn [fst snd].
    unfold X, Y, Z'. rewrite !map_map.
    rewrite (map_ext (fun x => fst (fst (sh x))) (fun x => sub64 (fst (fst x)) lx))
      by (intros c; now rewrite Esh).
    rewrite (map_ext (fun x => snd (fst (sh x))) (fun x => sub64 (snd (fst x)) ly))
      by (intros c; now rewrite Esh).
    rewrite (map_ext (fun x => snd (sh x)) (fun x => sub64 (snd x) lz))
      by (intros c; now rewrite Esh).
    reflexivity. }
  set (tx := fold_left Z.max (map (fun y => sub64 y lx) X) (sub64 (fst (fst c0)) lx)) in *.
  set (ty := fold_left Z.max (map (fun y => sub64 y ly) Y) (sub64 (snd (fst c0)) ly)) in *.
  set (tz := fold_left Z.max (map (fun y => sub64 y lz) Z') (sub64 (snd c0) lz)) in *.
  assert (Hkey : forall c, In c (c0 :: cs) ->
             voxel_key max_idx (sh c)
             = (fst (fst c) - lx) * ((ty + 1) * (tz + 1))
               + (snd (fst c) - ly) * (tz + 1) + (snd c - lz)
             /\ 0 <= snd (fst c) - ly < ty + 1 /\ 0 <= snd c - lz < tz + 1).
  { intros c Hc.
    destruct (Hx (fst (fst c))) as [Ex Bx];
      [apply (in_map (fun c : cell => fst (fst c)) (c0 :: cs)), Hc|].
    destruct (Hy (snd (fst c))) as [Ey By];
      [apply (in_map (fun c : cell => snd (fst c)) (c0 :: cs)), Hc|].
    destruct (Hz (snd c)) as [Ez Bz];
      [apply (in_map (fun c : cell => snd c) (c0 :: cs)), Hc|].
    rewrite Esh, Ex, Ey, Ez. unfold max_idx. rewrite Emx. cbn [map3].
    split; [|lia].
    apply (voxel_key_no_wrap (e0 := axis_extent (fst (fst c0) :: X))
                             (e1 := axis_extent (snd (fst c0) :: Y))
                             (e2 := axis_extent (snd c0 :: Z'))); lia. }
  intros c c' Hc Hc' E.
  destruct (Hkey c Hc) as (Ec & B1 & B2). destruct (Hkey c' Hc') as (Ec' & B1' & B2').
  rewrite Ec, Ec' in E.
  apply mixed_radix_inj in E; try lia.
  destruct c as [[a b] d], c' as [[a' b'] d']. cbn [fst snd] in E.
  destruct E as (E0 & E1 & E2). repeat f_equal; lia.
Qed.

Lemma strictly_sorted_NoDup u : StronglySorted Z.lt u -> NoDup u.
Proof.
  induction 1 as [|a u Hu IH Ha]; constructor; auto.
  intros Hin. rewrite Forall_forall in Ha. specialize (Ha a Hin). lia.
Qed.

Lemma unique_sorted_length_inj (F : cell -> Z) (l : list cell) :
  (forall c c', In c l -> In c' l -> F c = F c' -> c = c') ->
  length (unique_sorted (map F l)) = length (nodup cell_eq_dec l).
Proof.
  intros Hinj. rewrite <- (length_map F (nodup cell_eq_dec l)).
  apply Permutation_length, NoDup_Permutation.
  - apply strictly_sorted_NoDup, unique_sorted_sorted.
  - apply NoDup_map_NoDup_ForallPairs; [|apply NoDup_nodup].
    intros c c' Hc Hc'. apply Hinj; now apply (nodup_In cell_eq_dec).
  - intros x. rewrite unique_sorted_In, !in_map_iff.
    split; intros (c & E & Hc); exists c; (split; [assumption|]);
      now apply (nodup_In cell_eq_dec).
Qed.

Section GridFits.

Variable argsort : list Z -> list nat.

(** X5: what does hold of the key.  When the box spanned by the occupied cells
    has fewer than [2^63] cells, two points have the same key exactly when
    they are in the same cell, the selected indices are pairwise distinct,
    and there are as many of them as occupied cells. *)
Lemma downsample_voxel_one_per_cell points colors v keys pts cols sel :
  grid_volume (map (grid_cell v) points) < 2 ^ 63 ->
  voxel_keys v points = Ok keys ->
  argsort_okb keys (argsort keys) = true ->
  downsample_voxel_grid_nearest argsort points colors v = Ok (pts, cols, sel) ->
  (forall i j ci cj,
      nth_error (map (grid_cell v) points) i = Some ci ->
      nth_error (map (grid_cell v) points) j = Some cj ->
      (key_at keys i = key_at keys j <-> ci = cj))
  /\ NoDup sel
  /\ Z.of_nat (length sel) = occupied_voxels points v.
Proof.
  intros Hvol Hkeys Hok H.
  destruct (voxel_keys_injective_map v points Hvol Hkeys) as (F & EF & Hinj).
  pose proof (downsample_voxel_groups argsort points colors v Hkeys Hok H) as Hm.
  apply mapM_Forall2 in Hm.
  assert (Hsel : map (key_at keys) sel = unique_sorted keys).
  { clear -Hm Hok. induction Hm as [|r k sel u Hr _ IH]; [reflexivity|].
    cbn [map]. f_equal; [|exact IH].
    apply select_in_group_nearest in Hr as (gp & b & _ & Hb & _).
    apply nth_error_In in Hb. now apply members_spec in Hb. }
  split; [|split].
  - intros i j ci cj Hi Hj. unfold key_at. rewrite EF.
    rewrite (nth_error_nth (map F (map (grid_cell v) points)) i 0
               (map_nth_error F i _ Hi)).
    rewrite (nth_error_nth (map F (map (grid_cell v) points)) j 0
               (map_nth_error F j _ Hj)).
    split; [|now intros ->].
    intros E. apply Hinj; eauto using nth_error_In.
  - apply (NoDup_map_inv (key_at keys)). rewrite Hsel.
    apply strictly_sorted_NoDup, unique_sorted_sorted.
  - unfold occupied_voxels, np_unique_rows_count. f_equal.
    rewrite <- (length_map (key_at keys) sel), Hsel, EF.
    now apply unique_sorted_length_inj.
Qed.

End GridFits.

(** * The theorems at concrete inputs *)


(** C1 on [four_points]: at the voxel size 2 and for the target count 2. *)
Lemma downsample_point_identity_witness :
  rows_from_input four_points four_colors
                  (fst (fst four_points_at_2)) (snd (fst four_points_at_2))
  /\ rows_from_input four_points four_colors
                     (fst four_points_to_2) (snd four_points_to_2).
Proof.
  split.
  - apply (proj1 (downsample_point_identity NpySort.argsort cbrt_f64
                    four_points four_colors)
                 (f32 2) _ _ (snd four_points_at_2)).
    vm_compute. reflexivity.
  - apply (proj2 (downsample_point_identity NpySort.argsort cbrt_f64
                    four_points four_colors)
                 (Some 2) None).
    vm_compute. reflexivity.
Defined.



(** C3 on [four_points], with a transcoder that exits with status 1 and
    one that is not installed, and on the empty point set. *)
Lemma draco_failure_keeps_temp_file_witness :
  exists_file "/tmp/tmpq3x8.glb"
    (snd (export_glb_with_draco "/tmp/tmpq3x8.glb" (Some (1, None)) (fun _ => 0)
                                four_points four_colors "out.glb" [])) = true
  /\ exists_file "/tmp/tmpq3x8.glb"
       (snd (export_glb_with_draco "/tmp/tmpq3x8.glb" None (fun _ => 0)
                                   four_points four_colors "out.glb" [])) = true
  /\ exists_file "/tmp/tmpq3x8.glb"
       (snd (export_glb_with_draco "/tmp/tmpq3x8.glb" (Some (0, Some (ToolOutput 64)))
                                   (fun _ => 0) [] [] "out.glb" [])) = true.
Proof.
  pose proof (draco_failure_keeps_temp_file "/tmp/tmpq3x8.glb" (fun _ => 0)
                four_points four_colors "out.glb" []) as (Hexit & Hmissing & _).
  pose proof (draco_failure_keeps_temp_file "/tmp/tmpq3x8.glb" (fun _ => 0)
                [] [] "out.glb" []) as (_ & _ & Hempty).
  specialize (Hexit 1 None ltac:(discriminate) ltac:(lia)).
  specialize (Hmissing ltac:(discriminate)).
  specialize (Hempty (Some (0, Some (ToolOutput 64))) eq_refl).
  split; [|split].
  - destruct (export_glb_with_draco _ (Some (1, None)) _ four_points _ _ _).
    apply Hexit.
  - destruct (export_glb_with_draco _ None _ four_points _ _ _).
    apply Hmissing.
  - destruct (export_glb_with_draco _ _ _ [] _ _ _).
    apply Hempty.
Defined.

(** C4 as stated fails for the target counts 0 and -1: on a non-empty point
    set the calibration is entered and raises another exception, and on the
    empty point set the count 0 is returned as a no-op. *)
Lemma nonpositive_target_not_rejected :
  downsample_to_target NpySort.argsort cbrt_f64 four_points four_colors (Some 0) None
  = Raise ZeroDivisionError
  /\ downsample_to_target NpySort.argsort cbrt_f64 four_points four_colors (Some (-1)) None
     = Raise TypeError
  /\ downsample_to_target NpySort.argsort cbrt_f64 [] [] (Some 0) None = Ok ([], [])
  /\ downsample_to_target NpySort.argsort cbrt_f64 four_points four_colors None (Some 5)
     = Raise ZeroDivisionError.
Proof. repeat apply conj; vm_compute; reflexivity. Qed.









(** C10 fails on [wide_points] at the voxel size 1.  The three points lie
    in three different grid cells, but [max_idx[1] * max_idx[2]] is
    [2^32 * 2^32], which wraps to 0 in [int64]: points 0 and 1, which differ
    in their first grid index only, get the same key, and two points come
    out for three occupied voxels. *)
Theorem voxel_key_collision :
  map (grid_cell (f32 1)) wide_points
  = [(0, -255, -255); (1, -255, -255); (0, 4294967040, 4294967040)]
  /\ occupied_voxels wide_points (f32 1) = 3
  /\ mul64 (2 ^ 32) (2 ^ 32) = 0
  /\ voxel_keys (f32 1) wide_points = Ok [0; 0; -1]
  /\ downsample_voxel_grid_nearest NpySort.argsort wide_points wide_colors (f32 1)
     = Ok ([pt 0 4294967040 4294967040; pt 0 (-255) (-255)],
           [(3, 3, 3); (1, 1, 1)], [2%nat; 0%nat]).
Proof. repeat apply conj; vm_compute; reflexivity. Qed.

(** * Further properties of the code *)

(** ** What the downsampler returns *)

Lemma selected_keys argsort points keys sel :
  argsort_okb keys (argsort keys) = true ->
  mapM (fun k => select_in_group points (members keys (argsort keys) k))
       (unique_sorted keys) = Ok sel ->
  map (key_at keys) sel = unique_sorted keys
  /\ Forall (fun i => (i < length keys)%nat) sel.
Proof.
  intros Hok Hm. apply mapM_Forall2 in Hm.
  induction Hm as [|r k sel u Hr _ [IH1 IH2]]; [split; [reflexivity | constructor]|].
  apply select_in_group_nearest in Hr as (gp & b & _ & Hb & _).
  apply nth_error_In in Hb. apply members_spec in Hb as [Hlt Hk]; [|assumption].
  split; [cbn [map]; now f_equal | now constructor].
Qed.

Lemma bounded_NoDup_length (sel : list nat) (n : nat) :
  NoDup sel -> Forall (fun i => (i < n)%nat) sel -> (length sel <= n)%nat.
Proof.
  intros Hnd Hlt. rewrite <- (length_seq n 0).
  apply NoDup_incl_length; [assumption|].
  intros i Hi. rewrite Forall_forall in Hlt. apply in_seq. specialize (Hlt i Hi). lia.
Qed.

Lemma insert_uniq_length k l :
  (1 <= length (insert_uniq k l) <= S (length l))%nat.
Proof.
  induction l as [|h l IH]; simpl; [lia|].
  destruct (k <? h); [simpl; lia|].
  destruct (k =? h); simpl; lia.
Qed.

Lemma unique_sorted_length l :
  l <> [] -> (1 <= length (unique_sorted l) <= length l)%nat.
Proof.
  induction l as [|k l IH]; [congruence|]. intros _.
  change (unique_sorted (k :: l)) with (insert_uniq k (unique_sorted l)).
  pose proof (insert_uniq_length k (unique_sorted l)) as H.
  destruct l as [|k' l]; [simpl in *; lia|].
  specialize (IH ltac:(discriminate)). simpl length in *. lia.
Qed.

Section DownsamplerOutput.

Variable argsort : list Z -> list nat.
Variable pow_third : Z -> F64.t.

(** X1: on a point set that has voxel keys (a non-empty one) and as many
    colours as points, the downsampler raises nothing.  It returns equally
    many positions, colours and indices, at least one and at most [N]; the
    indices are pairwise distinct positions of the input; and the rows come
    out by strictly increasing voxel key, not in input order. *)
Theorem downsample_voxel_output points colors v keys :
  voxel_keys v points = Ok keys ->
  argsort_okb keys (argsort keys) = true ->
  length colors = length points ->
  exists pts cols sel,
    downsample_voxel_grid_nearest argsort points colors v = Ok (pts, cols, sel)
    /\ length pts = length sel
    /\ length cols = length sel
    /\ (1 <= length sel <= length points)%nat
    /\ NoDup sel
    /\ Forall (fun i => (i < length points)%nat) sel
    /\ StronglySorted Z.lt (map (key_at keys) sel).
Proof.
  intros Hkeys Hok Hcol.
  destruct (downsample_voxel_total argsort points colors v Hkeys Hok Hcol)
    as (pts & cols & sel & Hds & Hlen).
  exists pts, cols, sel.
  pose proof (downsample_voxel_groups argsort points colors v Hkeys Hok Hds) as Hm.
  destruct (selected_keys argsort points keys Hok Hm) as [Hsel Hlt].
  rewrite (voxel_keys_length _ _ Hkeys) in Hlt.
  assert (Hnd : NoDup sel).
  { apply (NoDup_map_inv (key_at keys)). rewrite Hsel.
    apply strictly_sorted_NoDup, unique_sorted_sorted. }
  pose proof (downsample_voxel_selected argsort _ _ _ Hds) as [Hp Hc].
  split; [assumption|].
  split; [exact (take_length _ _ Hp)|].
  split; [exact (take_length _ _ Hc)|].
  split; [split|].
  - rewrite Hlen. destruct keys as [|k keys].
    + unfold voxel_keys in Hkeys. destruct points; discriminate.
    + assert (Hin : In k (unique_sorted (k :: keys)))
        by (apply unique_sorted_In; now left).
      destruct (unique_sorted (k :: keys)); [contradiction | simpl; lia].
  - now apply bounded_NoDup_length.
  - split; [assumption|]. split; [assumption|].
    rewrite Hsel. apply unique_sorted_sorted.
Qed.



Lemma find_voxel_size_zero points tol :
  points <> [] ->
  find_voxel_size_for_target pow_third points 0 tol = Raise ZeroDivisionError.
Proof.
  intros Hp. unfold find_voxel_size_for_target.
  destruct (bbox_diag_total Hp) as (d & Hd). rewrite Hd.
  unfold bind at 1. cbv beta iota.
  change (0 <? 0) with false. cbv iota.
  rewrite bisect_S. reflexivity.
Qed.


(** X3: a target count from 1 to [N - 1] on [N] points with [N] colours
    never fails.  [downsample_to_target] returns at least one point and at
    most [N], and as many colours as points. *)
Theorem downsample_to_target_returns points colors t target_size_bytes :
  1 <= t < Z.of_nat (length points) ->
  length colors = length points ->
  (forall v keys,
      find_voxel_size_for_target pow_third points t default_tol = Ok v ->
      voxel_keys v points = Ok keys ->
      argsort_okb keys (argsort keys) = true) ->
  exists pts cols,
    downsample_to_target argsort pow_third points colors (Some t) target_size_bytes
    = Ok (pts, cols)
    /\ length cols = length pts
    /\ (1 <= length pts <= length points)%nat.
Proof.
  intros Ht Hcol Hsort.
  assert (Hp : points <> []) by (intros ->; simpl in Ht; lia).
  destruct (@find_voxel_size_total pow_third points t default_tol Hp) as (v & Hv);
    [lia|].
  destruct (voxel_keys_total v Hp) as (keys & Hkeys).
  destruct (downsample_voxel_total argsort points colors v Hkeys
              (Hsort v keys Hv Hkeys) Hcol) as (pts & cols & sel & Hds & Hlen).
  pose proof (downsample_voxel_selected argsort _ _ _ Hds) as [Lp Lc].
  apply take_length in Lp, Lc.
  assert (Hn : (1 <= length sel <= length points)%nat).
  { rewrite Hlen, <- (voxel_keys_length _ _ Hkeys).
    apply unique_sorted_length. intros ->.
    apply voxel_keys_length in Hkeys. destruct points; [congruence | discriminate]. }
  exists pts, cols. unfold downsample_to_target. cbn [resolve_target].
  assert (E : (t >=? Z.of_nat (length points)) = false)
    by (rewrite Z.geb_leb; apply Z.leb_gt; lia).
  rewrite E, Hv. unfold bind at 1. cbv beta iota. rewrite Hds.
  split; [reflexivity|]. split; [congruence | now rewrite Lp].
Qed.


End DownsamplerOutput.

(** ** The exporter: what it leaves behind *)

Section ExporterFiles.

Variable tmp_name : string.
Variable glb_size : GLTF2 -> Z.

(** X6: when the transcoder exits with status 0 and has written its
    output, [export_glb_with_draco] returns the size of the file at the
    output path, that file is the transcoder's, and the temporary file is
    gone.  When the transcoder exits with status 0 without writing
    anything and no file was at the output path, the call raises
    [FileNotFoundError], after the temporary file has been removed. *)
Theorem export_glb_success points colors output fs :
  points <> [] -> output <> tmp_name ->
  (forall n,
      let '(r, fs') := export_glb_with_draco tmp_name (Some (0, Some (ToolOutput n)))
                                             glb_size points colors output fs in
      r = Ok n
      /\ lookup output fs' = Some (ToolOutput n)
      /\ exists_file tmp_name fs' = false)
  /\ (lookup output fs = None ->
      let '(r, fs') := export_glb_with_draco tmp_name (Some (0, None))
                                             glb_size points colors output fs in
      r = Raise FileNotFoundError
      /\ exists_file tmp_name fs' = false).
Proof.
  intros Hp Hne. destruct (glb_document_total colors Hp) as (g & Hg).
  unfold export_glb_with_draco, _create_glb, subprocess_run_check,
    io_bind, io_lift, io_modify, io_ret, stat_st_size.
  rewrite Hg. change (0 =? 0) with true. cbv iota beta. split.
  - intros n.
    rewrite lookup_unlink_other, lookup_write_same by assumption.
    unfold exists_file. rewrite lookup_unlink_same.
    rewrite lookup_unlink_other, lookup_write_same by assumption. auto.
  - intros Hout.
    rewrite lookup_unlink_other, !lookup_write_other, Hout by assumption.
    unfold exists_file. rewrite lookup_unlink_same. auto.
Qed.

(** X7: [export_glb_with_draco] touches two paths only.  Whatever the
    transcoder does and whether or not the call raises, every file other
    than the temporary one and the output is as it was; and on an empty
    point set, where the call raises before the transcoder is run, so is
    the output. *)
Theorem export_glb_frame tool points colors output fs :
  (forall path,
      path <> tmp_name -> path <> output ->
      lookup path (snd (export_glb_with_draco tmp_name tool glb_size
                                              points colors output fs))
      = lookup path fs)
  /\ (points = [] -> output <> tmp_name ->
      lookup output (snd (export_glb_with_draco tmp_name tool glb_size
                                                points colors output fs))
      = lookup output fs).
Proof.
  unfold export_glb_with_draco, _create_glb, subprocess_run_check,
    io_bind, io_lift, io_modify, io_ret, stat_st_size.
  split.
  - intros path Ht Ho.
    destruct (glb_document points colors) as [g|e]; cbv iota beta;
      [|cbn [snd]; now rewrite lookup_write_other].
    destruct tool as [[rc [f|]]|]; cbv iota beta.
    + destruct (rc =? 0); cbv iota beta.
      * match goal with
        | |- context [lookup output ?fs'] => destruct (lookup output fs') as [[| |]|]
        end; cbn [snd];
          now rewrite lookup_unlink_other, !lookup_write_other.
      * cbn [snd]. now rewrite !lookup_write_other.
    + destruct (rc =? 0); cbv iota beta.
      * match goal with
        | |- context [lookup output ?fs'] => destruct (lookup output fs') as [[| |]|]
        end; cbn [snd];
          now rewrite lookup_unlink_other, !lookup_write_other.
      * cbn [snd]. now rewrite !lookup_write_other.
    + cbn [snd]. now rewrite !lookup_write_other.
  - intros -> Hne.
    change (glb_document [] colors) with (@Raise GLTF2 EmptyReduction).
    cbv iota beta. cbn [snd]. now rewrite lookup_write_other.
Qed.

End ExporterFiles.

(** ** The binary blob read back *)

Lemma valid_exponent s m e :
  F32.valid (S754_finite s m e) = true -> -149 <= e <= 104.
Proof.
  unfold F32.valid, valid_binary, bounded, canonical_mantissa, fexp, emin,
    F32.prec, F32.emax.
  intros H. apply andb_prop in H as [H1 H2].
  apply Z.eqb_eq in H1. apply Z.leb_le in H2. lia.
Qed.

Lemma le_word4_bytes w :
  0 <= w < 2 ^ 32 ->
  le_word4 (w mod 256) ((w / 2 ^ 8) mod 256) ((w / 2 ^ 16) mod 256)
           ((w / 2 ^ 24) mod 256) = w.
Proof.
  intros H. unfold le_word4.
  change (2 ^ 8) with 256. change (2 ^ 16) with 65536.
  change (2 ^ 24) with 16777216. change (2 ^ 32) with 4294967296 in H.
  Z.div_mod_to_equations. lia.
Qed.

Lemma f32_bits_range x : F32.valid x = true -> 0 <= f32_bits x < 2 ^ 32.
Proof.
  intros Hv. destruct x as [s | s | | s m e].
  - destruct s; vm_compute; split; congruence.
  - destruct s; vm_compute; split; congruence.
  - vm_compute; split; congruence.
  - destruct (valid_mantissa _ _ _ Hv) as [Hhi Hlo].
    pose proof (valid_exponent _ _ _ Hv) as He.
    unfold f32_bits.
    change (2 ^ 31) with 2147483648. change (2 ^ 32) with 4294967296.
    change (2 ^ 23) with 8388608 in *. change (2 ^ 24) with 16777216 in *.
    destruct (Z.ltb_spec (Zpos m) 8388608); destruct s; lia.
Qed.

Lemma f32_of_bits_bits x : F32.valid x = true -> f32_of_bits (f32_bits x) = x.
Proof.
  intros Hv. destruct x as [s | s | | s m e].
  - destruct s; vm_compute; reflexivity.
  - destruct s; vm_compute; reflexivity.
  - vm_compute; reflexivity.
  - destruct (valid_mantissa _ _ _ Hv) as [Hhi Hlo].
    pose proof (valid_exponent _ _ _ Hv) as He.
    change (2 ^ 23) with 8388608 in *. change (2 ^ 24) with 16777216 in *.
    unfold f32_bits, f32_of_bits.
    change (2 ^ 31) with 2147483648. change (2 ^ 23) with 8388608.
    set (sg := if s then 2147483648 else 0).
    assert (Hsg : sg = 0 /\ s = false \/ sg = 2147483648 /\ s = true)
      by (destruct s; auto).
    destruct (Z.ltb_spec (Zpos m) 8388608) as [Hsub | Hnorm].
    + assert (e = -149) by lia. subst e.
      assert (E1 : ((sg + Zpos m) / 8388608) mod 256 = 0)
        by (Z.div_mod_to_equations; lia).
      assert (E2 : (sg + Zpos m) mod 8388608 = Zpos m)
        by (Z.div_mod_to_equations; lia).
      assert (E3 : (2147483648 <=? sg + Zpos m) = s)
        by (destruct Hsg as [[-> ->] | [-> ->]];
            [apply Z.leb_gt | apply Z.leb_le]; lia).
      rewrite E1, E2, E3. reflexivity.
    + set (w := sg + ((e + 150) * 8388608 + (Zpos m - 8388608))).
      assert (E1 : (w / 8388608) mod 256 = e + 150)
        by (subst w; Z.div_mod_to_equations; lia).
      assert (E2 : w mod 8388608 = Zpos m - 8388608)
        by (subst w; Z.div_mod_to_equations; lia).
      assert (E3 : (2147483648 <=? w) = s)
        by (subst w; destruct Hsg as [[-> ->] | [-> ->]];
            [apply Z.leb_gt | apply Z.leb_le]; lia).
      rewrite E1, E2, E3.
      destruct (Z.eqb_spec (e + 150) 0); [lia|].
      destruct (Z.eqb_spec (e + 150) 255); [lia|].
      replace (Zpos m - 8388608 + 8388608) with (Zpos m) by lia.
      replace (e + 150 - 150) with e by lia. reflexivity.
Qed.

Lemma f32_word_round_trip x :
  F32.valid x = true ->
  match le_bytes4 (f32_bits x) with
  | [b0; b1; b2; b3] => f32_of_bits (le_word4 b0 b1 b2 b3) = x
  | _ => False
  end.
Proof.
  intros Hv. unfold le_bytes4.
  rewrite le_word4_bytes by now apply f32_bits_range.
  now apply f32_of_bits_bits.
Qed.

Lemma frombuffer_tobytes points :
  forallb valid_point points = true -> frombuffer (tobytes points) = points.
Proof.
  induction points as [|[[x y] z] points IH]; [reflexivity|].
  cbn [forallb]. intros H. apply andb_prop in H as [Hp Hps].
  unfold valid_point, coord_x, coord_y, coord_z in Hp. cbn [fst snd] in Hp.
  apply andb_prop in Hp as [Hp Hz]. apply andb_prop in Hp as [Hx Hy].
  pose proof (@f32_word_round_trip x Hx) as Ex.
  pose proof (@f32_word_round_trip y Hy) as Ey.
  pose proof (@f32_word_round_trip z Hz) as Ez.
  unfold tobytes in *. cbn [flat_map row_bytes].
  unfold le_bytes4 in *. cbn [app frombuffer].
  rewrite Ex, Ey, Ez. f_equal. now apply IH.
Qed.

Lemma normalized_valid c : is_uint8 c = true -> F32.valid (normalized c) = true.
Proof.
  intros H. unfold is_uint8 in H. apply andb_prop in H as [H0 H255].
  apply Z.leb_le in H0, H255.
  assert (Hall : forallb (fun n => F32.valid (normalized (Z.of_nat n))) (seq 0 256) = true)
    by (vm_compute; reflexivity).
  rewrite forallb_forall in Hall.
  rewrite <- (Z2Nat.id c) by assumption. apply Hall, in_seq. lia.
Qed.

Lemma colors_f_valid colors :
  forallb valid_color colors = true ->
  forallb valid_point (colors_f colors) = true.
Proof.
  induction colors as [|[[r g] b] colors IH]; [reflexivity|].
  cbn [forallb valid_color]. intros H.
  apply andb_prop in H as [Hc Hcs].
  apply andb_prop in Hc as [Hc Hb]. apply andb_prop in Hc as [Hr Hg].
  unfold colors_f in *. cbn [map map3 forallb].
  rewrite (IH Hcs), andb_true_r.
  unfold valid_point, coord_x, coord_y, coord_z. cbn [fst snd].
  change (F32.div (F32.of_Z r) (F32.of_Z 255)) with (normalized r).
  change (F32.div (F32.of_Z g) (F32.of_Z 255)) with (normalized g).
  change (F32.div (F32.of_Z b) (F32.of_Z 255)) with (normalized b).
  now rewrite !normalized_valid.
Qed.

(** X8: nothing is lost in the blob.  Read back as little-endian
    [float32] triples, the first [12 * N] bytes of the blob that
    [_create_glb] builds are the [N] positions, bit for bit, and the bytes
    after them are the colours divided by 255. *)
Theorem glb_blob_round_trip points colors g :
  glb_document points colors = Ok g ->
  forallb valid_point points = true ->
  forallb valid_color colors = true ->
  frombuffer (firstn (12 * length points) (binary_blob g)) = points
  /\ frombuffer (skipn (12 * length points) (binary_blob g)) = colors_f colors.
Proof.
  intros Hg Hp Hc. unfold glb_document in Hg. cbv zeta in Hg.
  inv_bind Hg. inv_bind Hg. injection Hg as <-. cbn [binary_blob].
  rewrite <- (tobytes_length points).
  rewrite firstn_app, firstn_all, Nat.sub_diag, firstn_O, app_nil_r.
  rewrite skipn_app, skipn_all, Nat.sub_diag, skipn_O. cbn [app].
  split; apply frombuffer_tobytes; [assumption | now apply colors_f_valid].
Qed.

Lemma normalized_unit c :
  is_uint8 c = true ->
  SFleb (S754_zero false) (normalized c) = true
  /\ SFleb (normalized c) (F32.of_Z 1) = true
  /\ astype_uint8 (F32.floor (F32.add (F32.mul (normalized c) (F32.of_Z 255))
                                      f32_half)) = c.
Proof.
  intros H. unfold is_uint8 in H. apply andb_prop in H as [H0 H255].
  apply Z.leb_le in H0, H255.
  assert (Hall : forallb
                   (fun n =>
                      let f := normalized (Z.of_nat n) in
                      SFleb (S754_zero false) f && SFleb f (F32.of_Z 1)
                      && (astype_uint8 (F32.floor (F32.add (F32.mul f (F32.of_Z 255))
                                                           f32_half))
                          =? Z.of_nat n))
                   (seq 0 256) = true)
    by (vm_compute; reflexivity).
  rewrite forallb_forall in Hall.
  specialize (Hall (Z.to_nat c) ltac:(apply in_seq; lia)).
  rewrite Z2Nat.id in Hall by assumption. cbv zeta in Hall.
  apply andb_prop in Hall as [Hall E]. apply andb_prop in Hall as [Hlo Hhi].
  apply Z.eqb_eq in E. auto.
Qed.

(** X9: the colours survive the division by 255.  Every channel that
    [_create_glb] writes is a float from 0.0 to 1.0, and different 8-bit
    colours are written as different floats: the colour array of the blob
    determines the colours given. *)
Theorem colors_f_lossless colors colors' :
  forallb valid_color colors = true ->
  forallb valid_color colors' = true ->
  Forall (fun f => Forall (fun x => SFleb (S754_zero false) x = true
                                    /\ SFleb x (F32.of_Z 1) = true)
                          [coord_x f; coord_y f; coord_z f])
         (colors_f colors)
  /\ (colors_f colors = colors_f colors' -> colors = colors').
Proof.
  intros Hc Hc'. split.
  - clear Hc' colors'. induction colors as [|[[r g] b] colors IH]; [constructor|].
    cbn [forallb valid_color] in Hc.
    apply andb_prop in Hc as [Hc Hcs].
    apply andb_prop in Hc as [Hc Hb]. apply andb_prop in Hc as [Hr Hg].
    unfold colors_f in *. cbn [map map3]. constructor; [|now apply IH].
    unfold coord_x, coord_y, coord_z. cbn [fst snd].
    repeat constructor;
      solve [apply (normalized_unit _ Hr) | apply (normalized_unit _ Hg)
             | apply (normalized_unit _ Hb)].
  - revert colors' Hc'. induction colors as [|[[r g] b] colors IH];
      intros [|[[r' g'] b'] colors'] Hc' E; try discriminate; [reflexivity|].
    cbn [forallb valid_color] in Hc, Hc'.
    apply andb_prop in Hc as [Hc Hcs].
    apply andb_prop in Hc as [Hc Hb]. apply andb_prop in Hc as [Hr Hg].
    apply andb_prop in Hc' as [Hc' Hcs'].
    apply andb_prop in Hc' as [Hc' Hb']. apply andb_prop in Hc' as [Hr' Hg'].
    unfold colors_f in *. cbn [map map3] in E.
    injection E as Er Eg Eb E.
    rewrite (IH Hcs colors' Hcs' E).
    pose proof (proj2 (proj2 (normalized_unit _ Hr))) as Dr.
    pose proof (proj2 (proj2 (normalized_unit _ Hg))) as Dg.
    pose proof (proj2 (proj2 (normalized_unit _ Hb))) as Db.
    pose proof (proj2 (proj2 (normalized_unit _ Hr'))) as Dr'.
    pose proof (proj2 (proj2 (normalized_unit _ Hg'))) as Dg'.
    pose proof (proj2 (proj2 (normalized_unit _ Hb'))) as Db'.
    change (normalized r = normalized r') in Er.
    change (normalized g = normalized g') in Eg.
    change (normalized b = normalized b') in Eb.
    rewrite Er in Dr. rewrite Eg in Dg. rewrite Eb in Db.
    congruence.
Qed.

(** ** The readers *)

Lemma column_has v name :
  (exists xs, column v name = Ok xs /\ length xs = length (data v))
  /\ has_property v name = true
  \/ column v name = Raise KeyError /\ has_property v name = false.
Proof.
  unfold column, has_property. destruct (property_index name (properties v)).
  - left. split; [|reflexivity]. eexists. split; [reflexivity | apply length_map].
  - right. split; reflexivity.
Qed.

Lemma column_stack_length {A : Type} (a b c : list A) :
  length b = length a -> length c = length a ->
  length (column_stack a b c) = length a.
Proof.
  revert b c. induction a as [|x a IH]; intros [|y b] [|z c]; simpl;
    try discriminate; auto.
Qed.

Section Readers.

Variable read : ply_element -> result (list point * list color).
Variables c0 c1 c2 : string.
Variable channel : F32.t -> Z.

(** Both readers have this shape. *)
Hypothesis read_eq : forall v,
  read v
  = let* xs := column v "x" in
    let* ys := column v "y" in
    let* zs := column v "z" in
    let points := column_stack xs ys zs in
    if has_property v c0 then
      let* k0 := column v c0 in
      let* k1 := column v c1 in
      let* k2 := column v c2 in
      Ok (points, column_stack (map channel k0) (map channel k1) (map channel k2))
    else Ok (points, repeat (255, 255, 255) (length points)).

Lemma read_outcome v :
  if readable v c0 c1 c2
  then exists pts cols,
      read v = Ok (pts, cols)
      /\ length pts = length (data v) /\ length cols = length (data v)
      /\ (has_property v c0 = false -> cols = repeat (255, 255, 255) (length (data v)))
  else read v = Raise KeyError.
Proof.
  rewrite read_eq. unfold readable.
  destruct (column_has v "x") as [[(xs & -> & Lx) ->] | [-> ->]]; [|reflexivity].
  destruct (column_has v "y") as [[(ys & -> & Ly) ->] | [-> ->]]; [|reflexivity].
  destruct (column_has v "z") as [[(zs & -> & Lz) ->] | [-> ->]]; [|reflexivity].
  cbn [bind andb].
  assert (Lp : length (column_stack xs ys zs) = length (data v))
    by (rewrite column_stack_length; congruence).
  destruct (column_has v c0) as [[(k0 & -> & L0) ->] | [-> ->]]; cbn [bind negb orb].
  - destruct (column_has v c1) as [[(k1 & -> & L1) ->] | [-> ->]]; [|reflexivity].
    destruct (column_has v c2) as [[(k2 & -> & L2) ->] | [-> ->]]; [|reflexivity].
    cbn [bind andb]. eexists _, _. split; [reflexivity|]. split; [assumption|].
    split; [|discriminate].
    etransitivity; [apply column_stack_length; rewrite !length_map; congruence|].
    now rewrite length_map.
  - eexists _, _. split; [reflexivity|]. split; [assumption|].
    rewrite repeat_length, Lp. auto.
Qed.

End Readers.

(** X10: when the readers fail.  [read_ply] needs the properties [x], [y]
    and [z], and [green] and [blue] as soon as [red] is there; [read_sog]
    needs [x], [y] and [z], and [f_dc_1] and [f_dc_2] as soon as [f_dc_0]
    is there.  With them the reader returns one position and one colour
    per vertex; without one of them it raises the element's lookup error,
    also when the first colour property is there and another is not. *)
Theorem readers_outcome v :
  (if readable v "red" "green" "blue"
   then exists pts cols,
       read_ply v = Ok (pts, cols)
       /\ length pts = length (data v) /\ length cols = length (data v)
   else read_ply v = Raise KeyError)
  /\ (if readable v "f_dc_0" "f_dc_1" "f_dc_2"
      then exists pts cols,
          read_sog v = Ok (pts, cols)
          /\ length pts = length (data v) /\ length cols = length (data v)
      else read_sog v = Raise KeyError).
Proof.
  split.
  - pose proof (read_outcome read_ply "red" "green" "blue" astype_uint8
                             (fun _ => eq_refl) v) as H.
    destruct (readable v "red" "green" "blue"); [|exact H].
    destruct H as (pts & cols & H & Lp & Lc & _). eauto.
  - pose proof (read_outcome read_sog "f_dc_0" "f_dc_1" "f_dc_2" sh_channel
                             (fun _ => eq_refl) v) as H.
    destruct (readable v "f_dc_0" "f_dc_1" "f_dc_2"); [|exact H].
    destruct H as (pts & cols & H & Lp & Lc & _). eauto.
Qed.

(** X11: a file without colours is read as white.  When [x], [y] and [z]
    are there and [red] is not, [read_ply] gives every vertex the colour
    [(255, 255, 255)], whatever other properties the element has; so does
    [read_sog] when [f_dc_0] is not there. *)
Theorem readers_default_white v :
  has_property v "x" = true -> has_property v "y" = true ->
  has_property v "z" = true ->
  (has_property v "red" = false ->
   exists pts,
     read_ply v = Ok (pts, repeat (255, 255, 255) (length (data v)))
     /\ length pts = length (data v))
  /\ (has_property v "f_dc_0" = false ->
      exists pts,
        read_sog v = Ok (pts, repeat (255, 255, 255) (length (data v)))
        /\ length pts = length (data v)).
Proof.
  intros Hx Hy Hz. split; intros Hc.
  - pose proof (read_outcome read_ply "red" "green" "blue" astype_uint8
                             (fun _ => eq_refl) v) as H.
    unfold readable in H. rewrite Hx, Hy, Hz, Hc in H. cbn [andb negb orb] in H.
    destruct H as (pts & cols & H & Lp & _ & Hw).
    rewrite (Hw eq_refl) in H. eauto.
  - pose proof (read_outcome read_sog "f_dc_0" "f_dc_1" "f_dc_2" sh_channel
                             (fun _ => eq_refl) v) as H.
    unfold readable in H. rewrite Hx, Hy, Hz, Hc in H. cbn [andb negb orb] in H.
    destruct H as (pts & cols & H & Lp & _ & Hw).
    rewrite (Hw eq_refl) in H. eauto.
Qed.

Lemma astype_uint8_of_Z c : is_uint8 c = true -> astype_uint8 (F32.of_Z c) = c.
Proof.
  intros H. unfold is_uint8 in H. apply andb_prop in H as [H0 H255].
  apply Z.leb_le in H0, H255.
  assert (Hall : forallb (fun n => astype_uint8 (F32.of_Z (Z.of_nat n)) =? Z.of_nat n)
                         (seq 0 256) = true)
    by (vm_compute; reflexivity).
  rewrite forallb_forall in Hall.
  rewrite <- (Z2Nat.id c) by assumption. apply Z.eqb_eq, Hall, in_seq. lia.
Qed.

Lemma colored_vertex_columns points colors :
  length colors = length points ->
  forallb valid_color colors = true ->
  let d := data (colored_vertex points colors) in
  let z0 := S754_zero false in
  column_stack (map (fun row => nth 0 row z0) d) (map (fun row => nth 1 row z0) d)
               (map (fun row => nth 2 row z0) d) = points
  /\ column_stack (map astype_uint8 (map (fun row => nth 3 row z0) d))
                  (map astype_uint8 (map (fun row => nth 4 row z0) d))
                  (map astype_uint8 (map (fun row => nth 5 row z0) d)) = colors.
Proof.
  unfold colored_vertex. cbn [data]. cbv zeta. revert colors.
  induction points as [|[[x y] z] points IH];
    intros [|[[r g] b] colors] Hlen Hval; try discriminate; [split; reflexivity|].
  cbn [forallb valid_color] in Hval.
  apply andb_prop in Hval as [Hc Hval].
  apply andb_prop in Hc as [Hc Hb]. apply andb_prop in Hc as [Hr Hg].
  injection Hlen as Hlen. destruct (IH colors Hlen Hval) as [IHp IHc].
  cbn [combine map column_stack nth].
  rewrite IHp, IHc, !astype_uint8_of_Z by assumption. split; reflexivity.
Qed.

(** X12: what a PLY file stores is what [read_ply] returns.  On the
    vertex element with the properties [x], [y], [z], [red], [green] and
    [blue], written from [N] positions and [N] 8-bit colours, it returns
    these positions and these colours, unchanged and in order. *)
Theorem read_ply_stored points colors :
  length colors = length points ->
  forallb valid_color colors = true ->
  read_ply (colored_vertex points colors) = Ok (points, colors).
Proof.
  intros Hlen Hval.
  destruct (colored_vertex_columns points colors Hlen Hval) as [Ep Ec].
  cbv zeta in Ep, Ec.
  unfold read_ply, column, has_property.
  change (properties (colored_vertex points colors))
    with ["x"; "y"; "z"; "red"; "green"; "blue"]%string.
  change (property_index "x" _) with (Some 0%nat).
  change (property_index "y" _) with (Some 1%nat).
  change (property_index "z" _) with (Some 2%nat).
  change (property_index "red" _) with (Some 3%nat).
  change (property_index "green" _) with (Some 4%nat).
  change (property_index "blue" _) with (Some 5%nat).
  cbn [bind]. apply f_equal. apply f_equal2; [exact Ep | exact Ec].
Qed.

Lemma astype_uint8_fraction x : unit_fraction x = true -> astype_uint8 x = 0.
Proof.
  unfold unit_fraction. intros H.
  apply andb_prop in H as [H Hlt]. apply andb_prop in H as [Hv Hge].
  destruct x as [s | s | | s m e]; try reflexivity.
  destruct s; [discriminate|].
  destruct (valid_mantissa _ _ _ Hv) as [Hhi Hlo].
  - pose proof (valid_exponent _ _ _ Hv) as He.
    replace (F32.of_Z 1) with (S754_finite false 8388608 (-23)) in Hlt
      by (vm_compute; reflexivity).
    assert (Hle : SFleb (S754_finite false 8388608 (-23)) (S754_finite false m e) = false).
    { destruct (SFleb (S754_finite false 8388608 (-23)) (S754_finite false m e)) eqn:E;
        [|reflexivity].
      pose proof (SFleb_not_ltb _ _ E). congruence. }
    rewrite SFleb_positive in Hle.
    apply orb_false_elim in Hle as [H1 H2]. apply Z.ltb_ge in H1.
    change (2 ^ 23) with 8388608 in Hlo. change (2 ^ 24) with 16777216 in Hhi.
    assert (He' : e < -23).
    { destruct (Z.eq_dec e (-23)) as [-> | Hne]; [|lia].
      change (-23 =? -23) with true in H2. cbn [andb] in H2.
      apply Z.leb_gt in H2. specialize (Hlo ltac:(lia)). lia. }
    unfold astype_uint8, SFtrunc, cond_Zopp.
    rewrite Z.shiftl_div_pow2 by lia.
    assert (H24 : 2 ^ 24 <= 2 ^ (- e)) by (apply Z.pow_le_mono_r; lia).
    change (2 ^ 24) with 16777216 in H24.
    rewrite Z.div_small by lia. reflexivity.
Qed.

Lemma column_stack_zeros (a b c : list F32.t) :
  length b = length a -> length c = length a ->
  forallb unit_fraction a = true -> forallb unit_fraction b = true ->
  forallb unit_fraction c = true ->
  column_stack (map astype_uint8 a) (map astype_uint8 b) (map astype_uint8 c)
  = repeat (0, 0, 0) (length a).
Proof.
  revert b c. induction a as [|x a IH]; intros [|y b] [|z c] Lb Lc Ha Hb Hc;
    try discriminate; [reflexivity|].
  cbn [forallb] in *.
  apply andb_prop in Ha as [Hx Ha]. apply andb_prop in Hb as [Hy Hb].
  apply andb_prop in Hc as [Hz Hc].
  cbn [map column_stack length repeat].
  rewrite !astype_uint8_fraction by assumption.
  f_equal. apply IH; auto.
Qed.

(** X13: [read_ply] cuts colours to integers and does not scale them.  A
    file whose [red], [green] and [blue] are floats in [[0, 1)] is read
    with every colour [(0, 0, 0)]. *)
Theorem read_ply_float_colors v red green blue :
  has_property v "x" = true -> has_property v "y" = true ->
  has_property v "z" = true ->
  column v "red" = Ok red -> column v "green" = Ok green ->
  column v "blue" = Ok blue ->
  forallb unit_fraction (red ++ green ++ blue) = true ->
  exists pts,
    read_ply v = Ok (pts, repeat (0, 0, 0) (length (data v)))
    /\ length pts = length (data v).
Proof.
  intros Hx Hy Hz Hr Hg Hb Hfrac.
  rewrite !forallb_app in Hfrac.
  apply andb_prop in Hfrac as [Fr Fgb]. apply andb_prop in Fgb as [Fg Fb].
  unfold read_ply.
  destruct (column_has v "x") as [[(xs & -> & Lx) _] | [_ E]]; [|congruence].
  destruct (column_has v "y") as [[(ys & -> & Ly) _] | [_ E]]; [|congruence].
  destruct (column_has v "z") as [[(zs & -> & Lz) _] | [_ E]]; [|congruence].
  destruct (column_has v "red") as [[(red' & Hr' & Lr) ->] | [E _]]; [|congruence].
  destruct (column_has v "green") as [[(green' & Hg' & Lg) _] | [E _]]; [|congruence].
  destruct (column_has v "blue") as [[(blue' & Hb' & Lb) _] | [E _]]; [|congruence].
  rewrite Hr, Hg, Hb. cbn [bind].
  assert (red' = red) by congruence. assert (green' = green) by congruence.
  assert (blue' = blue) by congruence. subst.
  rewrite column_stack_zeros by congruence. rewrite Lr.
  eexists. split; [reflexivity|].
  etransitivity; [apply column_stack_length; congruence | assumption].
Qed.

(** ** Strings *)

Lemma list_of_append (a b : string) :
  list_ascii_of_string (a ++ b) = list_ascii_of_string a ++ list_ascii_of_string b.
Proof. induction a as [|c a IH]; cbn; [reflexivity | now rewrite IH]. Qed.

Lemma string_length_append (a b : string) :
  String.length (a ++ b) = (String.length a + String.length b)%nat.
Proof. induction a as [|c a IH]; cbn; [reflexivity | now rewrite IH]. Qed.

Lemma substring_all (s : string) : substring 0 (String.length s) s = s.
Proof. induction s as [|c s IH]; cbn; [reflexivity | now rewrite IH]. Qed.

Lemma substring_prefix (a b : string) : substring 0 (String.length a) (a ++ b) = a.
Proof.
  induction a as [|c a IH]; cbn; [now destruct b | now rewrite IH].
Qed.

Lemma substring_suffix (a b : string) :
  substring (String.length a) (String.length b) (a ++ b) = b.
Proof. induction a as [|c a IH]; cbn; [apply substring_all | exact IH]. Qed.

Lemma substring_split (n : nat) (s : string) :
  (n <= String.length s)%nat ->
  s = (substring 0 n s ++ substring n (String.length s - n) s)%string.
Proof.
  revert s. induction n as [|n IH]; intros s Hn.
  - rewrite Nat.sub_0_r, substring_all. now destruct s.
  - destruct s as [|c s]; [cbn in Hn; lia|].
    cbn in Hn. cbn. f_equal. apply IH. lia.
Qed.

Lemma endswith_spec (s suf : string) :
  endswith s suf = true <-> exists a, s = (a ++ suf)%string.
Proof.
  unfold endswith. split.
  - intros H. apply andb_prop in H as [Hlen E].
    apply Nat.leb_le in Hlen. apply String.eqb_eq in E.
    exists (substring 0 (String.length s - String.length suf) s).
    pose proof (@substring_split (String.length s - String.length suf)%nat s
                                 ltac:(lia)) as H.
    replace (String.length s - (String.length s - String.length suf))%nat
      with (String.length suf) in H by lia.
    now rewrite E in H.
  - intros (a & ->). rewrite string_length_append.
    replace (String.length a + String.length suf - String.length suf)%nat
      with (String.length a) by lia.
    rewrite substring_suffix, String.eqb_refl, andb_true_r.
    apply Nat.leb_le. lia.
Qed.

Lemma drop_last_append (a suf : string) :
  drop_last (String.length suf) (a ++ suf) = a.
Proof.
  unfold drop_last. rewrite string_length_append.
  replace (String.length a + String.length suf - String.length suf)%nat
    with (String.length a) by lia.
  apply substring_prefix.
Qed.

Lemma lower_append (a b : string) : lower (a ++ b) = (lower a ++ lower b)%string.
Proof. induction a as [|c a IH]; cbn [append lower]; [reflexivity | now rewrite IH]. Qed.

(** What holds of a digit, character by character. *)
Lemma digit_facts c :
  is_digit c = true ->
  lower_ascii c = c
  /\ is_space c = false
  /\ (forall l, split_sign (c :: l) = (false, c :: l))
  /\ Forall (fun x => Ascii.eqb c x = false)
            ["_"; "."; "b"; "k"; "m"; "g"; "i"; "n"; "e"; "/"]%char.
Proof.
  destruct c as [[|] [|] [|] [|] [|] [|] [|] [|]]; intros H;
    try discriminate H; repeat split; repeat constructor.
Qed.

Lemma all_digits_cons c s :
  all_digits (String c s) = true <-> is_digit c = true /\ all_digits s = true.
Proof. unfold all_digits. cbn. apply andb_true_iff. Qed.

Lemma lower_digits s : all_digits s = true -> lower s = s.
Proof.
  induction s as [|c s IH]; [reflexivity|].
  intros H. apply all_digits_cons in H as [Hc Hs].
  cbn [lower]. rewrite (IH Hs). f_equal. apply (digit_facts c Hc).
Qed.

(** A non-empty digit string ends in a digit. *)
Lemma digits_last s :
  all_digits s = true -> s <> EmptyString ->
  exists s' d, s = (s' ++ String d EmptyString)%string /\ is_digit d = true.
Proof.
  induction s as [|c s IH]; [congruence|]. intros H _.
  apply all_digits_cons in H as [Hc Hs].
  destruct s as [|c' s].
  - exists EmptyString, c. auto.
  - destruct (IH Hs ltac:(discriminate)) as (s' & d & E & Hd).
    exists (String c s'), d. cbn [append]. now rewrite <- E.
Qed.

(** A string that ends in a digit has no suffix that ends in a letter. *)
Lemma endswith_digit s d suf x :
  is_digit d = true -> is_digit x = false ->
  endswith (s ++ String d EmptyString) (suf ++ String x EmptyString) = false.
Proof.
  intros Hd Hx. destruct (endswith _ _) eqn:E; [|reflexivity].
  apply endswith_spec in E as (a & E).
  apply (f_equal list_ascii_of_string) in E.
  rewrite !list_of_append in E. cbn [list_ascii_of_string] in E.
  rewrite app_assoc in E. apply app_inj_tail in E as [_ ->]. congruence.
Qed.


(** ** The dispatch on the extension *)

Lemma split_slash_nonempty s : split_slash s <> [].
Proof.
  destruct s as [|c s]; cbn [split_slash]; [discriminate|].
  destruct (Ascii.eqb c "/"); [discriminate|].
  destruct (split_slash s); discriminate.
Qed.

Lemma split_slash_app (a b : string) :
  split_slash (a ++ String "/" b) = split_slash a ++ split_slash b.
Proof.
  induction a as [|c a IH]; [reflexivity|].
  cbn [append split_slash]. rewrite IH.
  destruct (Ascii.eqb c "/"); [reflexivity|].
  pose proof (split_slash_nonempty a) as Hne.
  destruct (split_slash a); [congruence | reflexivity].
Qed.

Lemma contains_cons c x s :
  contains c (String x s) = Ascii.eqb c x || contains c s.
Proof. reflexivity. Qed.

Lemma contains_append c (a b : string) :
  contains c (a ++ b) = contains c a || contains c b.
Proof. unfold contains. now rewrite list_of_append, existsb_app. Qed.

Lemma split_slash_plain s : contains "/" s = false -> split_slash s = [s].
Proof.
  induction s as [|c s IH]; [reflexivity|].
  rewrite contains_cons. intros H. apply orb_false_elim in H as [Hc Hs].
  cbn [split_slash]. rewrite Ascii.eqb_sym, Hc, (IH Hs). reflexivity.
Qed.

Lemma rfind_dot_none s : contains "." s = false -> rfind_dot s = None.
Proof.
  induction s as [|c s IH]; [reflexivity|].
  rewrite contains_cons. intros H. apply orb_false_elim in H as [Hc Hs].
  cbn [rfind_dot]. rewrite (IH Hs), Ascii.eqb_sym, Hc. reflexivity.
Qed.

Lemma rfind_dot_last (stem ext : string) :
  contains "." ext = false ->
  rfind_dot (stem ++ String "." ext) = Some (String.length stem).
Proof.
  intros Hext. induction stem as [|c stem IH].
  - cbn [append rfind_dot String.length]. now rewrite (@rfind_dot_none ext Hext).
  - cbn [append rfind_dot String.length]. now rewrite IH.
Qed.

(** The name of a path that ends in a component without slashes. *)
Lemma path_name_last (filepath dir name : string) :
  filepath = name \/ filepath = (dir ++ String "/" name)%string ->
  contains "/" name = false -> name <> EmptyString -> name <> "."%string ->
  path_name filepath = name.
Proof.
  intros Hpath Hslash Hne Hdot. unfold path_name.
  assert (Hkeep : negb (String.eqb name "") && negb (String.eqb name ".") = true).
  { apply andb_true_intro. split; apply negb_true_iff, String.eqb_neq; assumption. }
  destruct Hpath as [-> | ->].
  - rewrite (@split_slash_plain name Hslash). cbn [filter]. now rewrite Hkeep.
  - rewrite split_slash_app, (@split_slash_plain name Hslash), filter_app.
    cbn [filter]. rewrite Hkeep. apply last_last.
Qed.

(** The suffix of a path whose last component is [stem.ext]. *)
Lemma suffix_last (filepath dir stem ext : string) :
  filepath = (stem ++ String "." ext)%string
  \/ filepath = (dir ++ String "/" (stem ++ String "." ext))%string ->
  stem <> EmptyString -> ext <> EmptyString ->
  contains "/" stem = false -> contains "/" ext = false ->
  contains "." ext = false ->
  suffix filepath = String "." ext.
Proof.
  intros Hpath Hstem Hext Hs1 Hs2 Hdot. unfold suffix.
  rewrite (@path_name_last filepath dir (stem ++ String "." ext)); try assumption.
  - rewrite (@rfind_dot_last stem ext Hdot), string_length_append.
    cbn [String.length].
    assert (H1 : (0 <? String.length stem)%nat = true).
    { apply Nat.ltb_lt. destruct stem; [congruence | cbn; lia]. }
    assert (H2 : (String.length stem
                  <? String.length stem + S (String.length ext) - 1)%nat = true).
    { apply Nat.ltb_lt. destruct ext; [congruence | cbn; lia]. }
    rewrite H1, H2. cbn [andb].
    replace (String.length stem + S (String.length ext) - String.length stem)%nat
      with (String.length (String "." ext)) by (cbn; lia).
    apply substring_suffix.
  - rewrite contains_append, contains_cons, Hs1, Hs2. reflexivity.
  - destruct stem; [congruence | discriminate].
  - destruct stem as [|c [|c' stem]]; [congruence | | discriminate].
    destruct ext; [congruence | discriminate].
Qed.

Section Dispatch.

Variable PlyData_read : string -> result PlyData.

(** X14: [read_point_cloud] goes by the last extension of the file name,
    whatever its case.  For a path whose last component is [stem.ext]
    it reads the file as PLY when [ext] is [ply] in any mix of cases, as
    SOG when it is [sog], and otherwise raises the error for an
    unsupported format without opening the file; [.glb], which the viewer
    loads, is among the formats refused. *)
Theorem read_point_cloud_dispatch filepath dir stem ext :
  filepath = (stem ++ String "." ext)%string
  \/ filepath = (dir ++ String "/" (stem ++ String "." ext))%string ->
  stem <> EmptyString -> ext <> EmptyString ->
  contains "/" stem = false -> contains "/" ext = false ->
  contains "." ext = false ->
  read_point_cloud PlyData_read filepath
  = if String.eqb (lower ext) "ply" then
      of_result (let* v := read_vertex PlyData_read filepath in read_ply v)
    else if String.eqb (lower ext) "sog" then
      of_result (let* v := read_vertex PlyData_read filepath in read_sog v)
    else Throw (UnsupportedFormat (String "." (lower ext))).
Proof.
  intros Hpath Hstem Hext Hs1 Hs2 Hdot. unfold read_point_cloud.
  rewrite (@suffix_last filepath dir stem ext Hpath Hstem Hext Hs1 Hs2 Hdot).
  cbn [lower]. change (lower_ascii ".") with "."%char.
  cbn [String.eqb]. change (Ascii.eqb "." ".") with true. cbn [andb].
  reflexivity.
Qed.

End Dispatch.

(** ** Whole numbers as floats *)

Lemma digits2_pos_shift p k :
  digits2_pos (Pos.iter xO p k) = (digits2_pos p + k)%positive.
Proof.
  induction k as [|k IH] using Pos.peano_ind.
  - cbn [Pos.iter digits2_pos]. now rewrite Pos.add_1_r.
  - rewrite Pos.iter_succ. cbn [digits2_pos]. rewrite IH. now rewrite Pos.add_succ_r.
Qed.

Lemma Zpos_shift p k : Zpos (Pos.iter xO p k) = Zpos p * 2 ^ Zpos k.
Proof.
  induction k as [|k IH] using Pos.peano_ind.
  - cbn [Pos.iter]. change (2 ^ 1) with 2. lia.
  - rewrite Pos.iter_succ, Pos2Z.inj_succ, Z.pow_succ_r by lia.
    change (Zpos (Pos.iter xO p k)~0) with (2 * Zpos (Pos.iter xO p k)).
    rewrite IH. lia.
Qed.

(** A mantissa of 53 bits at an exponent in range is rounded to itself. *)
Lemma round_aux_normal s q e :
  Zpos (digits2_pos q) = 53 -> -1074 <= e <= 971 ->
  binary_round_aux F64.prec F64.emax s (Zpos q) e loc_Exact = S754_finite s q e.
Proof.
  intros Hq He.
  assert (Hs : shr_fexp F64.prec F64.emax (Zpos q) e loc_Exact
               = ({| shr_m := Zpos q; shr_r := false; shr_s := false |}, e)).
  { unfold shr_fexp, fexp, emin, F64.prec, F64.emax. cbn [Zdigits2 shr_record_of_loc].
    rewrite Hq. replace (Z.max (53 + e - 53) (3 - 1024 - 53) - e) with 0 by lia.
    reflexivity. }
  unfold binary_round_aux. rewrite Hs.
  cbn [shr_m loc_of_shr_record round_nearest_even]. rewrite Hs. cbn [shr_m].
  unfold F64.prec, F64.emax.
  destruct (Z.leb_spec e (1024 - 53)); [reflexivity | lia].
Qed.

(** So is its product by [2^52], at the exponent 52 higher. *)
Lemma round_aux_shift52 s q e :
  Zpos (digits2_pos q) = 53 -> -1074 <= e + 52 <= 971 ->
  binary_round_aux F64.prec F64.emax s (Zpos (q * 4503599627370496)) e loc_Exact
  = S754_finite s q (e + 52).
Proof.
  intros Hq He. rewrite Pos.mul_comm.
  cbn [Pos.mul].
  set (M := (q~0~0~0~0~0~0~0~0~0~0~0~0~0~0~0~0~0~0~0~0~0~0~0~0~0~0~0~0~0~0~0~0~0~0~0~0~0~0~0~0~0~0~0~0~0~0~0~0~0~0~0~0)%positive).
  assert (Hd : Zpos (digits2_pos M) = 105).
  { subst M. cbn [digits2_pos]. rewrite !Pos2Z.inj_succ, Hq. reflexivity. }
  assert (Hs : shr_fexp F64.prec F64.emax (Zpos M) e loc_Exact
               = ({| shr_m := Zpos q; shr_r := false; shr_s := false |}, e + 52)).
  { unfold shr_fexp, fexp, emin, F64.prec, F64.emax. cbn [Zdigits2 shr_record_of_loc].
    rewrite Hd. replace (Z.max (105 + e - 53) (3 - 1024 - 53) - e) with 52 by lia.
    subst M. reflexivity. }
  assert (Hs' : shr_fexp F64.prec F64.emax (Zpos q) (e + 52) loc_Exact
                = ({| shr_m := Zpos q; shr_r := false; shr_s := false |}, e + 52)).
  { unfold shr_fexp, fexp, emin, F64.prec, F64.emax. cbn [Zdigits2 shr_record_of_loc].
    rewrite Hq.
    replace (Z.max (53 + (e + 52) - 53) (3 - 1024 - 53) - (e + 52)) with 0 by lia.
    reflexivity. }
  unfold binary_round_aux. rewrite Hs.
  cbn [shr_m loc_of_shr_record round_nearest_even]. rewrite Hs'. cbn [shr_m].
  unfold F64.prec, F64.emax.
  destruct (Z.leb_spec (e + 52) (1024 - 53)); [reflexivity | lia].
Qed.

(** A positive integer below [2^53] is a float: its 53-bit mantissa is the
    integer shifted left by [t] bits, at the exponent [-t]. *)
Lemma f64_of_Z_exact p :
  Zpos p < 2 ^ 53 ->
  exists q t,
    F64.of_Z (Zpos p) = S754_finite false q (- t)
    /\ Zpos (digits2_pos q) = 53 /\ 0 <= t <= 52 /\ Zpos q = Zpos p * 2 ^ t.
Proof.
  intros Hp. pose proof (digits2_pos_bounds p) as [Hlo Hhi].
  set (d := digits2_pos p) in *.
  assert (Hd : Zpos d <= 53).
  { destruct (Z.le_gt_cases (Zpos d) 53) as [H | H]; [assumption|].
    assert (2 ^ 53 <= 2 ^ (Zpos d - 1)) by (apply Z.pow_le_mono_r; lia). lia. }
  unfold F64.of_Z, binary_normalize, binary_round, shl_align, fexp, emin,
    F64.prec, F64.emax.
  fold d.
  replace (Z.max (Zpos d + 0 - 53) (3 - 1024 - 53) - 0) with (Zpos d - 53) by lia.
  replace (Z.max (Zpos d + 0 - 53) (3 - 1024 - 53)) with (Zpos d - 53) by lia.
  destruct (Zpos d - 53) as [|k|k] eqn:E; [| lia |].
  - exists p, 0. change (- 0) with 0.
    split; [apply (@round_aux_normal false p 0); fold d; lia|].
    fold d. repeat split; try lia.
  - assert (Hk : Zpos k = 53 - Zpos d) by lia.
    exists (Pos.iter xO p k), (Zpos k).
    split.
    + change (- Zpos k) with (Zneg k).
      apply round_aux_normal; [|lia].
      rewrite digits2_pos_shift. fold d. lia.
    + rewrite digits2_pos_shift, Zpos_shift. fold d. repeat split; lia.
Qed.

(** [int(float(n) * 2^j)] is [n * 2^j] for a whole number [n] below
    [2^53]: neither the conversion nor the product rounds. *)
Lemma int_of_scaled n j :
  0 <= n < 2 ^ 53 -> 0 <= j <= 52 ->
  int_of_float (F64.mul (F64.of_Z n) (S754_finite false 4503599627370496 (j - 52)))
  = Return (n * 2 ^ j).
Proof.
  intros Hn Hj. destruct n as [|p|p]; [reflexivity | | lia].
  destruct (@f64_of_Z_exact p) as (q & t & -> & Hq & Ht & Eq); [lia|].
  unfold F64.mul, SFmul. cbn [xorb].
  replace (- t + (j - 52)) with (j - t - 52) by lia.
  rewrite (@round_aux_shift52 false q (j - t - 52)) by (assumption || lia).
  unfold int_of_float, py_int, SFtrunc, cond_Zopp. f_equal.
  replace (j - t - 52 + 52) with (j - t) by lia. rewrite Eq.
  destruct (Z.le_gt_cases t j) as [H | H].
  - rewrite Z.shiftl_mul_pow2 by lia.
    rewrite <- Z.mul_assoc, <- Z.pow_add_r by lia. do 2 f_equal. lia.
  - rewrite Z.shiftl_div_pow2 by lia.
    replace t with (j + (t - j)) at 1 by lia.
    rewrite Z.pow_add_r by lia. replace (- (j - t)) with (t - j) by lia.
    rewrite Z.mul_assoc, Z.div_mul; [reflexivity|].
    apply Z.pow_nonzero; lia.
Qed.

(** ** [parse_size] *)

Lemma digit_not c x :
  is_digit c = true ->
  In x ["_"; "."; "b"; "k"; "m"; "g"; "i"; "n"; "e"; "/"]%char ->
  Ascii.eqb c x = false.
Proof.
  intros Hc Hx. destruct (digit_facts c Hc) as (_ & _ & _ & H).
  rewrite Forall_forall in H. now apply H.
Qed.

Lemma digit_value_range c : is_digit c = true -> 0 <= digit_value c <= 9.
Proof.
  destruct c as [[|] [|] [|] [|] [|] [|] [|] [|]]; intros H;
    try discriminate H; vm_compute; split; congruence.
Qed.

Lemma decimal_from_nonneg l : forall a,
  0 <= a -> forallb is_digit l = true ->
  0 <= fold_left (fun a c => 10 * a + digit_value c) l a.
Proof.
  induction l as [|c l IH]; intros a Ha H; [assumption|].
  cbn [forallb] in H. apply andb_prop in H as [Hc Hl].
  cbn [fold_left]. apply IH; [|assumption].
  pose proof (digit_value_range c Hc). lia.
Qed.

Lemma decimal_nonneg l : forallb is_digit l = true -> 0 <= decimal l.
Proof. apply decimal_from_nonneg. lia. Qed.

Lemma lstrip_digits l : forallb is_digit l = true -> lstrip l = l.
Proof.
  destruct l as [|c l]; [reflexivity|]. cbn [forallb lstrip].
  intros H. apply andb_prop in H as [Hc _].
  destruct (digit_facts c Hc) as (_ & -> & _). reflexivity.
Qed.

Lemma forallb_rev {A : Type} (f : A -> bool) (l : list A) :
  forallb f l = true -> forallb f (rev l) = true.
Proof.
  rewrite !forallb_forall. intros H x Hx. apply H. now apply in_rev.
Qed.

Lemma strip_digits l : forallb is_digit l = true -> strip l = l.
Proof.
  intros H. unfold strip.
  rewrite (lstrip_digits l H), (lstrip_digits (rev l) (forallb_rev _ _ H)).
  apply rev_involutive.
Qed.

Lemma span_all_digits l : forallb is_digit l = true -> span_digits l = (l, []).
Proof.
  induction l as [|c l IH]; [reflexivity|]. cbn [forallb span_digits].
  intros H. apply andb_prop in H as [-> Hl]. now rewrite (IH Hl).
Qed.

Lemma remove_underscores_digits l : forall prev,
  Ascii.eqb prev "_" = false -> forallb is_digit l = true ->
  remove_underscores prev l = Some l.
Proof.
  induction l as [|c l IH]; intros prev Hprev H; cbn [remove_underscores].
  - now rewrite Hprev.
  - cbn [forallb] in H. apply andb_prop in H as [Hc Hl].
    assert (Hu : Ascii.eqb c "_" = false) by (apply digit_not; [assumption | cbn; auto 12]).
    rewrite Hu, Hc, andb_false_r. now rewrite (IH c Hu Hl).
Qed.

Lemma scan_int_digits l :
  forallb is_digit l = true -> scan_int false l = Some (l, []).
Proof.
  induction l as [|c l IH]; [reflexivity|]. cbn [forallb scan_int].
  intros H. apply andb_prop in H as [-> Hl]. now rewrite (IH Hl).
Qed.

Lemma f64_of_decimal_0 d : 0 <= d -> f64_of_decimal d 0 = F64.of_Z d.
Proof.
  intros Hd. unfold f64_of_decimal. destruct (Z.eqb_spec d 0) as [-> | Hne];
    [reflexivity|].
  change (0 <=? 0) with true. cbv iota. f_equal. change (10 ^ 0) with 1. lia.
Qed.

Lemma list_of_digits_nonempty s :
  s <> EmptyString -> exists c l, list_ascii_of_string s = c :: l.
Proof. destruct s as [|c s]; [congruence|]. intros _. cbn. eauto. Qed.

(** [float()] and [int()] on a string of digits. *)
Lemma float_of_digits s :
  all_digits s = true -> s <> EmptyString ->
  float_of_string s = Return (F64.of_Z (number s)).
Proof.
  unfold all_digits, number, float_of_string. intros H Hne.
  destruct (list_of_digits_nonempty Hne) as (c & l & E). rewrite E in *.
  rewrite (strip_digits _ H).
  rewrite (remove_underscores_digits _ "000" eq_refl H).
  pose proof H as H'. cbn [forallb] in H'. apply andb_prop in H' as [Hc Hl].
  destruct (digit_facts c Hc) as (Hlow & _ & Hsign & _).
  rewrite Hsign. unfold parse_float_abs.
  cbn [string_of_list_ascii lower]. rewrite Hlow.
  cbn [String.eqb]. rewrite !(digit_not c) by (solve [assumption | cbn; auto 12]).
  cbn [andb orb]. rewrite (span_all_digits _ H).
  cbn [app length Z.of_nat]. rewrite app_nil_r.
  change (- 0) with 0. rewrite f64_of_decimal_0 by now apply decimal_nonneg.
  reflexivity.
Qed.

Lemma int_of_digits s :
  all_digits s = true -> s <> EmptyString ->
  (String.length s <= int_max_str_digits)%nat ->
  int_of_string s = Return (number s).
Proof.
  unfold all_digits, number, int_of_string. intros H Hne Hlen.
  assert (Hl : length (list_ascii_of_string s) = String.length s).
  { clear. induction s as [|c s IH]; cbn; [reflexivity | now rewrite IH]. }
  rewrite <- Hl in Hlen. clear Hl.
  destruct (list_of_digits_nonempty Hne) as (c & l & E). rewrite E in *.
  rewrite (lstrip_digits _ H).
  pose proof H as H'. cbn [forallb] in H'. apply andb_prop in H' as [Hc _].
  destruct (digit_facts c Hc) as (_ & _ & Hsign & _).
  rewrite Hsign, (digit_not c) by (solve [assumption | cbn; auto 12]).
  rewrite (scan_int_digits _ H). cbn [lstrip].
  destruct (Nat.ltb_spec int_max_str_digits (length (c :: l))); [lia | reflexivity].
Qed.

Lemma append_assoc (a b c : string) : ((a ++ b) ++ c = a ++ (b ++ c))%string.
Proof. induction a as [|x a IH]; cbn; [reflexivity | now rewrite IH]. Qed.

Lemma app_inj_length {A : Type} (l1 l2 r1 r2 : list A) :
  length r1 = length r2 -> l1 ++ r1 = l2 ++ r2 -> r1 = r2.
Proof.
  intros Hlen E.
  assert (Hl : length l1 = length l2).
  { apply (f_equal (@length A)) in E. rewrite !length_app in E. lia. }
  revert l2 Hl E. induction l1 as [|x l1 IH]; intros [|y l2] Hl E;
    try discriminate; [exact E|].
  injection E as _ E. injection Hl as Hl. eauto.
Qed.

(** Endings of the same length that differ. *)
Lemma endswith_other a b c :
  String.length b = String.length c -> b <> c -> endswith (a ++ b) c = false.
Proof.
  intros Hlen Hne. destruct (endswith _ _) eqn:E; [|reflexivity].
  apply endswith_spec in E as (a' & E).
  apply (f_equal list_ascii_of_string) in E. rewrite !list_of_append in E.
  apply app_inj_length in E.
  - exfalso. apply Hne.
    rewrite <- (string_of_list_ascii_of_string b), <- (string_of_list_ascii_of_string c).
    now rewrite E.
  - clear -Hlen.
    assert (L : forall s, length (list_ascii_of_string s) = String.length s)
      by (induction s as [|x s IH]; cbn; [reflexivity | now rewrite IH]).
    now rewrite !L.
Qed.

(** X15: [parse_size] on a whole number with a unit.  For a string of
    digits of value [n] below [2^53] followed by [kb], [mb], [gb] or [b],
    in any mix of cases, it returns [n] times 1024, [1024^2], [1024^3] or
    1: going through a float loses nothing there. *)
Theorem parse_size_unit n u m :
  all_digits n = true -> n <> EmptyString -> number n < 2 ^ 53 ->
  In (lower u, m) units ->
  parse_size (n ++ u) = Return (number n * m).
Proof.
  intros Hd Hne Hn Hu.
  pose proof (decimal_nonneg _ Hd) as H0. fold (number n) in H0.
  destruct (digits_last Hd Hne) as (n' & d & En & Dd).
  unfold parse_size. rewrite lower_append, (lower_digits _ Hd).
  unfold units in *. cbn [In] in Hu.
  destruct Hu as [Hu | [Hu | [Hu | [Hu | []]]]]; injection Hu as <- <-;
    cbn [parse_size_from].
  - rewrite (proj2 (endswith_spec (n ++ "kb") "kb")) by eauto.
    rewrite drop_last_append, (float_of_digits Hd Hne). cbn [obind].
    change (F64.of_Z 1024) with (S754_finite false 4503599627370496 (10 - 52)).
    rewrite int_of_scaled by lia. reflexivity.
  - rewrite (@endswith_other n "mb" "kb") by (reflexivity || discriminate).
    rewrite (proj2 (endswith_spec (n ++ "mb") "mb")) by eauto.
    rewrite drop_last_append, (float_of_digits Hd Hne). cbn [obind].
    change (F64.of_Z (1024 ^ 2)) with (S754_finite false 4503599627370496 (20 - 52)).
    rewrite int_of_scaled by lia. reflexivity.
  - rewrite (@endswith_other n "gb" "kb") by (reflexivity || discriminate).
    rewrite (@endswith_other n "gb" "mb") by (reflexivity || discriminate).
    rewrite (proj2 (endswith_spec (n ++ "gb") "gb")) by eauto.
    rewrite drop_last_append, (float_of_digits Hd Hne). cbn [obind].
    change (F64.of_Z (1024 ^ 3)) with (S754_finite false 4503599627370496 (30 - 52)).
    rewrite int_of_scaled by lia. reflexivity.
  - assert (Hnk : forall x, is_digit x = false ->
                            endswith (n ++ "b") (String x "b") = false).
    { intros x Hx. rewrite En, append_assoc. cbn [append].
      apply endswith_other; [reflexivity|].
      intros E. injection E as ->. congruence. }
    rewrite !Hnk by reflexivity.
    rewrite (proj2 (endswith_spec (n ++ "b") "b")) by eauto.
    rewrite drop_last_append, (float_of_digits Hd Hne). cbn [obind].
    change (F64.of_Z 1) with (S754_finite false 4503599627370496 (0 - 52)).
    rewrite int_of_scaled by lia. reflexivity.
Qed.

(** X16: [parse_size] on a whole number of bytes without a unit.  A
    string of at most 4300 digits is returned as its value, of whatever
    size: no float is involved. *)
Theorem parse_size_plain n :
  all_digits n = true -> n <> EmptyString ->
  (String.length n <= int_max_str_digits)%nat ->
  parse_size n = Return (number n).
Proof.
  intros Hd Hne Hlen. unfold parse_size. rewrite (lower_digits _ Hd).
  destruct (digits_last Hd Hne) as (n' & d & En & Dd).
  assert (Hno : forall suf, endswith n (suf ++ "b")%string = false).
  { intros suf. rewrite En. now apply endswith_digit. }
  pose proof (Hno "k"%string) as Hk. pose proof (Hno "m"%string) as Hm.
  pose proof (Hno "g"%string) as Hg. pose proof (Hno ""%string) as Hb.
  cbn [append] in Hk, Hm, Hg, Hb.
  unfold units. cbn [parse_size_from]. rewrite Hk, Hm, Hg, Hb.
  now apply int_of_digits.
Qed.

(** ** The command *)

Lemma int_of_string_throws s e : int_of_string s = Throw e -> e = ValueError.
Proof.
  unfold int_of_string.
  destruct (split_sign _) as [neg l].
  destruct (match l with [] => false | c :: _ => Ascii.eqb c "_" end);
    [congruence|].
  destruct (scan_int false l) as [[ds rest]|]; [|congruence].
  destruct ds; [congruence|]. destruct (lstrip rest); [|congruence].
  destruct (_ <? _)%nat; congruence.
Qed.

Lemma float_of_string_throws s e : float_of_string s = Throw e -> e = ValueError.
Proof.
  unfold float_of_string.
  destruct (strip _); [congruence|].
  destruct (remove_underscores _ _); [|congruence].
  destruct (split_sign _) as [neg l']. destruct (parse_float_abs l'); congruence.
Qed.

Lemma int_of_float_throws x e :
  int_of_float x = Throw e -> e = ValueError \/ e = OverflowError.
Proof. destruct x; cbn; intros H; try discriminate; injection H as <-; auto. Qed.

Lemma parse_size_throws s e :
  parse_size s = Throw e -> e = ValueError \/ e = OverflowError.
Proof.
  unfold parse_size. generalize (lower s) as t. intros t.
  induction units as [|[suf m] us IH]; cbn [parse_size_from].
  - intros H. left. eapply int_of_string_throws; eauto.
  - destruct (endswith t suf); [|exact IH].
    destruct (float_of_string _) eqn:E; cbn [obind].
    + apply int_of_float_throws.
    + intros H. injection H as <-. left. eapply float_of_string_throws; eauto.
Qed.

Section Command.

Variable PlyData_read : string -> result PlyData.
Variable argsort : list Z -> list nat.
Variable pow_third : Z -> F64.t.
Variable tmp_name : string.
Variable glb_size : GLTF2 -> Z.

Lemma read_point_cloud_throws filepath e :
  read_point_cloud PlyData_read filepath = Throw e -> e <> UsageError.
Proof.
  unfold read_point_cloud, of_result.
  destruct (String.eqb _ ".ply").
  - destruct (let* v := _ in read_ply v); intros H; [discriminate|].
    injection H as <-. discriminate.
  - destruct (String.eqb _ ".sog").
    + destruct (let* v := _ in read_sog v); intros H; [discriminate|].
      injection H as <-. discriminate.
    + intros H. injection H as <-. discriminate.
Qed.

Lemma size_argument_throws size e :
  size_argument size = Throw e -> e = ValueError \/ e = OverflowError.
Proof.
  unfold size_argument. destruct size as [s|]; [|discriminate].
  destruct (String.eqb s ""); [discriminate|].
  destruct (parse_size s) eqn:E; cbn [obind]; [discriminate|].
  intros H. injection H as <-. eapply parse_size_throws; eauto.
Qed.

(** X17: the usage error of [main].  It is raised exactly when [--points]
    is missing or 0 and [--size] is missing or empty, and then nothing has
    been read, written or printed.  So [--points 0] alone is a usage
    error. *)
Theorem main_usage_error tool input_file output points size verbose w :
  (given_points points = false -> given_size size = false ->
   main PlyData_read argsort pow_third tmp_name tool glb_size
        input_file output points size verbose w
   = (Throw UsageError, w))
  /\ (fst (main PlyData_read argsort pow_third tmp_name tool glb_size
                input_file output points size verbose w)
      = Throw UsageError ->
      given_points points = false /\ given_size size = false).
Proof.
  unfold main. split.
  - intros -> ->. reflexivity.
  - destruct (given_points points), (given_size size); cbn [negb andb]; auto;
      intros H; exfalso; revert H;
      unfold cli_bind, cli_lift, cli_io, cli_ret, echo, of_result;
      (destruct (read_point_cloud PlyData_read input_file) as [[pts cols]|e] eqn:Er;
       [|cbn [fst]; intros H; injection H as ->;
         now apply read_point_cloud_throws in Er]);
      (destruct (size_argument size) as [t|e] eqn:Es;
       [|destruct verbose; cbn [fst]; intros H; injection H as ->;
         apply size_argument_throws in Es; destruct Es; discriminate]);
      destruct verbose;
      (destruct (downsample_to_target argsort pow_third pts cols points t)
         as [[pts' cols']|e]; [|cbn [fst]; discriminate]);
      (destruct (export_glb_with_draco tmp_name tool glb_size pts' cols' output _)
         as [[sz|e] fs']; cbn [fst]; discriminate).
Qed.

(** X18: [--points] comes first.  When a point count is given, the value
    of [--size] changes nothing as long as it can be parsed: with any two
    sizes that parse, and with no size at all when the count is not 0,
    [main] does the same.  A count of 0 with a size passes as the target
    count 0. *)
Theorem main_points_first tool input_file output p size size' verbose w t t' :
  given_points (Some p) || given_size size = true ->
  given_points (Some p) || given_size size' = true ->
  size_argument size = Return t -> size_argument size' = Return t' ->
  main PlyData_read argsort pow_third tmp_name tool glb_size
       input_file output (Some p) size verbose w
  = main PlyData_read argsort pow_third tmp_name tool glb_size
         input_file output (Some p) size' verbose w.
Proof.
  intros Hg Hg' Hs Hs'. unfold main.
  rewrite <- !negb_orb, Hg, Hg'. cbn [negb].
  unfold cli_bind, cli_lift. rewrite Hs, Hs'.
  destruct (read_point_cloud PlyData_read input_file) as [[pts cols]|e];
    [|reflexivity].
  destruct verbose; reflexivity.
Qed.

(** X19: a size that cannot be parsed stops [main] even when a point
    count is given and the size would not be used: after the input has
    been read, [main] raises the error of [parse_size] and writes no
    file. *)
Theorem main_unparsed_size tool input_file output points s verbose w pts cols e :
  s <> EmptyString ->
  read_point_cloud PlyData_read input_file = Return (pts, cols) ->
  parse_size s = Throw e ->
  let '(r, w') := main PlyData_read argsort pow_third tmp_name tool glb_size
                       input_file output points (Some s) verbose w in
  r = Throw e /\ files w' = files w.
Proof.
  intros Hs Hr Hp. unfold main.
  assert (E : String.eqb s "" = false) by now apply String.eqb_neq.
  cbn [given_size]. rewrite E. cbn [negb]. rewrite andb_false_r.
  unfold cli_bind, cli_lift, size_argument. rewrite Hr, E, Hp. cbn [obind].
  destruct verbose; cbn; auto.
Qed.

(** X20: a run of [main] that goes through.  When the input is read, the
    size argument parses, the downsampler returns a non-empty point set
    and the transcoder exits with status 0 after writing [n] bytes, [main]
    returns; the output file is the transcoder's, the temporary file is
    gone, and the last line printed names the output, the number of points
    exported and [n].  With [-v] two lines come before it, with the number
    of points read and the number after downsampling. *)
Theorem main_exports input_file output points size verbose w pts cols t pts' cols' n :
  given_points points || given_size size = true ->
  read_point_cloud PlyData_read input_file = Return (pts, cols) ->
  size_argument size = Return t ->
  downsample_to_target argsort pow_third pts cols points t = Ok (pts', cols') ->
  pts' <> [] -> output <> tmp_name ->
  let '(r, w') := main PlyData_read argsort pow_third tmp_name
                       (Some (0, Some (ToolOutput n))) glb_size
                       input_file output points size verbose w in
  r = Return tt
  /\ lookup output (files w') = Some (ToolOutput n)
  /\ exists_file tmp_name (files w') = false
  /\ stdout w'
     = stdout w
       ++ (if verbose
           then ["Исходных: " ++ grouped (Z.of_nat (length pts));
                 "После: " ++ grouped (Z.of_nat (length pts'))]%string
           else [])
       ++ [(output ++ ": " ++ grouped (Z.of_nat (length pts')) ++ " точек, "
                   ++ grouped n ++ " байт")%string].
Proof.
  intros Hg Hr Hs Hd Hne Hout. unfold main.
  rewrite <- negb_orb, Hg. cbn [negb].
  unfold cli_bind, cli_lift, cli_io, cli_ret, echo.
  rewrite Hr, Hs.
  destruct (glb_document_total cols' Hne) as (g & Hg').
  assert (Hexp : forall fs,
             export_glb_with_draco tmp_name (Some (0, Some (ToolOutput n))) glb_size
                                   pts' cols' output fs
             = (Ok n, unlink tmp_name
                        (write output (ToolOutput n)
                           (write tmp_name (GlbFile g)
                              (write tmp_name EmptyFile fs))))).
  { intros fs.
    unfold export_glb_with_draco, _create_glb, subprocess_run_check,
      io_bind, io_lift, io_modify, io_ret, stat_st_size.
    rewrite Hg'. change (0 =? 0) with true. cbv iota beta.
    now rewrite lookup_unlink_other, lookup_write_same. }
  destruct verbose; cbn [files stdout]; rewrite Hd; cbn [of_result files stdout];
    rewrite Hexp; cbn [of_result files stdout];
    (split; [reflexivity|]);
    (split; [now rewrite lookup_unlink_other, lookup_write_same|]);
    (split; [unfold exists_file; now rewrite lookup_unlink_same|]).
  - now rewrite <- !app_assoc.
  - reflexivity.
Qed.

End Command.

(** ** A byte size too small for one point *)

Lemma resolve_target_tiny sz :
  -14 < sz < 14 -> sz <> 0 -> resolve_target None (Some sz) = Some 0.
Proof.
  intros Hsz Hne.
  assert (Hall : forallb (fun n =>
                            let z := Z.of_nat n - 13 in
                            (z =? 0)
                            || match resolve_target None (Some z) with
                               | Some t => t =? 0
                               | None => false
                               end) (seq 0 27) = true)
    by (vm_compute; reflexivity).
  rewrite forallb_forall in Hall.
  specialize (Hall (Z.to_nat (sz + 13)) ltac:(apply in_seq; lia)).
  cbv zeta in Hall. rewrite Z2Nat.id in Hall by lia.
  replace (sz + 13 - 13) with sz in Hall by lia.
  apply Z.eqb_neq in Hne. rewrite Hne in Hall. cbn [orb] in Hall.
  destruct (resolve_target None (Some sz)) as [t|]; [|discriminate].
  apply Z.eqb_eq in Hall. now subst.
Qed.

Section TinySize.

Variable argsort : list Z -> list nat.
Variable pow_third : Z -> F64.t.

(** X21: a byte size of less than 14 bytes, the room taken for one point,
    resolves to the target count 0.  With no point count given,
    [downsample_to_target] then returns an empty input as it is and fails
    on every other input with [ZeroDivisionError]. *)
Theorem downsample_to_target_tiny_size points colors sz :
  -14 < sz < 14 -> sz <> 0 ->
  downsample_to_target argsort pow_third points colors None (Some sz)
  = match points with
    | [] => Ok ([], colors)
    | _ :: _ => Raise ZeroDivisionError
    end.
Proof.
  intros Hsz Hne. unfold downsample_to_target.
  rewrite (resolve_target_tiny Hsz Hne).
  destruct points as [|p points]; [reflexivity|].
  assert (E : (0 >=? Z.of_nat (length (p :: points))) = false)
    by (rewrite Z.geb_leb; apply Z.leb_gt; simpl length; lia).
  rewrite E. now rewrite find_voxel_size_zero by discriminate.
Qed.

End TinySize.

(** ** File names without an extension *)

Lemma suffix_none (filepath dir name : string) :
  filepath = name \/ filepath = (dir ++ String "/" name)%string ->
  contains "/" name = false -> name <> EmptyString -> name <> "."%string ->
  rfind_dot name = None
  \/ rfind_dot name = Some O
  \/ rfind_dot name = Some (String.length name - 1)%nat ->
  suffix filepath = EmptyString.
Proof.
  intros Hpath Hslash Hne Hdot Hfind. unfold suffix.
  rewrite (@path_name_last filepath dir name Hpath Hslash Hne Hdot).
  destruct Hfind as [-> | [-> | ->]]; [reflexivity | reflexivity |].
  rewrite Nat.ltb_irrefl, andb_false_r. reflexivity.
Qed.

Lemma rfind_dot_first s :
  contains "." s = false -> rfind_dot (String "." s) = Some O.
Proof. intros H. cbn [rfind_dot]. now rewrite (@rfind_dot_none s H). Qed.

Lemma rfind_dot_end s :
  rfind_dot (s ++ ".") = Some (String.length (s ++ ".") - 1)%nat.
Proof.
  rewrite (@rfind_dot_last s EmptyString eq_refl), string_length_append.
  cbn [String.length]. f_equal. lia.
Qed.

Section NoExtension.

Variable PlyData_read : string -> result PlyData.

(** X22: names that have no extension for [read_point_cloud].  A path
    whose last component has no dot, or only a leading dot (a file called
    [.ply]), or ends in a dot, is refused with the error for an
    unsupported format, whose message then ends in an empty extension;
    the file is not opened. *)
Theorem read_point_cloud_no_extension filepath dir name rest :
  filepath = name \/ filepath = (dir ++ String "/" name)%string ->
  contains "/" name = false -> name <> EmptyString -> name <> "."%string ->
  contains "." name = false
  \/ (name = String "." rest /\ contains "." rest = false)
  \/ name = (rest ++ ".")%string ->
  read_point_cloud PlyData_read filepath = Throw (UnsupportedFormat "").
Proof.
  intros Hpath Hslash Hne Hdot Hname. unfold read_point_cloud.
  rewrite (@suffix_none filepath dir name Hpath Hslash Hne Hdot); [reflexivity|].
  destruct Hname as [H | [[-> H] | ->]].
  - left. now apply rfind_dot_none.
  - right. left. now apply rfind_dot_first.
  - right. right. apply rfind_dot_end.
Qed.

End NoExtension.

(** ** The whole pipeline *)

Lemma read_lengths v pts cols :
  read_ply v = Ok (pts, cols) \/ read_sog v = Ok (pts, cols) ->
  length cols = length pts.
Proof.
  intros [H | H].
  - pose proof (read_outcome read_ply "red" "green" "blue" astype_uint8
                             (fun _ => eq_refl) v) as Ho.
    destruct (readable v "red" "green" "blue"); [|congruence].
    destruct Ho as (pts' & cols' & E & Lp & Lc & _).
    rewrite H in E. injection E as <- <-. congruence.
  - pose proof (read_outcome read_sog "f_dc_0" "f_dc_1" "f_dc_2" sh_channel
                             (fun _ => eq_refl) v) as Ho.
    destruct (readable v "f_dc_0" "f_dc_1" "f_dc_2"); [|congruence].
    destruct Ho as (pts' & cols' & E & Lp & Lc & _).
    rewrite H in E. injection E as <- <-. congruence.
Qed.

Section Pipeline.

Variable PlyData_read : string -> result PlyData.
Variable argsort : list Z -> list nat.
Variable pow_third : Z -> F64.t.
Variable tmp_name : string.
Variable glb_size : GLTF2 -> Z.

Lemma read_point_cloud_lengths filepath pts cols :
  read_point_cloud PlyData_read filepath = Return (pts, cols) ->
  length cols = length pts.
Proof.
  unfold read_point_cloud, of_result.
  destruct (String.eqb _ ".ply").
  - destruct (read_vertex PlyData_read filepath) as [v|e]; cbn [bind];
      [|discriminate].
    destruct (read_ply v) as [[p c]|e] eqn:E; [|discriminate].
    intros H. injection H as <- <-. apply (@read_lengths v). now left.
  - destruct (String.eqb _ ".sog"); [|discriminate].
    destruct (read_vertex PlyData_read filepath) as [v|e]; cbn [bind];
      [|discriminate].
    destruct (read_sog v) as [[p c]|e] eqn:E; [|discriminate].
    intros H. injection H as <- <-. apply (@read_lengths v). now right.
Qed.

(** A positive count on a non-empty point set with as many colours. *)
Lemma downsample_positive points colors p t :
  points <> [] -> 1 <= p -> length colors = length points ->
  (forall v keys,
      find_voxel_size_for_target pow_third points p default_tol = Ok v ->
      voxel_keys v points = Ok keys ->
      argsort_okb keys (argsort keys) = true) ->
  exists pts cols,
    downsample_to_target argsort pow_third points colors (Some p) t = Ok (pts, cols)
    /\ pts <> [].
Proof.
  intros Hp Hpos Hcol Hsort. unfold downsample_to_target. cbn [resolve_target].
  destruct (p >=? Z.of_nat (length points)); [eauto|].
  destruct (@find_voxel_size_total pow_third points p default_tol Hp) as (v & Hv);
    [lia|].
  destruct (voxel_keys_total v Hp) as (keys & Hkeys).
  destruct (downsample_voxel_total argsort points colors v Hkeys
              (Hsort v keys Hv Hkeys) Hcol) as (pts & cols & sel & Hds & Hlen).
  pose proof (downsample_voxel_selected argsort _ _ _ Hds) as [Lp _].
  apply take_length in Lp.
  rewrite Hv. unfold bind at 1. cbv beta iota. rewrite Hds.
  exists pts, cols. split; [reflexivity|].
  assert (Hk : keys <> []).
  { intros ->. apply voxel_keys_length in Hkeys.
    destruct points; [congruence | discriminate]. }
  pose proof (@unique_sorted_length keys Hk) as Hu.
  intros ->. cbn [length] in Lp. lia.
Qed.

(** X23: from a file that reads to the output.  For an input that
    [read_point_cloud] reads as a non-empty cloud, a point count of at
    least 1, a size that is absent or parses, and a transcoder that exits
    with status 0 after writing its output, [main] raises nothing: it
    returns, the output file is the transcoder's and the temporary file is
    gone.  ([np.argsort] is taken to sort.) *)
Theorem main_succeeds input_file output p size verbose w pts cols t n :
  read_point_cloud PlyData_read input_file = Return (pts, cols) ->
  pts <> [] -> 1 <= p ->
  size_argument size = Return t ->
  (forall v keys,
      find_voxel_size_for_target pow_third pts p default_tol = Ok v ->
      voxel_keys v pts = Ok keys ->
      argsort_okb keys (argsort keys) = true) ->
  output <> tmp_name ->
  let '(r, w') := main PlyData_read argsort pow_third tmp_name
                       (Some (0, Some (ToolOutput n))) glb_size
                       input_file output (Some p) size verbose w in
  r = Return tt
  /\ lookup output (files w') = Some (ToolOutput n)
  /\ exists_file tmp_name (files w') = false.
Proof.
  intros Hr Hne Hp Hs Hsort Hout.
  pose proof (@read_point_cloud_lengths input_file pts cols Hr) as Hlen.
  destruct (@downsample_positive pts cols p t Hne Hp Hlen Hsort)
    as (pts' & cols' & Hd & Hne').
  destruct (glb_document_total cols' Hne') as (g & Hg).
  unfold main. cbn [given_points].
  assert (E : (p =? 0) = false) by (apply Z.eqb_neq; lia).
  rewrite E. cbn [negb andb].
  unfold cli_bind, cli_lift, cli_io, cli_ret, echo.
  rewrite Hr, Hs.
  assert (Hexp : forall fs,
             export_glb_with_draco tmp_name (Some (0, Some (ToolOutput n))) glb_size
                                   pts' cols' output fs
             = (Ok n, unlink tmp_name
                        (write output (ToolOutput n)
                           (write tmp_name (GlbFile g)
                              (write tmp_name EmptyFile fs))))).
  { intros fs.
    unfold export_glb_with_draco, _create_glb, subprocess_run_check,
      io_bind, io_lift, io_modify, io_ret, stat_st_size.
    rewrite Hg. change (0 =? 0) with true. cbv iota beta.
    now rewrite lookup_unlink_other, lookup_write_same. }
  destruct verbose; cbn [files stdout]; rewrite Hd; cbn [of_result files stdout];
    rewrite Hexp; cbn [of_result files stdout];
    (split; [reflexivity|]);
    (split; [now rewrite lookup_unlink_other, lookup_write_same|]);
    unfold exists_file; now rewrite lookup_unlink_same.
Qed.

End Pipeline.

(** ** Every voxel is represented *)

Lemma NoDup_singleton {A : Type} (l : list A) (a : A) :
  NoDup l -> (forall x, In x l <-> x = a) -> l = [a].
Proof.
  intros Hnd Hin. destruct l as [|x l].
  - exfalso. apply (proj2 (Hin a) eq_refl).
  - assert (x = a) by (apply Hin; now left). subst x.
    destruct l as [|y l]; [reflexivity|].
    assert (y = a) by (apply Hin; right; now left). subst y.
    inversion Hnd as [|? ? Hnot _]. exfalso. apply Hnot. now left.
Qed.

Lemma select_single points i :
  (i < length points)%nat -> select_in_group points [i] = Ok i.
Proof.
  intros Hi. unfold select_in_group, take. cbn [mapM].
  destruct (nth_error points i) as [p|] eqn:E;
    [|apply nth_error_None in E; lia].
  cbn [of_option bind]. unfold centroid_distances. cbn [map np_argmin].
  destruct (SFis_nan _); reflexivity.
Qed.

Section Coverage.

Variable argsort : list Z -> list nat.

(** X24: no voxel is dropped.  Every input point has among the selected
    points one with its voxel key; and a point that shares its key with no
    other point is selected itself.  So when no two points share a key,
    the output is the whole input, reordered. *)
Theorem downsample_voxel_coverage points colors v keys pts cols sel :
  voxel_keys v points = Ok keys ->
  argsort_okb keys (argsort keys) = true ->
  downsample_voxel_grid_nearest argsort points colors v = Ok (pts, cols, sel) ->
  forall i, (i < length points)%nat ->
    (exists r, In r sel /\ key_at keys r = key_at keys i)
    /\ ((forall j, (j < length points)%nat ->
                   key_at keys j = key_at keys i -> j = i) ->
        In i sel).
Proof.
  intros Hkeys Hok H i Hi.
  pose proof (voxel_keys_length _ _ Hkeys) as Hlen.
  pose proof (downsample_voxel_groups argsort points colors v Hkeys Hok H) as Hm.
  destruct (selected_keys argsort points keys Hok Hm) as [Hsel _].
  assert (Hk : In (key_at keys i) (unique_sorted keys)).
  { apply unique_sorted_In. apply nth_In. lia. }
  split.
  - rewrite <- Hsel in Hk. apply in_map_iff in Hk as (r & E & Hr). eauto.
  - intros Halone.
    assert (Hmem : members keys (argsort keys) (key_at keys i) = [i]).
    { apply NoDup_singleton.
      - apply NoDup_filter. now destruct (argsort_okb_spec _ _ Hok) as (_ & _ & Hnd & _).
      - intros j. rewrite (@members_spec argsort keys (key_at keys i) j Hok), Hlen. split.
        + intros [Hj E]. now apply Halone.
        + intros ->. auto. }
    apply mapM_Forall2 in Hm. clear -Hm Hk Hmem Hi.
    induction Hm as [|k r ks sel Hr _ IH]; [contradiction|].
    destruct Hk as [-> | Hk]; [|right; now apply IH].
    left. rewrite Hmem, (@select_single points i Hi) in Hr. congruence.
Qed.

End Coverage.

(** ** The further properties at concrete inputs *)

(** X1 on [four_points] at the voxel size 2. *)
Lemma downsample_voxel_output_witness :
  exists pts cols sel,
    downsample_voxel_grid_nearest NpySort.argsort four_points four_colors (f32 2)
    = Ok (pts, cols, sel)
    /\ length pts = length sel
    /\ length cols = length sel
    /\ (1 <= length sel <= length four_points)%nat
    /\ NoDup sel
    /\ Forall (fun i => (i < length four_points)%nat) sel
    /\ StronglySorted Z.lt (map (key_at [2; 5; 0; 3]) sel).
Proof.
  apply (@downsample_voxel_output NpySort.argsort four_points four_colors (f32 2)
           [2; 5; 0; 3]); vm_compute; reflexivity.
Defined.


(** X3 on [four_points] with the target count 2. *)
Lemma downsample_to_target_returns_witness :
  exists pts cols,
    downsample_to_target NpySort.argsort cbrt_f64 four_points four_colors
                         (Some 2) None
    = Ok (pts, cols)
    /\ length cols = length pts
    /\ (1 <= length pts <= length four_points)%nat.
Proof.
  apply (@downsample_to_target_returns NpySort.argsort cbrt_f64 four_points
           four_colors 2 None).
  - simpl. lia.
  - reflexivity.
  - intros v keys Hv Hk. vm_compute in Hv. injection Hv as <-.
    vm_compute in Hk. injection Hk as <-. vm_compute. reflexivity.
Defined.


(** X5 on [four_points] at the voxel size 2. *)
Lemma downsample_voxel_one_per_cell_witness :
  (forall i j ci cj,
      nth_error (map (grid_cell (f32 2)) four_points) i = Some ci ->
      nth_error (map (grid_cell (f32 2)) four_points) j = Some cj ->
      (key_at [2; 5; 0; 3] i = key_at [2; 5; 0; 3] j <-> ci = cj))
  /\ NoDup (snd four_points_at_2)
  /\ Z.of_nat (length (snd four_points_at_2)) = occupied_voxels four_points (f32 2).
Proof.
  apply (@downsample_voxel_one_per_cell NpySort.argsort four_points four_colors
           (f32 2) [2; 5; 0; 3] (fst (fst four_points_at_2))
           (snd (fst four_points_at_2)) (snd four_points_at_2));
    vm_compute; reflexivity.
Defined.

(** X6 on [four_points], with a transcoder that writes 96 bytes and one
    that writes nothing. *)
Lemma export_glb_success_witness :
  (let '(r, fs') :=
     export_glb_with_draco "/tmp/tmpq3x8.glb" (Some (0, Some (ToolOutput 96)))
                           (fun _ => 0) four_points four_colors "out.glb" [] in
   r = Ok 96
   /\ lookup "out.glb" fs' = Some (ToolOutput 96)
   /\ exists_file "/tmp/tmpq3x8.glb" fs' = false)
  /\ (let '(r, fs') :=
        export_glb_with_draco "/tmp/tmpq3x8.glb" (Some (0, None))
                              (fun _ => 0) four_points four_colors "out.glb" [] in
      r = Raise FileNotFoundError
      /\ exists_file "/tmp/tmpq3x8.glb" fs' = false).
Proof.
  destruct (@export_glb_success "/tmp/tmpq3x8.glb" (fun _ => 0) four_points
              four_colors "out.glb" [] ltac:(discriminate) ltac:(discriminate))
    as [Hwritten Hnothing].
  split; [exact (Hwritten 96) | exact (Hnothing eq_refl)].
Defined.

(** X7 with a file [notes.txt] beside the output, on [four_points] with a
    transcoder that fails, and on the empty point set. *)
Lemma export_glb_frame_witness :
  lookup "notes.txt"
    (snd (export_glb_with_draco "/tmp/tmpq3x8.glb" (Some (1, Some (ToolOutput 7)))
                                (fun _ => 0) four_points four_colors "out.glb"
                                [("notes.txt"%string, ToolOutput 5)]))
  = Some (ToolOutput 5)
  /\ lookup "out.glb"
       (snd (export_glb_with_draco "/tmp/tmpq3x8.glb" (Some (0, Some (ToolOutput 7)))
                                   (fun _ => 0) [] [] "out.glb"
                                   [("out.glb"%string, ToolOutput 5)]))
     = Some (ToolOutput 5).
Proof.
  split.
  - apply (@export_glb_frame "/tmp/tmpq3x8.glb" (fun _ => 0)
             (Some (1, Some (ToolOutput 7))) four_points four_colors "out.glb"
             [("notes.txt"%string, ToolOutput 5)]); discriminate.
  - apply (@export_glb_frame "/tmp/tmpq3x8.glb" (fun _ => 0)
             (Some (0, Some (ToolOutput 7))) [] [] "out.glb"
             [("out.glb"%string, ToolOutput 5)]); [reflexivity | discriminate].
Defined.

(** X8 on [four_points] with [four_colors]. *)
Lemma glb_blob_round_trip_witness :
  exists g,
    glb_document four_points four_colors = Ok g
    /\ frombuffer (firstn (12 * length four_points) (binary_blob g)) = four_points
    /\ frombuffer (skipn (12 * length four_points) (binary_blob g))
       = colors_f four_colors.
Proof.
  destruct (glb_document four_points four_colors) as [g|e] eqn:E;
    [|vm_compute in E; discriminate].
  exists g. split; [reflexivity|].
  apply (@glb_blob_round_trip four_points four_colors g E); vm_compute; reflexivity.
Defined.

(** X9 on [four_colors]. *)
Lemma colors_f_lossless_witness :
  Forall (fun f => Forall (fun x => SFleb (S754_zero false) x = true
                                    /\ SFleb x (F32.of_Z 1) = true)
                          [coord_x f; coord_y f; coord_z f])
         (colors_f four_colors)
  /\ (colors_f four_colors = colors_f four_colors -> four_colors = four_colors).
Proof.
  apply (@colors_f_lossless four_colors four_colors); vm_compute; reflexivity.
Defined.

(** X11 on [plain_vertex]. *)
Lemma readers_default_white_witness :
  (exists pts,
      read_ply plain_vertex = Ok (pts, repeat (255, 255, 255) 2)
      /\ length pts = 2%nat)
  /\ (exists pts,
         read_sog plain_vertex = Ok (pts, repeat (255, 255, 255) 2)
         /\ length pts = 2%nat).
Proof.
  destruct (@readers_default_white plain_vertex eq_refl eq_refl eq_refl)
    as [Hply Hsog].
  split; [exact (Hply eq_refl) | exact (Hsog eq_refl)].
Defined.

(** X12 on [four_points] with [four_colors]. *)
Lemma read_ply_stored_witness :
  read_ply (colored_vertex four_points four_colors) = Ok (four_points, four_colors).
Proof.
  apply (@read_ply_stored four_points four_colors); vm_compute; reflexivity.
Defined.

(** X13 on [float_color_vertex]. *)
Lemma read_ply_float_colors_witness :
  exists pts,
    read_ply float_color_vertex = Ok (pts, repeat (0, 0, 0) 2)
    /\ length pts = 2%nat.
Proof.
  apply (@read_ply_float_colors float_color_vertex
           [f32_ratio 1 2; f32_ratio 3 4] [f32_ratio 1 4; f32_ratio 1 8]
           [f32 0; f32_ratio 1 2]); vm_compute; reflexivity.
Defined.

(** X14 on [scans/room.PLY] and on [scene.glb]. *)
Lemma read_point_cloud_dispatch_witness :
  read_point_cloud example_files "scans/room.PLY"
  = of_result (let* v := read_vertex example_files "scans/room.PLY" in read_ply v)
  /\ read_point_cloud example_files "scene.glb"
     = Throw (UnsupportedFormat ".glb").
Proof.
  split.
  - apply (@read_point_cloud_dispatch example_files "scans/room.PLY" "scans"
             "room" "PLY"); (right; reflexivity) || discriminate || reflexivity.
  - apply (@read_point_cloud_dispatch example_files "scene.glb" ""
             "scene" "glb"); (left; reflexivity) || discriminate || reflexivity.
Defined.

(** X15 on [500kb], [2GB] and [977b]. *)
Lemma parse_size_unit_witness :
  parse_size "500kb" = Return 512000
  /\ parse_size "2GB" = Return 2147483648
  /\ parse_size "977b" = Return 977.
Proof.
  split; [|split].
  - apply (@parse_size_unit "500" "kb" 1024);
      try reflexivity; try discriminate; vm_compute; auto.
  - apply (@parse_size_unit "2" "GB" (1024 ^ 3));
      try reflexivity; try discriminate; vm_compute; auto.
  - apply (@parse_size_unit "977" "b" 1);
      try reflexivity; try discriminate; vm_compute; auto.
Defined.

(** X16 on a number of bytes above [2^53]. *)
Lemma parse_size_plain_witness :
  parse_size "9007199254740993" = Return 9007199254740993.
Proof.
  apply (@parse_size_plain "9007199254740993");
    [reflexivity | discriminate | vm_compute; lia].
Defined.

(** X17 with [--points 0] and no size, and with neither. *)
Lemma main_usage_error_witness :
  main example_files NpySort.argsort cbrt_f64 "/tmp/tmpq3x8.glb"
       (Some (0, Some (ToolOutput 96))) (fun _ => 0)
       "scans/room.PLY" "out.glb" (Some 0) None false empty_world
  = (Throw UsageError, empty_world)
  /\ main example_files NpySort.argsort cbrt_f64 "/tmp/tmpq3x8.glb"
          (Some (0, Some (ToolOutput 96))) (fun _ => 0)
          "scans/room.PLY" "out.glb" None (Some ""%string) true empty_world
     = (Throw UsageError, empty_world).
Proof.
  split.
  - apply (proj1 (main_usage_error example_files NpySort.argsort cbrt_f64
                    "/tmp/tmpq3x8.glb" (fun _ => 0) (Some (0, Some (ToolOutput 96)))
                    "scans/room.PLY" "out.glb" (Some 0) None false empty_world));
      reflexivity.
  - apply (proj1 (main_usage_error example_files NpySort.argsort cbrt_f64
                    "/tmp/tmpq3x8.glb" (fun _ => 0) (Some (0, Some (ToolOutput 96)))
                    "scans/room.PLY" "out.glb" None (Some ""%string) true
                    empty_world));
      reflexivity.
Defined.

(** X18 with [--points 2] and the sizes [500kb] and none. *)
Lemma main_points_first_witness :
  main example_files NpySort.argsort cbrt_f64 "/tmp/tmpq3x8.glb"
       (Some (0, Some (ToolOutput 96))) (fun _ => 0)
       "scans/room.PLY" "out.glb" (Some 2) (Some "500kb"%string) true empty_world
  = main example_files NpySort.argsort cbrt_f64 "/tmp/tmpq3x8.glb"
         (Some (0, Some (ToolOutput 96))) (fun _ => 0)
         "scans/room.PLY" "out.glb" (Some 2) None true empty_world.
Proof.
  apply (@main_points_first example_files NpySort.argsort cbrt_f64
           "/tmp/tmpq3x8.glb" (fun _ => 0) (Some (0, Some (ToolOutput 96)))
           "scans/room.PLY" "out.glb" 2 (Some "500kb"%string) None true empty_world
           (Some 512000) None); vm_compute; reflexivity.
Defined.

(** X19 with [--points 2] and the size [lots]. *)
Lemma main_unparsed_size_witness :
  let '(r, w') :=
    main example_files NpySort.argsort cbrt_f64 "/tmp/tmpq3x8.glb"
         (Some (0, Some (ToolOutput 96))) (fun _ => 0)
         "scans/room.PLY" "out.glb" (Some 2) (Some "lots"%string) false empty_world in
  r = Throw ValueError /\ files w' = files empty_world.
Proof.
  apply (@main_unparsed_size example_files NpySort.argsort cbrt_f64
           "/tmp/tmpq3x8.glb" (fun _ => 0) (Some (0, Some (ToolOutput 96)))
           "scans/room.PLY" "out.glb" (Some 2) "lots" false empty_world
           four_points four_colors ValueError);
    [discriminate | vm_compute; reflexivity | vm_compute; reflexivity].
Defined.

(** X20 with [--points 2 -v] on [scans/room.PLY]. *)
Lemma main_exports_witness :
  let '(r, w') :=
    main example_files NpySort.argsort cbrt_f64 "/tmp/tmpq3x8.glb"
         (Some (0, Some (ToolOutput 96))) (fun _ => 0)
         "scans/room.PLY" "out.glb" (Some 2) None true empty_world in
  r = Return tt
  /\ lookup "out.glb" (files w') = Some (ToolOutput 96)
  /\ exists_file "/tmp/tmpq3x8.glb" (files w') = false
  /\ stdout w'
     = ["Исходных: 4"; "После: 4"; "out.glb: 4 точек, 96 байт"]%string.
Proof.
  apply (@main_exports example_files NpySort.argsort cbrt_f64 "/tmp/tmpq3x8.glb"
           (fun _ => 0) "scans/room.PLY" "out.glb" (Some 2) None true empty_world
           four_points four_colors None
           (fst four_points_to_2) (snd four_points_to_2) 96);
    try discriminate; vm_compute; reflexivity.
Defined.

(** X21 on [four_points] with a size of 13 bytes. *)
Lemma downsample_to_target_tiny_size_witness :
  downsample_to_target NpySort.argsort cbrt_f64 four_points four_colors
                       None (Some 13)
  = Raise ZeroDivisionError.
Proof.
  apply (@downsample_to_target_tiny_size NpySort.argsort cbrt_f64 four_points
           four_colors 13); [lia | discriminate].
Defined.

(** X22 on [cloud], [data/.ply] and [cloud.]. *)
Lemma read_point_cloud_no_extension_witness :
  read_point_cloud example_files "cloud" = Throw (UnsupportedFormat "")
  /\ read_point_cloud example_files "data/.ply" = Throw (UnsupportedFormat "")
  /\ read_point_cloud example_files "cloud." = Throw (UnsupportedFormat "").
Proof.
  split; [|split].
  - apply (@read_point_cloud_no_extension example_files "cloud" "" "cloud" "");
      [now left | reflexivity | discriminate | discriminate | now left].
  - apply (@read_point_cloud_no_extension example_files "data/.ply" "data" ".ply"
             "ply");
      [now right | reflexivity | discriminate | discriminate
       | right; left; split; reflexivity].
  - apply (@read_point_cloud_no_extension example_files "cloud." "" "cloud."
             "cloud");
      [now left | reflexivity | discriminate | discriminate | right; right; reflexivity].
Defined.

(** X23 with [--points 2 --size 500kb] on [scans/room.PLY]. *)
Lemma main_succeeds_witness :
  let '(r, w') :=
    main example_files NpySort.argsort cbrt_f64 "/tmp/tmpq3x8.glb"
         (Some (0, Some (ToolOutput 96))) (fun _ => 0)
         "scans/room.PLY" "out.glb" (Some 2) (Some "500kb"%string) false
         empty_world in
  r = Return tt
  /\ lookup "out.glb" (files w') = Some (ToolOutput 96)
  /\ exists_file "/tmp/tmpq3x8.glb" (files w') = false.
Proof.
  apply (@main_succeeds example_files NpySort.argsort cbrt_f64 "/tmp/tmpq3x8.glb"
           (fun _ => 0) "scans/room.PLY" "out.glb" 2 (Some "500kb"%string) false
           empty_world four_points four_colors (Some 512000) 96).
  - vm_compute. reflexivity.
  - discriminate.
  - lia.
  - vm_compute. reflexivity.
  - intros v keys Hv Hk. vm_compute in Hv. injection Hv as <-.
    vm_compute in Hk. injection Hk as <-. vm_compute. reflexivity.
  - discriminate.
Defined.

(** X24 on [four_points] at the voxel size 2, for the point 1. *)
Lemma downsample_voxel_coverage_witness :
  (exists r, In r (snd four_points_at_2)
             /\ key_at [2; 5; 0; 3] r = key_at [2; 5; 0; 3] 1)
  /\ In 1%nat (snd four_points_at_2).
Proof.
  destruct (@downsample_voxel_coverage NpySort.argsort four_points four_colors
              (f32 2) [2; 5; 0; 3] (fst (fst four_points_at_2))
              (snd (fst four_points_at_2)) (snd four_points_at_2)
              ltac:(vm_compute; reflexivity) ltac:(vm_compute; reflexivity)
              ltac:(vm_compute; reflexivity) 1%nat ltac:(simpl; lia))
    as [Hrep Halone].
  split; [exact Hrep|]. apply Halone.
  intros [|[|[|[|j]]]] Hj E; try reflexivity; try discriminate E.
  simpl in Hj. lia.
Defined.
